(** * Dawn auto-login: a shallow embedding of [src/index.js]

    The repository ships one script in four successive variants, concatenated
    in [src/index.js]:

    - variant 1 (lines 1-348): spinner output, 2captcha / Anti-Captcha / manual
      captcha entry, one login attempt per account;
    - variant 2 (lines 349-627): variant 1 without spinner and manual entry;
    - variant 3 (lines 628-983): proxy rotation, every remote call retried,
      three login attempts per account;
    - variant 4 (lines 984-1412): Gemini / Telegram / manual solvers, status
      messages to Telegram, login retried until it succeeds.

    The four variants are embedded below as modules [V1], [V3], [V4] and
    [V2] (variant 2 is variant 1 with the spinner calls replaced by
    [console.log] and the puzzle requests of variant 4); the start-up code
    of their [main] functions follows in [V3_main], [V1_main] and [V4_main].

    Modelling conventions.
    - Asynchronous code is sequential ([await] everywhere), so every function
      is a computation in the monad [M]: it reads the environment's answers
      ([Env]), threads the script's module-level variables and the number of
      calls made so far ([State]), and produces the list of effects it
      performed ([Event]) together with an [Outcome]: a returned value, a
      thrown error (its [message]), or [Diverge] when the fuel given to an
      unbounded loop runs out.
    - A JS string is a [string] whose characters are UTF-16 code units below
      256; colour codes ([chalk]) and pictographs of the console and Telegram
      texts are left out.
    - A JS number is an IEEE 754 double ([Number]): a finite one is the
      rational it denotes, and every operation rounds to the nearest double.
      Loop counters and the delays of the bounded loops are small integers,
      on which the arithmetic is exact.
    - A pause is the event [Sleep] with the milliseconds the timer is set
      to, by the rule of Node's [setTimeout].
    - What the libraries decide is the environment's: the replies of the
      service, the solvers' answers, the files read, and whether the proxy
      agent constructors accept a proxy URI.
    - Appending to a result log is taken to succeed (the specification gives
      the result recorder no failure mode): [fs.appendFile] is the event
      [AppendFile]. *)

From Stdlib Require Import List String Ascii ZArith QArith Qround Lia Bool Arith.
From Stdlib Require Import DecimalString Qabs Qpower Lqa.
Import ListNotations.
Close Scope Q_scope.
Open Scope string_scope.
Open Scope nat_scope.

Set Implicit Arguments.

(* ================================================================== *)
(** ** JavaScript strings *)

Definition nl : string := String (ascii_of_nat 10) "".

(** Decimal rendering of a number in a template literal. *)
Definition Z_to_string (z : Z) : string := NilEmpty.string_of_int (Z.to_int z).
Definition nat_to_string (n : nat) : string := Z_to_string (Z.of_nat n).

(** ECMAScript WhiteSpace and LineTerminator code units below 256:
    TAB, LF, VT, FF, CR, SPACE and NBSP. *)
Definition isWhiteSpace (c : ascii) : bool :=
  let n := nat_of_ascii c in
  (n =? 9) || (n =? 10) || (n =? 11) || (n =? 12) || (n =? 13)
  || (n =? 32) || (n =? 160).

Fixpoint trimStart (s : string) : string :=
  match s with
  | "" => ""
  | String c r => if isWhiteSpace c then trimStart r else s
  end.

Fixpoint trimEnd (s : string) : string :=
  match s with
  | "" => ""
  | String c r =>
      match trimEnd r with
      | "" => if isWhiteSpace c then "" else String c ""
      | r' => String c r'
      end
  end.

(** [String.prototype.trim] *)
Definition trim (s : string) : string := trimEnd (trimStart s).

(** [s.split(sep)] for a one-character separator *)
Fixpoint split (sep : ascii) (s : string) : list string :=
  match s with
  | "" => [""]
  | String c r =>
      if Ascii.eqb c sep then "" :: split sep r
      else match split sep r with
           | h :: t => String c h :: t
           | [] => [String c ""]
           end
  end.

(** [s.includes(c)] for a one-character needle *)
Fixpoint includes (c : ascii) (s : string) : bool :=
  match s with
  | "" => false
  | String d r => Ascii.eqb d c || includes c r
  end.

(** [s.startsWith(p)] *)
Definition startsWith (p s : string) : bool := String.prefix p s.

Definition all_whitespace (s : string) : Prop :=
  Forall (fun c => isWhiteSpace c = true) (list_ascii_of_string s).

(** First and last character of a string, when it has one. *)
Definition first_char (s : string) : option ascii :=
  match s with "" => None | String c _ => Some c end.

Fixpoint last_char (s : string) : option ascii :=
  match s with
  | "" => None
  | String c "" => Some c
  | String _ r => last_char r
  end.

(** A string is trimmed when neither end is a whitespace character. *)
Definition no_edge_whitespace (s : string) : Prop :=
  (forall c, first_char s = Some c -> isWhiteSpace c = false) /\
  (forall c, last_char s = Some c -> isWhiteSpace c = false).

(* ================================================================== *)
(** ** JavaScript numbers *)

(** A Number is an IEEE 754 double. A finite one is kept as the rational it
    denotes, in lowest terms; the sign of zero, which nothing in the script
    observes, is dropped. Every operation rounds its result to a double; a
    number that comes from the environment (in the body of a reply) is
    taken as the rational it is given as. *)
Inductive Number :=
| Finite (q : Q)
| Infinity (negative : bool)
| NaN.

(** The Number of an integer literal or counter (below 2^53, hence exact). *)
Definition num (z : Z) : Number := Finite (inject_Z z).

Definition negative (q : Q) : bool := (Qnum q <? 0)%Z.

(** [floor (log2 q)], for [q > 0] *)
Definition Qlog2 (q : Q) : Z :=
  let l := (Z.log2 (Qnum q) - Z.log2 (Zpos (Qden q)))%Z in
  if Qle_bool (Qpower 2 l) q then l else (l - 1)%Z.

(** To the nearest integer, a tie to the even one. *)
Definition round_half_even (x : Q) : Z :=
  let f := Qfloor x in
  match (x - inject_Z f ?= 1 # 2)%Q with
  | Lt => f
  | Gt => (f + 1)%Z
  | Eq => if Z.even f then f else (f + 1)%Z
  end.

(** The double nearest to the real [q] (roundTiesToEven): a multiple of
    [2^e] with at most 53 bits, where [e] is 52 below the binary exponent of
    [q] and at least -1074; infinite from [2^1024] on. *)
Definition round64 (q : Q) : Number :=
  if Qeq_bool q 0 then Finite 0
  else
    let a := Qabs q in
    let e := (Z.max (Qlog2 a) (-1022) - 52)%Z in
    let m := round_half_even (a / Qpower 2 e) in
    let r := (inject_Z m * Qpower 2 e)%Q in
    if Qle_bool (Qpower 2 1024) r then Infinity (negative q)
    else Finite (Qred (if negative q then - r else r)).

(** [x + y] *)
Definition Number_add (x y : Number) : Number :=
  match x, y with
  | NaN, _ | _, NaN => NaN
  | Finite a, Finite b => round64 (a + b)
  | Infinity s, Finite _ | Finite _, Infinity s => Infinity s
  | Infinity s, Infinity t => if Bool.eqb s t then Infinity s else NaN
  end.

(** [x * y] *)
Definition Number_mul (x y : Number) : Number :=
  match x, y with
  | NaN, _ | _, NaN => NaN
  | Finite a, Finite b => round64 (a * b)
  | Infinity s, Finite a | Finite a, Infinity s =>
      if Qeq_bool a 0 then NaN else Infinity (xorb s (negative a))
  | Infinity s, Infinity t => Infinity (xorb s t)
  end.

(** [x / y]; a zero divisor is taken as [+0]. *)
Definition Number_div (x y : Number) : Number :=
  match x, y with
  | NaN, _ | _, NaN => NaN
  | Finite a, Finite b =>
      if Qeq_bool b 0 then
        if Qeq_bool a 0 then NaN else Infinity (negative a)
      else round64 (a / b)
  | Finite _, Infinity _ => Finite 0
  | Infinity s, Finite b => Infinity (xorb s (negative b))
  | Infinity _, Infinity _ => NaN
  end.

(** [Math.pow(base, exponent)] for a finite base other than zero and an
    integral exponent: the power, rounded once. (ECMAScript leaves the last
    bit of [Math.pow] to the implementation; the value is exact whenever the
    power is a double, as for 1.5^n up to n = 33.) *)
Definition Math_pow (base : Q) (exponent : Z) : Number :=
  round64 (Qpower base exponent).

(** [Math.round(x)]: the nearest integer, a tie upwards. *)
Definition Math_round (x : Number) : Number :=
  match x with
  | Finite q => Finite (inject_Z (Qfloor (q + (1 # 2))%Q))
  | _ => x
  end.

(** *** Number::toString *)

Fixpoint zeros (n : nat) : string :=
  match n with
  | 0 => ""
  | S n' => String "0" (zeros n')
  end.

Definition digits_of (z : Z) : string := Z_to_string z.

(** The [n] with [10^(n-1) <= x < 10^n], for [x > 0]. *)
Definition decimal_exponent (x : Q) : Z :=
  let l := (Z.of_nat (String.length (digits_of (Qnum x)))
            - Z.of_nat (String.length (digits_of (Zpos (Qden x)))))%Z in
  if Qle_bool (Qpower 10 l) x then (l + 1)%Z else l.

(** Does the decimal [s * 10^(n-k)] denote the double [x]? *)
Definition reads_back (x : Q) (n : Z) (k : nat) (s : Z) : bool :=
  match round64 (inject_Z s * Qpower 10 (n - Z.of_nat k)) with
  | Finite y => Qeq_bool y x
  | _ => false
  end.

(** The [s] of [k] digits for which [s * 10^(n-k)] denotes [x], if there is
    one: the closer to [x] of the two candidates, the even one on a tie. *)
Definition with_digits (x : Q) (n : Z) (k : nat) : option Z :=
  let scale := Qpower 10 (n - Z.of_nat k) in
  let lo := Qfloor (x / scale) in
  let hi := (lo + 1)%Z in
  let below := (x - inject_Z lo * scale)%Q in
  let above := (inject_Z hi * scale - x)%Q in
  match reads_back x n k lo, reads_back x n k hi with
  | true, true =>
      Some match (below ?= above)%Q with
           | Lt => lo
           | Gt => hi
           | Eq => if Z.even lo then lo else hi
           end
  | true, false => Some lo
  | false, true => Some hi
  | false, false => None
  end.

(** The shortest such [s], trying [k], [k + 1], ... digits. *)
Fixpoint shortest (x : Q) (n : Z) (k fuel : nat) : Z * nat :=
  match fuel with
  | 0 => (Qfloor (x / Qpower 10 (n - Z.of_nat k)), k)
  | S fuel' =>
      match with_digits x n k with
      | Some s => (s, k)
      | None => shortest x n (S k) fuel'
      end
  end.

(** The digits [d] of [s] ([k] of them) with the decimal point after the
    first [n]: plain notation for [-5 <= n <= 21], exponent notation
    otherwise. *)
Definition render (d : string) (k : nat) (n : Z) : string :=
  if (-5 <=? n)%Z && (n <=? 21)%Z then
    if (Z.of_nat k <=? n)%Z then d ++ zeros (Z.to_nat n - k)
    else if (0 <? n)%Z then
      substring 0 (Z.to_nat n) d ++ "." ++ substring (Z.to_nat n) (k - Z.to_nat n) d
    else "0." ++ zeros (Z.to_nat (- n)) ++ d
  else
    (if k =? 1 then d else substring 0 1 d ++ "." ++ substring 1 (k - 1) d)
    ++ "e" ++ (if (n <? 0)%Z then "-" else "+") ++ digits_of (Z.abs (n - 1)).

Definition positive_to_string (x : Q) : string :=
  let n := decimal_exponent x in
  let '(s, k) := shortest x n 1 17 in
  (* a candidate 10^k is 1 followed by zeros, one place higher *)
  if (s =? 10 ^ Z.of_nat k)%Z then render "1" 1 (n + 1)
  else render (digits_of s) k n.

(** [String(x)], [`${x}`] *)
Definition Number_to_string (x : Number) : string :=
  match x with
  | NaN => "NaN"
  | Infinity false => "Infinity"
  | Infinity true => "-Infinity"
  | Finite q =>
      if Qeq_bool q 0 then "0"
      else if negative q then "-" ++ positive_to_string (Qabs q)
      else positive_to_string q
  end.

(* ================================================================== *)
(** ** JavaScript values *)

#[warnings="-register-all"]
Inductive JSValue : Type :=
| JUndefined
| JNull
| JBool (b : bool)
| JNumber (x : Number)
| JStr (s : string)
| JObj (fields : list (string * JSValue)).

(** The number of an integer literal. *)
Definition JNum (n : Z) : JSValue := JNumber (num n).

(** Template-literal / concatenation rendering, [String(v)] *)
Definition js_to_string (v : JSValue) : string :=
  match v with
  | JUndefined => "undefined"
  | JNull => "null"
  | JBool true => "true"
  | JBool false => "false"
  | JNumber x => Number_to_string x
  | JStr s => s
  | JObj _ => "[object Object]"
  end.

(** Truthiness, as tested by [if], [&&] and [||] *)
Definition js_truthy (v : JSValue) : bool :=
  match v with
  | JUndefined | JNull => false
  | JBool b => b
  | JNumber (Finite q) => negb (Qeq_bool q 0)
  | JNumber (Infinity _) => true
  | JNumber NaN => false
  | JStr s => negb (s =? "")%string
  | JObj _ => true
  end.

(** [a || b] *)
Definition js_or (a b : JSValue) : JSValue := if js_truthy a then a else b.

(** [a + b]: concatenation as soon as one side is a string or an object,
    the sum of the two sides as numbers otherwise ([undefined] counts as
    [NaN], [null] as 0, [true] as 1). *)
Definition js_concatenates (v : JSValue) : bool :=
  match v with JStr _ | JObj _ => true | _ => false end.

Definition js_to_number (v : JSValue) : Number :=
  match v with
  | JNumber x => x
  | JNull => num 0
  | JBool b => num (if b then 1 else 0)
  | _ => NaN
  end.

Definition js_add (a b : JSValue) : JSValue :=
  if js_concatenates a || js_concatenates b
  then JStr (js_to_string a ++ js_to_string b)
  else JNumber (Number_add (js_to_number a) (js_to_number b)).

Fixpoint lookup (k : string) (fields : list (string * JSValue)) : JSValue :=
  match fields with
  | [] => JUndefined
  | (k', v) :: rest => if (k' =? k)%string then v else lookup k rest
  end.

(** [o.k]: a [TypeError] on [undefined] and [null], [undefined] on a
    primitive, the field (or [undefined]) on an object. *)
Definition js_get (o : JSValue) (k : string) : string + JSValue :=
  match o with
  | JUndefined | JNull =>
      inl ("Cannot read properties of " ++ js_to_string o
           ++ " (reading '" ++ k ++ "')")
  | JObj fields => inr (lookup k fields)
  | _ => inr JUndefined
  end.

(** [v === 'text'] *)
Definition js_is_string (v : JSValue) (text : string) : bool :=
  match v with
  | JStr s => (s =? text)%string
  | _ => false
  end.

(** [o?.k] *)
Definition js_get_opt (o : JSValue) (k : string) : JSValue :=
  match o with
  | JObj fields => lookup k fields
  | _ => JUndefined
  end.

(* ================================================================== *)
(** ** The environment, the script's state and its effects *)

Inductive Endpoint := GetPuzzle | GetPuzzleImage | Login | GetPoint.

(** What [fetch] resolves to: [response.ok], [response.status] and the result
    of [response.json()] ([None] when the body is not JSON). *)
Record Response := { ok : bool; status : nat; json : option JSValue }.

Inductive FetchResult :=
| NetError (message : string)
| Reply (r : Response).

(** The external calls whose answers the environment supplies. *)
Inductive Port :=
| PNet (ep : Endpoint)      (* fetch *)
| PRandom                   (* Math.random *)
| PImageCaptcha             (* 2captcha solver.imageCaptcha *)
| PSolveImage               (* Anti-Captcha solver.solveImage *)
| PGemini                   (* geminiModel.generateContent *)
| PQuestion                 (* readline question *)
| PSaveImage                (* sharp(...).toFile / fs.writeFile *)
| PSendMessage              (* telegramBot.sendMessage *)
| PSendPhoto                (* telegramBot.sendPhoto *)
| PReply.                   (* telegramBot.once('message') vs. the timeout *)

Definition Port_eqb (p q : Port) : bool :=
  match p, q with
  | PNet GetPuzzle, PNet GetPuzzle
  | PNet GetPuzzleImage, PNet GetPuzzleImage
  | PNet Login, PNet Login
  | PNet GetPoint, PNet GetPoint
  | PRandom, PRandom
  | PImageCaptcha, PImageCaptcha
  | PSolveImage, PSolveImage
  | PGemini, PGemini
  | PQuestion, PQuestion
  | PSaveImage, PSaveImage
  | PSendMessage, PSendMessage
  | PSendPhoto, PSendPhoto
  | PReply, PReply => true
  | _, _ => false
  end.

(** The n-th call on a port gets the n-th answer. A rejected promise is the
    rejection's message ([inl], or [Some] where nothing is returned). *)
Record Env := {
  net : Endpoint -> nat -> FetchResult;
  random : nat -> Q;
  imageCaptcha : nat -> string + JSValue;
  solveImage : nat -> string + JSValue;
  generateContent : nat -> string + string;
  answers : nat -> string;
  saveImage : nat -> option string;
  sendMessage : nat -> option string;
  sendPhoto : nat -> option string;
  reply : nat -> option string;   (* None: no message within CAPTCHA_TIMEOUT *)
  readFile : string -> string + string;
  (* [new SocksProxyAgent(proxy)], [new HttpsProxyAgent(proxy)]: the error
     thrown when the constructor does not accept the proxy URI *)
  newAgent : string -> option string
}.

(** A proxy agent, built from the proxy's URI. *)
Inductive Agent :=
| SocksProxyAgent (proxy : string)
| HttpsProxyAgent (proxy : string).

(** The script's module-level variables, and the calls made so far. *)
Record State := {
  calls : Port -> nat;
  model : string;
  useProxies : bool;
  proxyList : list string;
  currentProxyIndex : nat;
  telegramBot : bool;            (* is [telegramBot] set? *)
  telegramChatId : JSValue
}.

Definition tick (p : Port) (st : State) : State :=
  {| calls := fun q => if Port_eqb q p then S (calls st q) else calls st q;
     model := model st;
     useProxies := useProxies st;
     proxyList := proxyList st;
     currentProxyIndex := currentProxyIndex st;
     telegramBot := telegramBot st;
     telegramChatId := telegramChatId st |}.

Definition set_currentProxyIndex (i : nat) (st : State) : State :=
  {| calls := calls st;
     model := model st;
     useProxies := useProxies st;
     proxyList := proxyList st;
     currentProxyIndex := i;
     telegramBot := telegramBot st;
     telegramChatId := telegramChatId st |}.

(** Where a [setTimeout] pause is made. *)
Inductive Site :=
| AtPuzzleId | AtPuzzleImage | AtCaptcha | AtPoints   (* sub-request retries *)
| AtLogin                                             (* between login attempts *)
| AtBatch.                                            (* between accounts *)

Inductive SpinnerCall := SpinStart | SpinSucceed | SpinFail | SpinText | SpinStop.

Inductive Event :=
| Console (text : string)                                 (* console.log *)
| Spinner (call : SpinnerCall) (text : string)            (* ora *)
| Fetch (ep : Endpoint) (url : string) (agent : option Agent)
| Sleep (site : Site) (ms : Q)                            (* a timer of ms milliseconds *)
| AppendFile (path line : string)                         (* fs.appendFile *)
| SaveImage (path : string)
| Ask (query : string)                                    (* readline *)
| Solve (p : Port)                                        (* a solver call *)
| TelegramMessage (chat : JSValue) (text : string)        (* sendMessage *)
| TelegramPhoto (chat : JSValue) (path caption : string). (* sendPhoto *)

(* ================================================================== *)
(** ** The monad of the script *)

Inductive Outcome (A : Type) : Type :=
| Return (a : A)
| Throw (message : string)
| Diverge.

Arguments Throw {A} message.
Arguments Diverge {A}.

Definition M (A : Type) : Type := Env -> State -> Outcome A * State * list Event.

Definition ret {A} (a : A) : M A := fun _ st => (Return a, st, []).

Definition throw {A} (message : string) : M A :=
  fun _ st => (Throw message, st, []).

Definition diverge {A} : M A := fun _ st => (Diverge, st, []).

Definition bind {A B} (m : M A) (f : A -> M B) : M B :=
  fun env st =>
    match m env st with
    | (Return a, st1, ev1) =>
        let '(o, st2, ev2) := f a env st1 in (o, st2, (ev1 ++ ev2)%list)
    | (Throw e, st1, ev1) => (Throw e, st1, ev1)
    | (Diverge, st1, ev1) => (Diverge, st1, ev1)
    end.

(** [try { m } catch (error) { handler error.message }] *)
Definition try_catch {A} (m : M A) (handler : string -> M A) : M A :=
  fun env st =>
    match m env st with
    | (Throw e, st1, ev1) =>
        let '(o, st2, ev2) := handler e env st1 in (o, st2, (ev1 ++ ev2)%list)
    | r => r
    end.

Declare Scope js_scope.
Delimit Scope js_scope with js.
Notation "x <- m ;; k" := (bind m (fun x => k))
  (at level 61, m at next level, right associativity) : js_scope.
Notation "m ;; k" := (bind m (fun _ => k))
  (at level 61, right associativity) : js_scope.
Open Scope js_scope.

Definition outcome {A} (r : Outcome A * State * list Event) : Outcome A :=
  fst (fst r).
Definition final {A} (r : Outcome A * State * list Event) : State :=
  snd (fst r).
Definition events {A} (r : Outcome A * State * list Event) : list Event :=
  snd r.

Definition emit (e : Event) : M unit := fun _ st => (Return tt, st, [e]).

Definition get_state : M State := fun _ st => (Return st, st, []).

Definition lift {A} (r : string + A) : M A :=
  match r with inl e => throw e | inr a => ret a end.

(** The answer of the environment to the next call on port [p]. *)
Definition ask {A} (p : Port) (oracle : Env -> nat -> A) : M A :=
  fun env st => (Return (oracle env (calls st p)), tick p st, []).

Definition console_log (text : string) : M unit := emit (Console text).
Definition spinner (call : SpinnerCall) (text : string) : M unit :=
  emit (Spinner call text).

(** The milliseconds a timer is set to by [setTimeout(callback, delay)]
    (Node's timers: "When delay is larger than 2147483647 or less than 1,
    the delay will be set to 1. Non-integer delays are truncated to an
    integer."). *)
Definition TIMEOUT_MAX : Q := inject_Z 2147483647.

Definition setTimeout_ms (delay : Number) : Q :=
  match delay with
  | Finite q =>
      if Qle_bool 1 q && Qle_bool q TIMEOUT_MAX then inject_Z (Qfloor q) else 1%Q
  | _ => 1%Q
  end.

(** [await new Promise(resolve => setTimeout(resolve, delay))] *)
Definition sleep (site : Site) (delay : Number) : M unit :=
  emit (Sleep site (setTimeout_ms delay)).

(** [fs.appendFile(path, line)] *)
Definition appendFile (path line : string) : M unit := emit (AppendFile path line).

(** [await fetch(url, { ..., agent })] *)
Definition fetch (ep : Endpoint) (url : string) (agent : option Agent) : M Response :=
  emit (Fetch ep url agent) ;;
  r <- ask (PNet ep) (fun env => net env ep) ;;
  match r with
  | NetError e => throw e
  | Reply resp => ret resp
  end.

(** [await response.json()] *)
Definition response_json (r : Response) : M JSValue :=
  match json r with
  | Some v => ret v
  | None => throw "invalid json response body"
  end.

(** [await fs.readFile(path, 'utf8')] *)
Definition fs_readFile (path : string) : M string :=
  fun env st =>
    match readFile env path with
    | inl e => (Throw e, st, [])
    | inr content => (Return content, st, [])
    end.

(** [question(query)] *)
Definition question (query : string) : M string :=
  emit (Ask query) ;; ask PQuestion answers.

(** [Math.random()] *)
Definition Math_random : M Q := ask PRandom random.

(** [Math.floor] *)
Definition Math_floor (x : Q) : Z := Qfloor x.

(** A bounded [for (let i = lo; i <= hi; i++) { body }] whose body may
    [return v] from the enclosing function ([Some v]) or fall through to the
    next iteration ([None]). *)
Fixpoint for_upto {A} (n i : nat) (body : nat -> M (option A)) : M (option A) :=
  match n with
  | 0 => ret None
  | S n' =>
      r <- body i ;;
      match r with
      | Some v => ret (Some v)
      | None => for_upto n' (S i) body
      end
  end.

Definition for_range {A} (lo hi : nat) (body : nat -> M (option A)) : M (option A) :=
  for_upto (S hi - lo) lo body.

(** The value of a function whose loop ended without [return]. *)
Definition or_undefined (r : option JSValue) : JSValue :=
  match r with Some v => v | None => JUndefined end.

(** Projections of a trace. *)
Fixpoint records (evs : list Event) : list (string * string) :=
  match evs with
  | [] => []
  | AppendFile path line :: r => (path, line) :: records r
  | _ :: r => records r
  end.

Definition Site_eqb (a b : Site) : bool :=
  match a, b with
  | AtPuzzleId, AtPuzzleId | AtPuzzleImage, AtPuzzleImage
  | AtCaptcha, AtCaptcha | AtPoints, AtPoints
  | AtLogin, AtLogin | AtBatch, AtBatch => true
  | _, _ => false
  end.

Fixpoint pauses (site : Site) (evs : list Event) : list Q :=
  match evs with
  | [] => []
  | Sleep s ms :: r => if Site_eqb s site then ms :: pauses site r else pauses site r
  | _ :: r => pauses site r
  end.

Fixpoint notices (evs : list Event) : list string :=
  match evs with
  | [] => []
  | TelegramMessage _ text :: r => text :: notices r
  | _ :: r => notices r
  end.

Fixpoint console (evs : list Event) : list string :=
  match evs with
  | [] => []
  | Console text :: r => text :: console r
  | _ :: r => console r
  end.

Definition Endpoint_eqb (a b : Endpoint) : bool :=
  match a, b with
  | GetPuzzle, GetPuzzle | GetPuzzleImage, GetPuzzleImage
  | Login, Login | GetPoint, GetPoint => true
  | _, _ => false
  end.

Fixpoint fetches (ep : Endpoint) (evs : list Event) : nat :=
  match evs with
  | [] => 0
  | Fetch e _ _ :: r => (if Endpoint_eqb e ep then 1 else 0) + fetches ep r
  | _ :: r => fetches ep r
  end.

(* ================================================================== *)
(** ** Code shared by the variants *)

Definition MAX_RETRIES : nat := 3.

Definition hexDigits : string := "0123456789abcdef".

(** [s[i]] appended to a string: the character, or the text of [undefined]
    when the index is out of range. *)
Definition char_at (s : string) (i : Z) : string :=
  match (if (0 <=? i)%Z then String.get (Z.to_nat i) s else None) with
  | Some c => String c ""
  | None => "undefined"
  end.

(** Lines 41-48 (and 368-375, 653-660, 1010-1017):
    [for (let i = 0; i < 22; i++) appId += hexDigits[Math.floor(Math.random() * 16)]] *)
Fixpoint generateAppId_loop (n : nat) (appId : string) : M string :=
  match n with
  | 0 => ret appId
  | S n' =>
      r <- Math_random ;;
      generateAppId_loop n' (appId ++ char_at hexDigits (Math_floor (r * 16)%Q))
  end.

Definition generateAppId : M string := generateAppId_loop 22 "67".

(** [if (!response.ok) throw new Error(`HTTP error! status: ${response.status}`)] *)
Definition check_ok (response : Response) : M unit :=
  if ok response then ret tt
  else throw ("HTTP error! status: " ++ nat_to_string (status response)).

(** [const { k, ... } = o] *)
Definition js_destructure (o : JSValue) (k : string) : M JSValue :=
  match o with
  | JUndefined | JNull =>
      throw ("Cannot destructure property '" ++ k ++ "' of 'data.data' as it is "
             ++ js_to_string o ++ ".")
  | _ => ret (js_get_opt o k)
  end.

(** Lines 203-210 (and 495-502, 831-838, 1206-1213): the sum of the six
    optional point fields. *)
Definition totalPoints (referralPoint rewardPoint : JSValue) : JSValue :=
  js_add (js_add (js_add (js_add (js_add
    (js_or (js_get_opt referralPoint "commission") (JNum 0))
    (js_or (js_get_opt rewardPoint "points") (JNum 0)))
    (js_or (js_get_opt rewardPoint "registerpoints") (JNum 0)))
    (js_or (js_get_opt rewardPoint "twitter_x_id_points") (JNum 0)))
    (js_or (js_get_opt rewardPoint "discordid_points") (JNum 0)))
    (js_or (js_get_opt rewardPoint "telegramid_points") (JNum 0)).

Definition puzzle_url (appId : string) : string :=
  "https://www.aeropres.in/chromeapi/dawn/v1/puzzle/get-puzzle?appid=" ++ appId.

Definition image_url (puzzleId : JSValue) (appId : string) : string :=
  "https://www.aeropres.in/chromeapi/dawn/v1/puzzle/get-puzzle-image?puzzle_id="
  ++ js_to_string puzzleId ++ "&appid=" ++ appId.

Definition login_url (appId : string) : string :=
  "https://www.aeropres.in/chromeapi/dawn/v1/user/login/v2?appid=" ++ appId.

Definition points_url (appId : string) : string :=
  "https://www.aeropres.in/api/atom/v1/userreferral/getpoint?appid=" ++ appId.

Record Credential := { email : string; password : string }.

(** The callback of the last [map] of [readCredentials]:
    [const [email, password] = line.split(':');
     return { email: email.trim(), password: password.trim() }] *)
Definition parse_line (line : string) : string + Credential :=
  let parts := split ":" line in
  match nth_error parts 0, nth_error parts 1 with
  | Some email, Some password =>
      inr {| email := trim email; password := trim password |}
  | _, _ => inl "Cannot read properties of undefined (reading 'trim')"
  end.

Fixpoint map_throwing {A B} (f : A -> string + B) (l : list A) : string + list B :=
  match l with
  | [] => inr []
  | a :: r =>
      match f a with
      | inl e => inl e
      | inr b => match map_throwing f r with
                 | inl e => inl e
                 | inr bs => inr (b :: bs)
                 end
      end
  end.

(** [content.split('\n').map(line => line.trim())
       .filter(line => line.includes(':')).map(...)] *)
Definition parse_credentials (content : string) : string + list Credential :=
  map_throwing parse_line
    (filter (includes ":") (map trim (split (ascii_of_nat 10) content))).

(* ================================================================== *)
(** ** Variant 1 (lines 1-348) *)

Module V1.

(** Lines 75-101 *)
Definition getPuzzleId (appId : string) : M JSValue :=
  spinner SpinStart "Getting puzzle ID..." ;;
  r <- for_range 1 MAX_RETRIES (fun attempt =>
    try_catch
      (response <- fetch GetPuzzle (puzzle_url appId) None ;;
       check_ok response ;;
       data <- response_json response ;;
       puzzle_id <- lift (js_get data "puzzle_id") ;;
       spinner SpinSucceed ("Got puzzle ID: " ++ js_to_string puzzle_id) ;;
       ret (Some puzzle_id))
      (fun error =>
         if attempt =? MAX_RETRIES then
           spinner SpinFail ("Failed to get puzzle ID after "
                             ++ nat_to_string MAX_RETRIES ++ " attempts: " ++ error) ;;
           throw error
         else
           spinner SpinText ("Attempt " ++ nat_to_string attempt ++ "/"
                             ++ nat_to_string MAX_RETRIES ++ " failed, retrying...") ;;
           sleep AtPuzzleId (num (1000 * Z.of_nat attempt)) ;;
           ret None)) ;;
  ret (or_undefined r).

(** Lines 104-116 *)
Definition saveCaptchaImage (base64Image : JSValue) : M unit :=
  spinner SpinStart "Saving captcha image..." ;;
  try_catch
    (emit (SaveImage "temp_captcha.png") ;;
     r <- ask PSaveImage saveImage ;;
     match r with
     | Some e => throw e
     | None => spinner SpinSucceed "Saved captcha image to temp_captcha.png"
     end)
    (fun error =>
       spinner SpinFail ("Failed to save captcha image: " ++ error) ;;
       throw error).

(** Lines 119-145 *)
Definition getPuzzleImage (puzzleId : JSValue) (appId : string) : M JSValue :=
  spinner SpinStart "Getting puzzle image..." ;;
  r <- for_range 1 MAX_RETRIES (fun attempt =>
    try_catch
      (response <- fetch GetPuzzleImage (image_url puzzleId appId) None ;;
       check_ok response ;;
       data <- response_json response ;;
       spinner SpinSucceed "Got puzzle image" ;;
       imgBase64 <- lift (js_get data "imgBase64") ;;
       ret (Some imgBase64))
      (fun error =>
         if attempt =? MAX_RETRIES then
           spinner SpinFail ("Failed to get puzzle image after "
                             ++ nat_to_string MAX_RETRIES ++ " attempts: " ++ error) ;;
           throw error
         else
           spinner SpinText ("Attempt " ++ nat_to_string attempt ++ "/"
                             ++ nat_to_string MAX_RETRIES ++ " failed, retrying...") ;;
           sleep AtPuzzleImage (num (1000 * Z.of_nat attempt)) ;;
           ret None)) ;;
  ret (or_undefined r).

(** Lines 148-179 *)
Definition processCaptcha (base64Image : JSValue) : M JSValue :=
  spinner SpinStart "Processing captcha..." ;;
  try_catch
    (st <- get_state ;;
     if (model st =? "manual")%string then
       saveCaptchaImage base64Image ;;
       spinner SpinStop "" ;;
       captchaText <- question
         (nl ++ "Please check temp_captcha.png and enter the captcha code: ") ;;
       ret (JStr captchaText)
     else
       captchaText <-
         (if (model st =? "2captcha")%string then
            emit (Solve PImageCaptcha) ;;
            r <- ask PImageCaptcha imageCaptcha ;;
            result <- lift r ;;
            lift (js_get result "data")
          else
            emit (Solve PSolveImage) ;;
            r <- ask PSolveImage solveImage ;;
            lift r) ;;
       spinner SpinSucceed ("Solved captcha: " ++ js_to_string captchaText) ;;
       ret captchaText)
    (fun error =>
       spinner SpinFail ("Failed to solve captcha: " ++ error) ;;
       throw error).

(** Lines 182-219 *)
Definition getUserPoints (token : JSValue) (appId : string) : M JSValue :=
  spinner SpinStart "Getting user points..." ;;
  try_catch
    (response <- fetch GetPoint (points_url appId) None ;;
     check_ok response ;;
     data <- response_json response ;;
     success <- lift (js_get data "success") ;;
     if js_truthy success then
       data_data <- lift (js_get data "data") ;;
       referralPoint <- js_destructure data_data "referralPoint" ;;
       rewardPoint <- js_destructure data_data "rewardPoint" ;;
       let total := totalPoints referralPoint rewardPoint in
       spinner SpinSucceed ("Total points: " ++ js_to_string total) ;;
       ret total
     else ret (JNum 0))
    (fun error =>
       spinner SpinFail ("Error getting points: " ++ error) ;;
       ret (JNum 0)).

(** The [try] block of [loginAccount], lines 227-270 *)
Definition login_try (email password appId : string) : M bool :=
  puzzleId <- getPuzzleId appId ;;
  imageBase64 <- getPuzzleImage puzzleId appId ;;
  captchaText <- processCaptcha imageBase64 ;;
  spinner SpinStart "Attempting login..." ;;
  loginResponse <- fetch Login (login_url appId) None ;;
  loginResult <- response_json loginResponse ;;
  if ok loginResponse then
    data <- lift (js_get loginResult "data") ;;
    token <- lift (js_get data "token") ;;
    points <- getUserPoints token appId ;;
    spinner SpinSucceed ("Login successful for " ++ email) ;;
    console_log ("Points: " ++ js_to_string points) ;;
    appendFile "successful_logins.txt" (email ++ ":" ++ js_to_string token ++ nl) ;;
    ret true
  else
    message <- lift (js_get loginResult "message") ;;
    throw (js_to_string (js_or message (JStr "Unknown error"))).

(** Lines 222-276 *)
Definition loginAccount (email password : string) : M bool :=
  appId <- generateAppId ;;
  console_log (nl ++ "Processing login for " ++ email) ;;
  try_catch
    (login_try email password appId)
    (fun error =>
       console_log ("Login failed for " ++ email ++ ": " ++ error) ;;
       appendFile "failed_logins.txt" (email ++ ":" ++ password ++ nl) ;;
       ret false).

(** Lines 279-296 *)
Definition readCredentials (filePath : string) : M (list Credential) :=
  spinner SpinStart "Reading credentials..." ;;
  try_catch
    (content <- fs_readFile filePath ;;
     credentials <- lift (parse_credentials content) ;;
     spinner SpinSucceed ("Found " ++ nat_to_string (List.length credentials) ++ " accounts") ;;
     ret credentials)
    (fun error =>
       spinner SpinFail ("Error reading credentials: " ++ error) ;;
       ret []).

(** Lines 328-336: the account loop of [main],
    [for (const [index, cred] of credentials.entries()) { ... }],
    carrying the counters [successful] and [failed]. *)
Fixpoint main_loop (total index : nat) (credentials : list Credential)
    (successful failed : nat) : M (nat * nat) :=
  match credentials with
  | [] => ret (successful, failed)
  | cred :: rest =>
      console_log (nl ++ "Processing account " ++ nat_to_string (index + 1)
                   ++ "/" ++ nat_to_string total) ;;
      result <- loginAccount (email cred) (password cred) ;;
      let successful' := if (result : bool) then S successful else successful in
      let failed' := if result then failed else S failed in
      sleep AtBatch (num 2000) ;;
      main_loop total (S index) rest successful' failed'
  end.

(** Lines 328-343 *)
Definition main_accounts (credentials : list Credential) : M unit :=
  counts <- main_loop (List.length credentials) 0 credentials 0 0 ;;
  console_log (nl ++ "Processing completed") ;;
  console_log ("Successful logins: " ++ nat_to_string (fst counts)) ;;
  console_log ("Failed logins: " ++ nat_to_string (snd counts)).

End V1.

(* ================================================================== *)
(** ** Variant 3 (lines 628-983) *)

Module V3.

Definition LOGIN_RETRIES : nat := 3.

(** Lines 676-686 *)
Definition getProxyAgent : M (option Agent) :=
  fun env st =>
    if negb (useProxies st) || (List.length (proxyList st) =? 0) then
      (Return None, st, [])
    else
      let proxy := nth_error (proxyList st) (currentProxyIndex st) in
      let st' :=
        set_currentProxyIndex
          ((currentProxyIndex st + 1) mod List.length (proxyList st)) st in
      match proxy with
      | None =>
          (Throw "Cannot read properties of undefined (reading 'startsWith')",
           st', [])
      | Some proxy =>
          match newAgent env proxy with
          | Some e => (Throw e, st', [])
          | None =>
              (Return (Some (if startsWith "socks" proxy
                             then SocksProxyAgent proxy
                             else HttpsProxyAgent proxy)), st', [])
          end
      end.

(** The [try] block of [getPuzzleId], lines 714-731 *)
Definition getPuzzleId_try (appId : string) : M (option JSValue) :=
  agent <- getProxyAgent ;;
  response <- fetch GetPuzzle (puzzle_url appId) agent ;;
  check_ok response ;;
  data <- response_json response ;;
  puzzle_id <- lift (js_get data "puzzle_id") ;;
  console_log ("Got puzzle ID: " ++ js_to_string puzzle_id) ;;
  ret (Some puzzle_id).

(** Lines 711-740 *)
Definition getPuzzleId (appId : string) : M JSValue :=
  r <- for_range 1 MAX_RETRIES (fun attempt =>
    try_catch
      (getPuzzleId_try appId)
      (fun error =>
         if attempt =? MAX_RETRIES then
           throw ("Failed to get puzzle ID after " ++ nat_to_string MAX_RETRIES
                  ++ " attempts: " ++ error)
         else
           console_log ("Attempt " ++ nat_to_string attempt ++ "/"
                        ++ nat_to_string MAX_RETRIES ++ " failed, retrying...") ;;
           sleep AtPuzzleId (num (1000 * Z.of_nat attempt)) ;;
           ret None)) ;;
  ret (or_undefined r).

(** The [try] block of [getPuzzleImage], lines 746-763 *)
Definition getPuzzleImage_try (puzzleId : JSValue) (appId : string)
    : M (option JSValue) :=
  agent <- getProxyAgent ;;
  response <- fetch GetPuzzleImage (image_url puzzleId appId) agent ;;
  check_ok response ;;
  data <- response_json response ;;
  console_log "Got puzzle image" ;;
  imgBase64 <- lift (js_get data "imgBase64") ;;
  ret (Some imgBase64).

(** Lines 743-772 *)
Definition getPuzzleImage (puzzleId : JSValue) (appId : string) : M JSValue :=
  r <- for_range 1 MAX_RETRIES (fun attempt =>
    try_catch
      (getPuzzleImage_try puzzleId appId)
      (fun error =>
         if attempt =? MAX_RETRIES then
           throw ("Failed to get puzzle image after " ++ nat_to_string MAX_RETRIES
                  ++ " attempts: " ++ error)
         else
           console_log ("Attempt " ++ nat_to_string attempt ++ "/"
                        ++ nat_to_string MAX_RETRIES ++ " failed, retrying...") ;;
           sleep AtPuzzleImage (num (1000 * Z.of_nat attempt)) ;;
           ret None)) ;;
  ret (or_undefined r).

(** The [try] block of [processCaptcha], lines 778-793 *)
Definition processCaptcha_try (base64Image : JSValue) : M (option JSValue) :=
  st <- get_state ;;
  captchaText <-
    (if (model st =? "2captcha")%string then
       emit (Solve PImageCaptcha) ;;
       r <- ask PImageCaptcha imageCaptcha ;;
       result <- lift r ;;
       lift (js_get result "data")
     else
       emit (Solve PSolveImage) ;;
       r <- ask PSolveImage solveImage ;;
       lift r) ;;
  console_log ("Solved captcha: " ++ js_to_string captchaText) ;;
  ret (Some captchaText).

(** Lines 775-802 *)
Definition processCaptcha (base64Image : JSValue) : M JSValue :=
  r <- for_range 1 MAX_RETRIES (fun attempt =>
    try_catch
      (processCaptcha_try base64Image)
      (fun error =>
         if attempt =? MAX_RETRIES then
           throw ("Failed to solve captcha after " ++ nat_to_string MAX_RETRIES
                  ++ " attempts: " ++ error)
         else
           console_log ("Attempt " ++ nat_to_string attempt ++ "/"
                        ++ nat_to_string MAX_RETRIES
                        ++ " to solve captcha failed, retrying...") ;;
           sleep AtCaptcha (num (2000 * Z.of_nat attempt)) ;;
           ret None)) ;;
  ret (or_undefined r).

(** The [try] block of [getUserPoints], lines 808-841 *)
Definition getUserPoints_try (token : JSValue) (appId : string)
    : M (option JSValue) :=
  agent <- getProxyAgent ;;
  response <- fetch GetPoint (points_url appId) agent ;;
  check_ok response ;;
  data <- response_json response ;;
  success <- lift (js_get data "success") ;;
  if js_truthy success then
    data_data <- lift (js_get data "data") ;;
    referralPoint <- js_destructure data_data "referralPoint" ;;
    rewardPoint <- js_destructure data_data "rewardPoint" ;;
    ret (Some (totalPoints referralPoint rewardPoint))
  else ret (Some (JNum 0)).

(** Lines 805-851 *)
Definition getUserPoints (token : JSValue) (appId : string) : M JSValue :=
  r <- for_range 1 MAX_RETRIES (fun attempt =>
    try_catch
      (getUserPoints_try token appId)
      (fun error =>
         if attempt =? MAX_RETRIES then
           console_log ("Error getting points after " ++ nat_to_string MAX_RETRIES
                        ++ " attempts: " ++ error) ;;
           ret (Some (JNum 0))
         else
           console_log ("Attempt " ++ nat_to_string attempt ++ "/"
                        ++ nat_to_string MAX_RETRIES
                        ++ " to get points failed, retrying...") ;;
           sleep AtPoints (num (1000 * Z.of_nat attempt)) ;;
           ret None)) ;;
  ret (or_undefined r).

(** The [try] block of [loginAccount], lines 860-905 *)
Definition login_try (email password appId : string) : M bool :=
  puzzleId <- getPuzzleId appId ;;
  imageBase64 <- getPuzzleImage puzzleId appId ;;
  captchaText <- processCaptcha imageBase64 ;;
  agent <- getProxyAgent ;;
  loginResponse <- fetch Login (login_url appId) agent ;;
  loginResult <- response_json loginResponse ;;
  if ok loginResponse then
    data <- lift (js_get loginResult "data") ;;
    token <- lift (js_get data "token") ;;
    points <- getUserPoints token appId ;;
    console_log ("Login successful for " ++ email) ;;
    console_log ("Points: " ++ js_to_string points) ;;
    appendFile "successful_logins.txt"
      (email ++ ":" ++ password ++ ":" ++ js_to_string token ++ ":"
       ++ js_to_string points ++ nl) ;;
    ret true
  else
    message <- lift (js_get loginResult "message") ;;
    throw (js_to_string (js_or message (JStr "Unknown error"))).

(** The body of the loop of [loginAccount], lines 856-915 *)
Definition loginAccount_round (email password : string) (loginAttempt : nat)
    : M (option bool) :=
  appId <- generateAppId ;;
  console_log (nl ++ "Processing login for " ++ email ++ " (Attempt "
               ++ nat_to_string loginAttempt ++ "/"
               ++ nat_to_string LOGIN_RETRIES ++ ")") ;;
  try_catch
    (b <- login_try email password appId ;; ret (Some b))
    (fun error =>
       if loginAttempt =? LOGIN_RETRIES then
         console_log ("Login failed for " ++ email ++ " after "
                      ++ nat_to_string LOGIN_RETRIES ++ " attempts: " ++ error) ;;
         appendFile "failed_logins.txt" (email ++ ":" ++ password ++ nl) ;;
         ret (Some false)
       else
         console_log ("Login attempt " ++ nat_to_string loginAttempt ++ "/"
                      ++ nat_to_string LOGIN_RETRIES ++ " failed: " ++ error) ;;
         console_log "Waiting before next attempt..." ;;
         sleep AtLogin (num (5000 * Z.of_nat loginAttempt)) ;;
         ret None).

(** Lines 854-917. A loop that ended without [return] would give
    [undefined], which [main] reads as a failure. *)
Definition loginAccount (email password : string) : M bool :=
  r <- for_range 1 LOGIN_RETRIES (loginAccount_round email password) ;;
  ret (match r with Some b => b | None => false end).

End V3.

(* ================================================================== *)
(** ** Variant 4 (lines 984-1412) *)

Module V4.

Definition INITIAL_RETRY_DELAY : Number := num 5000.
Definition CAPTCHA_TIMEOUT : Q := inject_Z 120000.

(** Lines 1030-1038 *)
Definition sendTelegramStatus (message : string) : M unit :=
  st <- get_state ;;
  if telegramBot st && js_truthy (telegramChatId st) then
    try_catch
      (emit (TelegramMessage (telegramChatId st) message) ;;
       r <- ask PSendMessage sendMessage ;;
       match r with Some e => throw e | None => ret tt end)
      (fun error => console_log ("Error sending Telegram message: " ++ error))
  else ret tt.

(** Lines 1066-1089 *)
Definition getPuzzleId (appId : string) : M JSValue :=
  r <- for_range 1 MAX_RETRIES (fun attempt =>
    try_catch
      (response <- fetch GetPuzzle (puzzle_url appId) None ;;
       check_ok response ;;
       data <- response_json response ;;
       puzzle_id <- lift (js_get data "puzzle_id") ;;
       console_log ("Got puzzle ID: " ++ js_to_string puzzle_id) ;;
       ret (Some puzzle_id))
      (fun error =>
         if attempt =? MAX_RETRIES then
           throw ("Failed to get puzzle ID after " ++ nat_to_string MAX_RETRIES
                  ++ " attempts: " ++ error)
         else
           console_log ("Attempt " ++ nat_to_string attempt ++ "/"
                        ++ nat_to_string MAX_RETRIES ++ " failed, retrying...") ;;
           sleep AtPuzzleId (num (1000 * Z.of_nat attempt)) ;;
           ret None)) ;;
  ret (or_undefined r).

(** Lines 1092-1099 *)
Definition saveCaptchaImage (base64Image : JSValue) : M unit :=
  try_catch
    (emit (SaveImage "temp_captcha.png") ;;
     r <- ask PSaveImage saveImage ;;
     match r with
     | Some e => throw e
     | None => console_log "Saved captcha image to temp_captcha.png"
     end)
    (fun error => throw ("Failed to save captcha image: " ++ error)).

(** Lines 1102-1125 *)
Definition getPuzzleImage (puzzleId : JSValue) (appId : string) : M JSValue :=
  r <- for_range 1 MAX_RETRIES (fun attempt =>
    try_catch
      (response <- fetch GetPuzzleImage (image_url puzzleId appId) None ;;
       check_ok response ;;
       data <- response_json response ;;
       console_log "Got puzzle image" ;;
       imgBase64 <- lift (js_get data "imgBase64") ;;
       ret (Some imgBase64))
      (fun error =>
         if attempt =? MAX_RETRIES then
           throw ("Failed to get puzzle image after " ++ nat_to_string MAX_RETRIES
                  ++ " attempts: " ++ error)
         else
           console_log ("Attempt " ++ nat_to_string attempt ++ "/"
                        ++ nat_to_string MAX_RETRIES ++ " failed, retrying...") ;;
           sleep AtPuzzleImage (num (1000 * Z.of_nat attempt)) ;;
           ret None)) ;;
  ret (or_undefined r).

(** Lines 1128-1184. The Telegram relay resolves with the trimmed text of
    the next message, or rejects when [CAPTCHA_TIMEOUT] elapses first. *)
Definition processCaptcha (base64Image : JSValue) : M JSValue :=
  try_catch
    (st <- get_state ;;
     if (model st =? "manual")%string then
       saveCaptchaImage base64Image ;;
       captchaText <- question
         (nl ++ "Please check temp_captcha.png and enter the captcha code: ") ;;
       ret (JStr captchaText)
     else if (model st =? "telegram")%string then
       saveCaptchaImage base64Image ;;
       emit (TelegramPhoto (telegramChatId st) "temp_captcha.png"
               "Please solve this captcha. Send the text/numbers you see in the image.") ;;
       sent <- ask PSendPhoto sendPhoto ;;
       match sent with Some e => throw e | None => ret tt end ;;
       msg <- ask PReply reply ;;
       captchaText <-
         match msg with
         | None => throw "Captcha solving timeout"
         | Some text => ret (trim text)
         end ;;
       console_log ("Received captcha solution from Telegram: " ++ captchaText) ;;
       ret (JStr captchaText)
     else
       captchaText <-
         (if (model st =? "2captcha")%string then
            emit (Solve PImageCaptcha) ;;
            r <- ask PImageCaptcha imageCaptcha ;;
            result <- lift r ;;
            lift (js_get result "data")
          else if (model st =? "gemini")%string then
            saveCaptchaImage base64Image ;;
            emit (Solve PGemini) ;;
            r <- ask PGemini generateContent ;;
            text <- lift r ;;
            ret (JStr (trim text))
          else ret JUndefined) ;;
       console_log ("Solved captcha: " ++ js_to_string captchaText) ;;
       ret captchaText)
    (fun error => throw ("Failed to solve captcha: " ++ error)).

(** Lines 1187-1221 *)
Definition getUserPoints (token : JSValue) (appId : string) : M JSValue :=
  try_catch
    (response <- fetch GetPoint (points_url appId) None ;;
     check_ok response ;;
     data <- response_json response ;;
     success <- lift (js_get data "success") ;;
     if js_truthy success then
       data_data <- lift (js_get data "data") ;;
       referralPoint <- js_destructure data_data "referralPoint" ;;
       rewardPoint <- js_destructure data_data "rewardPoint" ;;
       ret (totalPoints referralPoint rewardPoint)
     else ret (JNum 0))
    (fun error =>
       console_log ("Error getting points: " ++ error) ;;
       ret (JNum 0)).

(** Lines 1224-1226: [INITIAL_RETRY_DELAY * Math.pow(1.5, attempt - 1)] *)
Definition calculateRetryDelay (attempt : nat) : Number :=
  Number_mul INITIAL_RETRY_DELAY (Math_pow (3 # 2) (Z.of_nat attempt - 1)).

Definition success_notice (email : string) (points : JSValue) : string :=
  "<b>Login Successful!</b>" ++ nl ++ nl ++ "Account: " ++ email ++ nl
  ++ "Points: " ++ js_to_string points.

(** The [try] block of [loginAccountWithRetry], lines 1238-1284 *)
Definition login_try (email password : string) : M bool :=
  appId <- generateAppId ;;
  puzzleId <- getPuzzleId appId ;;
  imageBase64 <- getPuzzleImage puzzleId appId ;;
  captchaText <- processCaptcha imageBase64 ;;
  loginResponse <- fetch Login (login_url appId) None ;;
  loginResult <- response_json loginResponse ;;
  message <- lift (js_get loginResult "message") ;;
  if js_is_string message "Successfully logged in!" then
    data <- lift (js_get loginResult "data") ;;
    token <- lift (js_get data "token") ;;
    points <- getUserPoints token appId ;;
    console_log ("Login successful for " ++ email) ;;
    console_log ("Points: " ++ js_to_string points) ;;
    sendTelegramStatus (success_notice email points) ;;
    appendFile "successful_logins.txt" (email ++ ":" ++ js_to_string token ++ nl) ;;
    ret true
  else throw (js_to_string (js_or message (JStr "Unknown error"))).

Definition attempt_notice (loginAttempt : nat) (email : string) : string :=
  "<b>Login Attempt " ++ nat_to_string loginAttempt ++ "</b>" ++ nl ++ nl
  ++ "Account: " ++ email.

Definition failure_notice (loginAttempt : nat) (email error : string) : string :=
  "<b>Login Failed</b>" ++ nl ++ nl ++ "Account: " ++ email ++ nl
  ++ "Attempt: " ++ nat_to_string loginAttempt ++ nl ++ "Error: " ++ error.

Definition wait_notice (delaySeconds : Number) : string :=
  "Waiting " ++ Number_to_string delaySeconds ++ " seconds before next attempt...".

(** The body of the loop of [loginAccountWithRetry], lines 1234-1300:
    [Some b] when it returns [b], [None] when it goes round again. *)
Definition loginAccountWithRetry_round (email password : string)
    (loginAttempt : nat) : M (option bool) :=
  console_log (nl ++ "Attempt " ++ nat_to_string loginAttempt ++ " for " ++ email) ;;
  sendTelegramStatus (attempt_notice loginAttempt email) ;;
  try_catch
    (b <- login_try email password ;; ret (Some b))
    (fun error =>
       console_log ("Login attempt " ++ nat_to_string loginAttempt
                    ++ " failed for " ++ email ++ ": " ++ error) ;;
       sendTelegramStatus (failure_notice loginAttempt email error) ;;
       let delay := calculateRetryDelay loginAttempt in
       let delaySeconds := Math_round (Number_div delay (num 1000)) in
       sendTelegramStatus (wait_notice delaySeconds) ;;
       console_log (wait_notice delaySeconds) ;;
       sleep AtLogin delay ;;
       ret None).

(** Lines 1229-1302: [while (true) { ... }], one iteration per unit of fuel;
    [loginAttempt] starts at 1 and grows by one each time round. *)
Fixpoint loginAccountWithRetry_from (fuel : nat) (email password : string)
    (loginAttempt : nat) : M bool :=
  match fuel with
  | 0 => diverge
  | S fuel' =>
      r <- loginAccountWithRetry_round email password loginAttempt ;;
      match r with
      | Some b => ret b
      | None => loginAccountWithRetry_from fuel' email password (S loginAttempt)
      end
  end.

Definition loginAccountWithRetry (fuel : nat) (email password : string) : M bool :=
  loginAccountWithRetry_from fuel email password 1.

(** Lines 1382-1393: the account loop of [main]. *)
Fixpoint main_loop (fuel total index : nat) (credentials : list Credential)
    (successful failed : nat) : M (nat * nat) :=
  match credentials with
  | [] => ret (successful, failed)
  | cred :: rest =>
      console_log (nl ++ "Processing account " ++ nat_to_string (index + 1)
                   ++ "/" ++ nat_to_string total) ;;
      sendTelegramStatus ("<b>Processing Account " ++ nat_to_string (index + 1)
                          ++ "/" ++ nat_to_string total ++ "</b>") ;;
      result <- loginAccountWithRetry fuel (email cred) (password cred) ;;
      let successful' := if (result : bool) then S successful else successful in
      let failed' := if result then failed else S failed in
      (if index <? total - 1 then sleep AtBatch (num 2000) else ret tt) ;;
      main_loop fuel total (S index) rest successful' failed'
  end.

End V4.

(* ================================================================== *)
(** ** Variant 2 (lines 349-627) *)

Module V2.

(** Lines 400-423 *)
Definition getPuzzleId (appId : string) : M JSValue :=
  r <- for_range 1 MAX_RETRIES (fun attempt =>
    try_catch
      (response <- fetch GetPuzzle (puzzle_url appId) None ;;
       check_ok response ;;
       data <- response_json response ;;
       puzzle_id <- lift (js_get data "puzzle_id") ;;
       console_log ("Got puzzle ID: " ++ js_to_string puzzle_id) ;;
       ret (Some puzzle_id))
      (fun error =>
         if attempt =? MAX_RETRIES then
           throw ("Failed to get puzzle ID after " ++ nat_to_string MAX_RETRIES
                  ++ " attempts: " ++ error)
         else
           console_log ("Attempt " ++ nat_to_string attempt ++ "/"
                        ++ nat_to_string MAX_RETRIES ++ " failed, retrying...") ;;
           sleep AtPuzzleId (num (1000 * Z.of_nat attempt)) ;;
           ret None)) ;;
  ret (or_undefined r).

(** Lines 426-449 *)
Definition getPuzzleImage (puzzleId : JSValue) (appId : string) : M JSValue :=
  r <- for_range 1 MAX_RETRIES (fun attempt =>
    try_catch
      (response <- fetch GetPuzzleImage (image_url puzzleId appId) None ;;
       check_ok response ;;
       data <- response_json response ;;
       console_log "Got puzzle image" ;;
       imgBase64 <- lift (js_get data "imgBase64") ;;
       ret (Some imgBase64))
      (fun error =>
         if attempt =? MAX_RETRIES then
           throw ("Failed to get puzzle image after " ++ nat_to_string MAX_RETRIES
                  ++ " attempts: " ++ error)
         else
           console_log ("Attempt " ++ nat_to_string attempt ++ "/"
                        ++ nat_to_string MAX_RETRIES ++ " failed, retrying...") ;;
           sleep AtPuzzleImage (num (1000 * Z.of_nat attempt)) ;;
           ret None)) ;;
  ret (or_undefined r).

(** Lines 452-473 *)
Definition processCaptcha (base64Image : JSValue) : M JSValue :=
  try_catch
    (st <- get_state ;;
     captchaText <-
       (if (model st =? "2captcha")%string then
          emit (Solve PImageCaptcha) ;;
          r <- ask PImageCaptcha imageCaptcha ;;
          result <- lift r ;;
          lift (js_get result "data")
        else
          emit (Solve PSolveImage) ;;
          r <- ask PSolveImage solveImage ;;
          lift r) ;;
     console_log ("Solved captcha: " ++ js_to_string captchaText) ;;
     ret captchaText)
    (fun error => throw ("Failed to solve captcha: " ++ error)).

(** Lines 476-510 *)
Definition getUserPoints (token : JSValue) (appId : string) : M JSValue :=
  try_catch
    (response <- fetch GetPoint (points_url appId) None ;;
     check_ok response ;;
     data <- response_json response ;;
     success <- lift (js_get data "success") ;;
     if js_truthy success then
       data_data <- lift (js_get data "data") ;;
       referralPoint <- js_destructure data_data "referralPoint" ;;
       rewardPoint <- js_destructure data_data "rewardPoint" ;;
       ret (totalPoints referralPoint rewardPoint)
     else ret (JNum 0))
    (fun error =>
       console_log ("Error getting points: " ++ error) ;;
       ret (JNum 0)).

(** The [try] block of [loginAccount], lines 518-559 *)
Definition login_try (email password appId : string) : M bool :=
  puzzleId <- getPuzzleId appId ;;
  imageBase64 <- getPuzzleImage puzzleId appId ;;
  captchaText <- processCaptcha imageBase64 ;;
  loginResponse <- fetch Login (login_url appId) None ;;
  loginResult <- response_json loginResponse ;;
  if ok loginResponse then
    data <- lift (js_get loginResult "data") ;;
    token <- lift (js_get data "token") ;;
    points <- getUserPoints token appId ;;
    console_log ("Login successful for " ++ email) ;;
    console_log ("Points: " ++ js_to_string points) ;;
    appendFile "successful_logins.txt" (email ++ ":" ++ js_to_string token ++ nl) ;;
    ret true
  else
    message <- lift (js_get loginResult "message") ;;
    throw (js_to_string (js_or message (JStr "Unknown error"))).

(** Lines 513-565 *)
Definition loginAccount (email password : string) : M bool :=
  appId <- generateAppId ;;
  console_log (nl ++ "Processing login for " ++ email) ;;
  try_catch
    (login_try email password appId)
    (fun error =>
       console_log ("Login failed for " ++ email ++ ": " ++ error) ;;
       appendFile "failed_logins.txt" (email ++ ":" ++ password ++ nl) ;;
       ret false).

(** Lines 568-582 (variant 3, lines 920-934, and variant 4, lines 1305-1319,
    have the same text) *)
Definition readCredentials (filePath : string) : M (list Credential) :=
  try_catch
    (content <- fs_readFile filePath ;;
     lift (parse_credentials content))
    (fun error =>
       console_log ("Error reading credentials: " ++ error) ;;
       ret []).

(** Lines 610-615 *)
Fixpoint main_loop (total index : nat) (credentials : list Credential)
    (successful failed : nat) : M (nat * nat) :=
  match credentials with
  | [] => ret (successful, failed)
  | cred :: rest =>
      console_log (nl ++ "Processing account " ++ nat_to_string (index + 1)
                   ++ "/" ++ nat_to_string total) ;;
      result <- loginAccount (email cred) (password cred) ;;
      let successful' := if (result : bool) then S successful else successful in
      let failed' := if result then failed else S failed in
      sleep AtBatch (num 2000) ;;
      main_loop total (S index) rest successful' failed'
  end.

(** Lines 599-619: what [main] does with the credentials it has read. *)
Definition main_accounts (credentials : list Credential) : M unit :=
  if List.length credentials =? 0 then
    console_log "No valid credentials found in file.txt"
  else
    console_log (nl ++ "Found " ++ nat_to_string (List.length credentials)
                 ++ " accounts to process") ;;
    counts <- main_loop (List.length credentials) 0 credentials 0 0 ;;
    console_log (nl ++ "Processing completed") ;;
    console_log ("Successful logins: " ++ nat_to_string (fst counts)) ;;
    console_log ("Failed logins: " ++ nat_to_string (snd counts)).

End V2.

(* ================================================================== *)
(** ** Variant 3: start-up and account loop (lines 663-673, 937-978) *)

Definition set_useProxies (b : bool) (st : State) : State :=
  {| calls := calls st;
     model := model st;
     useProxies := b;
     proxyList := proxyList st;
     currentProxyIndex := currentProxyIndex st;
     telegramBot := telegramBot st;
     telegramChatId := telegramChatId st |}.

Definition set_proxyList (l : list string) (st : State) : State :=
  {| calls := calls st;
     model := model st;
     useProxies := useProxies st;
     proxyList := l;
     currentProxyIndex := currentProxyIndex st;
     telegramBot := telegramBot st;
     telegramChatId := telegramChatId st |}.

(** An assignment to a module-level variable. *)
Definition modify (f : State -> State) : M unit := fun _ st => (Return tt, f st, []).

(** [s.toLowerCase() === 'y'] *)
Definition lower_is_y (s : string) : bool := (s =? "y")%string || (s =? "Y")%string.

Module V3_main.

(** Lines 663-673 *)
Definition loadProxies (filePath : string) : M (list string) :=
  try_catch
    (content <- fs_readFile filePath ;;
     ret (filter (fun line => 0 <? String.length line)
            (map trim (split (ascii_of_nat 10) content))))
    (fun _ =>
       console_log "No proxy file found or proxy usage disabled" ;;
       ret []).

(** Lines 938-948 *)
Definition main_proxies : M unit :=
  console_log (nl ++ "Do you want to use proxies? (y/n)") ;;
  useProxiesChoice <- question "Enter your choice: " ;;
  modify (set_useProxies (lower_is_y useProxiesChoice)) ;;
  st <- get_state ;;
  if useProxies st then
    proxies <- loadProxies "proxies.txt" ;;
    modify (set_proxyList proxies) ;;
    if 0 <? List.length proxies then
      console_log ("Loaded " ++ nat_to_string (List.length proxies) ++ " proxies")
    else ret tt
  else ret tt.

(** Lines 966-971 *)
Fixpoint main_loop (total index : nat) (credentials : list Credential)
    (successful failed : nat) : M (nat * nat) :=
  match credentials with
  | [] => ret (successful, failed)
  | cred :: rest =>
      console_log (nl ++ "Processing account " ++ nat_to_string (index + 1)
                   ++ "/" ++ nat_to_string total) ;;
      result <- V3.loginAccount (email cred) (password cred) ;;
      let successful' := if (result : bool) then S successful else successful in
      let failed' := if result then failed else S failed in
      sleep AtBatch (num 2000) ;;
      main_loop total (S index) rest successful' failed'
  end.

(** Lines 955-975: what [main] does with the credentials it has read. *)
Definition main_accounts (credentials : list Credential) : M unit :=
  if List.length credentials =? 0 then
    console_log "No valid credentials found in file.txt"
  else
    console_log (nl ++ "Found " ++ nat_to_string (List.length credentials)
                 ++ " accounts to process") ;;
    counts <- main_loop (List.length credentials) 0 credentials 0 0 ;;
    console_log (nl ++ "Processing completed") ;;
    console_log ("Successful logins: " ++ nat_to_string (fst counts)) ;;
    console_log ("Failed logins: " ++ nat_to_string (snd counts)).

End V3_main.

(* ================================================================== *)
(** ** Choosing the solver (lines 302-316 and 1331-1350) *)

Definition set_model (m : string) (st : State) : State :=
  {| calls := calls st;
     model := m;
     useProxies := useProxies st;
     proxyList := proxyList st;
     currentProxyIndex := currentProxyIndex st;
     telegramBot := telegramBot st;
     telegramChatId := telegramChatId st |}.

Definition set_telegramBot (b : bool) (st : State) : State :=
  {| calls := calls st;
     model := model st;
     useProxies := useProxies st;
     proxyList := proxyList st;
     currentProxyIndex := currentProxyIndex st;
     telegramBot := b;
     telegramChatId := telegramChatId st |}.

Definition set_telegramChatId (c : JSValue) (st : State) : State :=
  {| calls := calls st;
     model := model st;
     useProxies := useProxies st;
     proxyList := proxyList st;
     currentProxyIndex := currentProxyIndex st;
     telegramBot := telegramBot st;
     telegramChatId := c |}.

Module V1_main.

(** Lines 61-72: the solver object itself is the environment's; the script
    keeps the chosen type in [model]. *)
Definition setupCaptchaSolver (apiKey solverType : string) : M unit :=
  modify (set_model solverType).

(** Lines 302-316 *)
Definition main_solver : M unit :=
  console_log "Choose your captcha solver:" ;;
  console_log "1. 2captcha" ;;
  console_log "2. Anti-Captcha" ;;
  console_log "3. Manual Input" ;;
  solverChoice <- question (nl ++ "Enter your choice (1, 2, or 3): ") ;;
  let solverType :=
    if (solverChoice =? "1")%string then "2captcha"
    else if (solverChoice =? "2")%string then "anticaptcha"
    else "manual" in
  apiKey <-
    (if negb (solverType =? "manual")%string then
       question (nl ++ "Enter your " ++ solverType ++ " API key: ")
     else ret "") ;;
  setupCaptchaSolver apiKey solverType.

End V1_main.

Module V4_main.

(** Lines 1041-1063 *)
Definition setupCaptchaSolver (apiKey solverType : string) : M unit :=
  modify (set_model solverType) ;;
  if (solverType =? "telegram")%string then modify (set_telegramBot true)
  else ret tt.

(** Lines 1052-1057: the handler of incoming messages, on a message of the
    chat [chat_id]. *)
Definition on_message (chat_id : JSValue) : M unit :=
  st <- get_state ;;
  if negb (js_truthy (telegramChatId st)) then
    modify (set_telegramChatId chat_id) ;;
    console_log ("Telegram chat ID set: " ++ js_to_string chat_id)
  else ret tt.

(** Lines 1331-1350 *)
Definition main_solver : M unit :=
  console_log (nl ++ "Choose your captcha solver:") ;;
  console_log "1. 2captcha" ;;
  console_log "2. Solve captcha using Gemini" ;;
  console_log "3. Manual Input" ;;
  console_log "4. Telegram Bot" ;;
  solverChoice <- question "Enter your choice (1, 2, 3, or 4): " ;;
  let solverType :=
    if (solverChoice =? "1")%string then "2captcha"
    else if (solverChoice =? "2")%string then "gemini"
    else if (solverChoice =? "4")%string then "telegram"
    else "manual" in
  apiKey <-
    (if negb (solverType =? "manual")%string then
       question ("Enter your "
                 ++ (if (solverType =? "gemini")%string then "Gemini"
                     else if (solverType =? "telegram")%string then "Telegram Bot"
                     else "2captcha")
                 ++ " API key: ")
     else ret "") ;;
  setupCaptchaSolver apiKey solverType.

End V4_main.

Unset Implicit Arguments.

(* ================================================================== *)
(** * Properties *)

(** ** Numbers: what rounding keeps *)



Lemma Qpower_2_succ e : (Qpower 2 (e + 1) == 2 * Qpower 2 e)%Q.
Proof.
  rewrite Qpower_plus by discriminate. rewrite Qpower_1_r. ring.
Qed.

Lemma Qpower_2_lt a b : (a < b)%Z -> (Qpower 2 a < Qpower 2 b)%Q.
Proof. intros H. apply Qpower_lt_compat_l; [exact H | reflexivity]. Qed.














(** A timer takes a whole number of milliseconds within its range as it is. *)
Lemma setTimeout_ms_int z :
  (1 <= z <= 2147483647)%Z -> setTimeout_ms (num z) = inject_Z z.
Proof.
  intros H. unfold setTimeout_ms, num, TIMEOUT_MAX.
  assert (A : Qle_bool 1 (inject_Z z) = true).
  { apply Qle_bool_iff. change 1%Q with (inject_Z 1). rewrite <- Zle_Qle. lia. }
  assert (B : Qle_bool (inject_Z z) (inject_Z 2147483647) = true).
  { apply Qle_bool_iff. rewrite <- Zle_Qle. lia. }
  rewrite A, B, Qfloor_Z. reflexivity.
Qed.



(** ** Strings: [trim], [split], [includes] *)

Definition colon : ascii := ":"%char.

(** The text before the first [c] (all of it when there is none), and the
    text after the first [c] (empty when there is none). *)
Fixpoint before (c : ascii) (s : string) : string :=
  match s with
  | "" => ""
  | String d r => if Ascii.eqb d c then "" else String d (before c r)
  end.

Fixpoint after (c : ascii) (s : string) : string :=
  match s with
  | "" => ""
  | String d r => if Ascii.eqb d c then r else after c r
  end.

Lemma all_whitespace_nil : all_whitespace "".
Proof. constructor. Qed.

Lemma all_whitespace_cons c s :
  isWhiteSpace c = true -> all_whitespace s -> all_whitespace (String c s).
Proof. intros Hc Hs. constructor; assumption. Qed.

Lemma trimStart_decomp s :
  exists pre, s = pre ++ trimStart s /\ all_whitespace pre.
Proof.
  induction s as [|c r [pre [Hr Hpre]]]; simpl.
  - exists ""; split; [reflexivity | apply all_whitespace_nil].
  - destruct (isWhiteSpace c) eqn:Hc.
    + exists (String c pre); split.
      * simpl; congruence.
      * apply all_whitespace_cons; assumption.
    + exists ""; split; [reflexivity | apply all_whitespace_nil].
Qed.

Lemma trimEnd_decomp s :
  exists post, s = trimEnd s ++ post /\ all_whitespace post.
Proof.
  induction s as [|c r [post [Hr Hpost]]]; simpl.
  - exists ""; split; [reflexivity | apply all_whitespace_nil].
  - destruct (trimEnd r) as [|d r'] eqn:Hte.
    + destruct (isWhiteSpace c) eqn:Hc.
      * exists (String c post); split.
        -- simpl in *; congruence.
        -- apply all_whitespace_cons; assumption.
      * exists post; split; [simpl in *; congruence | assumption].
    + exists post; split; [simpl in *; congruence | assumption].
Qed.

(** [trim] only removes whitespace, from both ends: what is left is a
    contiguous part of the input, character for character. *)
Lemma trim_decomp s :
  exists pre post,
    s = pre ++ trim s ++ post /\ all_whitespace pre /\ all_whitespace post.
Proof.
  destruct (trimStart_decomp s) as [pre [H1 Hpre]].
  destruct (trimEnd_decomp (trimStart s)) as [post [H2 Hpost]].
  exists pre, post. unfold trim. split; [|split]; try assumption.
  rewrite <- H2. exact H1.
Qed.

Lemma first_char_trimStart s c :
  first_char (trimStart s) = Some c -> isWhiteSpace c = false.
Proof.
  induction s as [|d r IH]; simpl; [discriminate|].
  destruct (isWhiteSpace d) eqn:Hd; [exact IH|].
  simpl. intros [= <-]. exact Hd.
Qed.

Lemma first_char_trimEnd s c :
  first_char (trimEnd s) = Some c -> first_char s = Some c.
Proof.
  destruct s as [|d r]; simpl; [discriminate|].
  destruct (trimEnd r); [destruct (isWhiteSpace d)|]; simpl; congruence.
Qed.

Lemma last_char_trimEnd s c :
  last_char (trimEnd s) = Some c -> isWhiteSpace c = false.
Proof.
  induction s as [|d r IH]; simpl; [discriminate|].
  destruct (trimEnd r) as [|e r'] eqn:Hte.
  - destruct (isWhiteSpace d) eqn:Hd; simpl; [discriminate|].
    intros [= <-]. exact Hd.
  - intros H. apply IH. exact H.
Qed.

Lemma trim_no_edge_whitespace s : no_edge_whitespace (trim s).
Proof.
  split; intros c H.
  - apply first_char_trimStart with (s := s).
    apply first_char_trimEnd. exact H.
  - apply last_char_trimEnd with (s := trimStart s). exact H.
Qed.

Lemma isWhiteSpace_colon c : isWhiteSpace c = true -> Ascii.eqb c colon = false.
Proof.
  destruct c as [[] [] [] [] [] [] [] []]; vm_compute; congruence.
Qed.

Lemma trimStart_idem s : trimStart (trimStart s) = trimStart s.
Proof.
  induction s as [|c r IH]; simpl; [reflexivity|].
  destruct (isWhiteSpace c) eqn:Hc; [exact IH|].
  simpl. rewrite Hc. reflexivity.
Qed.

Lemma trimEnd_idem s : trimEnd (trimEnd s) = trimEnd s.
Proof.
  induction s as [|c r IH]; simpl; [reflexivity|].
  destruct (trimEnd r) as [|d r'] eqn:Hte.
  - destruct (isWhiteSpace c) eqn:Hc; simpl; [reflexivity|].
    rewrite Hc. reflexivity.
  - change (trimEnd (String c (String d r'))) with
      (match trimEnd (String d r') with
       | "" => if isWhiteSpace c then "" else String c ""
       | x => String c x
       end).
    rewrite IH. reflexivity.
Qed.

Lemma trim_comm s : trimStart (trimEnd s) = trimEnd (trimStart s).
Proof.
  induction s as [|c r IH]; simpl; [reflexivity|].
  destruct (isWhiteSpace c) eqn:Hc.
  - destruct (trimEnd r) as [|d r'] eqn:Hte.
    + simpl. rewrite <- IH. reflexivity.
    + simpl. rewrite Hc. rewrite <- IH. reflexivity.
  - simpl. destruct (trimEnd r); simpl; rewrite Hc; reflexivity.
Qed.

Lemma trim_trimStart s : trim (trimStart s) = trim s.
Proof. unfold trim. rewrite trimStart_idem. reflexivity. Qed.

Lemma trim_trimEnd s : trim (trimEnd s) = trim s.
Proof. unfold trim. rewrite trim_comm, trimEnd_idem. reflexivity. Qed.

Lemma includes_trimStart s : includes colon (trimStart s) = includes colon s.
Proof.
  induction s as [|c r IH]; simpl; [reflexivity|].
  destruct (isWhiteSpace c) eqn:Hc; [|reflexivity].
  rewrite (isWhiteSpace_colon _ Hc). exact IH.
Qed.

Lemma includes_trimEnd s : includes colon (trimEnd s) = includes colon s.
Proof.
  induction s as [|c r IH]; simpl; [reflexivity|].
  destruct (trimEnd r) as [|d r'] eqn:Hte.
  - simpl in IH. rewrite <- IH.
    destruct (isWhiteSpace c) eqn:Hc; simpl.
    + rewrite (isWhiteSpace_colon _ Hc). reflexivity.
    + rewrite orb_false_r. reflexivity.
  - change (includes colon (String c (String d r')))
      with (Ascii.eqb c colon || includes colon (String d r')).
    rewrite IH. reflexivity.
Qed.

Lemma includes_trim s : includes colon (trim s) = includes colon s.
Proof. unfold trim. rewrite includes_trimEnd. apply includes_trimStart. Qed.

Lemma before_trimStart s : before colon (trimStart s) = trimStart (before colon s).
Proof.
  induction s as [|c r IH]; simpl; [reflexivity|].
  destruct (isWhiteSpace c) eqn:Hc.
  - rewrite (isWhiteSpace_colon _ Hc). simpl. rewrite Hc. exact IH.
  - simpl. destruct (Ascii.eqb c colon); simpl; [reflexivity|].
    rewrite Hc. reflexivity.
Qed.

Lemma after_trimStart s : after colon (trimStart s) = after colon s.
Proof.
  induction s as [|c r IH]; simpl; [reflexivity|].
  destruct (isWhiteSpace c) eqn:Hc; [|reflexivity].
  rewrite (isWhiteSpace_colon _ Hc). exact IH.
Qed.

Lemma trimEnd_nonempty_of_includes s :
  includes colon s = true -> trimEnd s <> "".
Proof.
  intros H E. rewrite <- includes_trimEnd, E in H. discriminate.
Qed.

Lemma before_trimEnd s :
  includes colon s = true -> before colon (trimEnd s) = before colon s.
Proof.
  induction s as [|c r IH]; simpl; [reflexivity|].
  destruct (Ascii.eqb c colon) eqn:Hc; simpl.
  - intros _. destruct (trimEnd r); [destruct (isWhiteSpace c) eqn:Hw|];
      simpl; try rewrite Hc; reflexivity.
  - intros Hr. specialize (IH Hr).
    pose proof (trimEnd_nonempty_of_includes _ Hr) as Hne.
    destruct (trimEnd r) as [|d r'] eqn:Hte; [congruence|].
    simpl in *. rewrite Hc. rewrite IH. reflexivity.
Qed.

Lemma after_trimEnd s :
  includes colon s = true -> after colon (trimEnd s) = trimEnd (after colon s).
Proof.
  induction s as [|c r IH]; simpl; [reflexivity|].
  destruct (Ascii.eqb c colon) eqn:Hc; simpl.
  - intros _. destruct (trimEnd r) eqn:Hte.
    + destruct (isWhiteSpace c) eqn:Hw.
      * apply isWhiteSpace_colon in Hw. congruence.
      * simpl. rewrite Hc. reflexivity.
    + simpl. rewrite Hc. reflexivity.
  - intros Hr. specialize (IH Hr).
    pose proof (trimEnd_nonempty_of_includes _ Hr) as Hne.
    destruct (trimEnd r) as [|d r'] eqn:Hte; [congruence|].
    simpl in *. rewrite Hc. exact IH.
Qed.

Lemma before_without s : includes colon s = false -> before colon s = s.
Proof.
  induction s as [|c r IH]; simpl; [reflexivity|].
  destruct (Ascii.eqb c colon); simpl; [discriminate|].
  intros H. rewrite IH by exact H. reflexivity.
Qed.

(** [split] in terms of [before] and [after]. *)
Lemma split_before_after s :
  split colon s =
  before colon s :: (if includes colon s then split colon (after colon s) else []).
Proof.
  induction s as [|c r IH]; simpl; [reflexivity|].
  destruct (Ascii.eqb c colon); simpl; [reflexivity|].
  rewrite IH. reflexivity.
Qed.

(* ================================================================== *)
(** ** A concrete environment, for the scenarios below *)

Definition ok_reply (v : JSValue) : FetchResult :=
  Reply {| ok := true; status := 200; json := Some v |}.

Definition error_reply (code : nat) (v : JSValue) : FetchResult :=
  Reply {| ok := false; status := code; json := Some v |}.

Definition LF : ascii := ascii_of_nat 10.

(** Three credential lines: a secret holding a colon, a line without colon,
    and a padded pair. *)
Definition demo_file : string :=
  "ann@example.org:pa:ss" ++ nl ++ "no separator here" ++ nl
  ++ "  bob@example.org : hunter2  ".

(** The service issues puzzles and images, rejects the first [rejected] login
    submissions and accepts the later ones; the points query answers
    [points]. *)
Definition demo_env (rejected : nat) (points : FetchResult) : Env :=
  {| net := fun ep n =>
       match ep with
       | GetPuzzle => ok_reply (JObj [("puzzle_id", JStr "p-1")])
       | GetPuzzleImage => ok_reply (JObj [("imgBase64", JStr "iVBORw0KGgo=")])
       | Login =>
           if n <? rejected
           then error_reply 400 (JObj [("message", JStr "Incorrect answer")])
           else ok_reply (JObj [("message", JStr "Successfully logged in!");
                                ("data", JObj [("token", JStr "tok-1")])])
       | GetPoint => points
       end;
     random := fun n => (Z.of_nat (n mod 16) # 16)%Q;
     imageCaptcha := fun _ => inr (JObj [("data", JStr " 1234")]);
     solveImage := fun _ => inr (JStr "1234");
     generateContent := fun _ => inr (" aB3x" ++ nl);
     answers := fun _ => " 7x9K ";
     saveImage := fun _ => None;
     sendMessage := fun _ => None;
     sendPhoto := fun _ => None;
     reply := fun _ => Some " Qr5t ";
     readFile := fun path =>
       if (path =? "file.txt")%string then inr demo_file
       else inl ("ENOENT: no such file or directory, open '" ++ path ++ "'");
     newAgent := fun _ => None |}.

Definition five_points : FetchResult :=
  ok_reply (JObj [("success", JBool true);
                  ("data", JObj [("rewardPoint", JObj [("points", JNum 5)])])]).

Definition points_down : FetchResult := error_reply 500 JNull.

(** The state right after start-up, for a solver type and a proxy list. *)
Definition demo_state (solverType : string) (proxies : list string) : State :=
  {| calls := fun _ => 0;
     model := solverType;
     useProxies := true;
     proxyList := proxies;
     currentProxyIndex := 0;
     telegramBot := (solverType =? "telegram")%string;
     telegramChatId := if (solverType =? "telegram")%string then JNum 4711
                       else JUndefined |}.

(* ================================================================== *)
(** ** Credential lines (C10) *)

(** The claim's reading of one line of the credential file: dropped without
    a colon; otherwise the identifier is the trimmed text before the first
    colon and the secret the trimmed text between the first and the second
    colon. *)
Definition credential_of_line (line : string) : list Credential :=
  if includes colon line then
    [ {| email := trim (before colon line);
         password := trim (before colon (after colon line)) |} ]
  else [].

Lemma parse_line_trim line :
  includes colon line = true ->
  parse_line (trim line) =
  inr {| email := trim (before colon line);
         password := trim (before colon (after colon line)) |}.
Proof.
  intros H. unfold parse_line. fold colon.
  rewrite split_before_after, includes_trim, H.
  rewrite (split_before_after (after colon (trim line))). simpl.
  assert (Hs : includes colon (trimStart line) = true)
    by (rewrite includes_trimStart; exact H).
  do 2 f_equal.
  - unfold trim at 2. rewrite (before_trimEnd _ Hs), before_trimStart.
    apply trim_trimStart.
  - unfold trim at 2. rewrite (after_trimEnd _ Hs), after_trimStart.
    destruct (includes colon (after colon line)) eqn:Ha.
    + rewrite before_trimEnd by exact Ha. reflexivity.
    + rewrite (before_without (after colon line)) by exact Ha.
      rewrite before_without by (rewrite includes_trimEnd; exact Ha).
      apply trim_trimEnd.
Qed.

Lemma parse_lines lines :
  map_throwing parse_line (filter (includes colon) (map trim lines)) =
  inr (flat_map credential_of_line lines).
Proof.
  induction lines as [|l ls IH]; simpl; [reflexivity|].
  unfold credential_of_line at 1. rewrite includes_trim.
  destruct (includes colon l) eqn:H; simpl.
  - rewrite (parse_line_trim _ H), IH. reflexivity.
  - exact IH.
Qed.

Lemma parse_credentials_lines content :
  parse_credentials content = inr (flat_map credential_of_line (split LF content)).
Proof. apply parse_lines. Qed.

(** C10. [readCredentials] reads the file line by line: a line without a
    colon is dropped without any error, and a line with one yields the
    trimmed text before its first colon as identifier and the trimmed text
    between its first and second colon as secret; whatever follows a second
    colon is lost. *)
Theorem readCredentials_per_line env st filePath content :
  readFile env filePath = inr content ->
  outcome (V1.readCredentials filePath env st) =
  Return (flat_map credential_of_line (split LF content)).
Proof.
  intros H. unfold V1.readCredentials, outcome, bind, try_catch, fs_readFile, lift, spinner, emit, ret.
  simpl. rewrite H, parse_credentials_lines. reflexivity.
Qed.

Lemma readCredentials_per_line_demo :
  outcome (V1.readCredentials "file.txt" (demo_env 0 five_points)
             (demo_state "2captcha" [])) =
  Return [ {| email := "ann@example.org"; password := "pa" |};
           {| email := "bob@example.org"; password := "hunter2" |} ].
Proof.
  exact (readCredentials_per_line (demo_env 0 five_points)
           (demo_state "2captcha" []) "file.txt" demo_file eq_refl).
Defined.

(* ================================================================== *)
(** ** The session identity (C7) *)

Definition isLowerHex (c : ascii) : bool :=
  let n := nat_of_ascii c in
  ((48 <=? n) && (n <=? 57)) || ((97 <=? n) && (n <=? 102)).

(** The digit appended for one draw, and the digits of [n] consecutive draws
    starting with draw number [c]. *)
Definition digit_of (r : Q) : string := char_at hexDigits (Math_floor (r * 16)%Q).

Fixpoint drawn (env : Env) (c n : nat) : string :=
  match n with
  | 0 => ""
  | S n' => digit_of (random env c) ++ drawn env (S c) n'
  end.

Lemma append_assoc (a b c : string) : (a ++ b) ++ c = a ++ (b ++ c).
Proof. induction a as [|x a IH]; simpl; [reflexivity | rewrite IH; reflexivity]. Qed.

Lemma tick_calls_same p st : calls (tick p st) p = S (calls st p).
Proof.
  simpl. replace (Port_eqb p p) with true; [reflexivity|].
  destruct p as [[]| | | | | | | | |]; reflexivity.
Qed.

Lemma append_empty (a : string) : a ++ "" = a.
Proof. induction a as [|x a IH]; simpl; congruence. Qed.

(** From [st] to [st']: [n] more draws of [Math.random], nothing else. *)
Definition drew (n : nat) (st st' : State) : Prop :=
  model st' = model st /\ useProxies st' = useProxies st /\
  proxyList st' = proxyList st /\ currentProxyIndex st' = currentProxyIndex st /\
  telegramBot st' = telegramBot st /\ telegramChatId st' = telegramChatId st /\
  forall p, calls st' p = if Port_eqb p PRandom then calls st p + n else calls st p.

Lemma generateAppId_loop_run n : forall appId env st,
  exists st',
    generateAppId_loop n appId env st =
    (Return (appId ++ drawn env (calls st PRandom) n), st', []) /\
    drew n st st'.
Proof.
  induction n as [|n IH]; intros appId env st.
  - exists st. simpl. unfold ret. rewrite append_empty. split; [reflexivity|].
    repeat split. intros p. destruct (Port_eqb p PRandom); lia.
  - destruct (IH (appId ++ digit_of (random env (calls st PRandom))) env
                 (tick PRandom st)) as (st' & Hrun & D).
    exists st'. split.
    + cbn [generateAppId_loop]. unfold bind, Math_random, ask.
      cbv beta iota. unfold digit_of in Hrun.
      rewrite Hrun, tick_calls_same, append_assoc. reflexivity.
    + destruct D as (D1 & D2 & D3 & D4 & D5 & D6 & D7).
      repeat split; try assumption.
      intros p. rewrite D7. simpl.
      destruct (Port_eqb p PRandom); lia.
Qed.

Lemma digit_of_unit_interval r :
  (0 <= r)%Q -> (r < 1)%Q ->
  exists c, digit_of r = String c "" /\ isLowerHex c = true.
Proof.
  intros H0 H1. unfold digit_of, Math_floor.
  assert (Hlo : (0 <= Qfloor (r * 16))%Z).
  { change 0%Z with (Qfloor 0). apply Qfloor_resp_le.
    apply Qmult_le_0_compat; [exact H0 | discriminate]. }
  assert (Hhi : (Qfloor (r * 16) < 16)%Z).
  { assert (Hq : (inject_Z (Qfloor (r * 16)) < inject_Z 16)%Q).
    { apply Qle_lt_trans with (y := (r * 16)%Q); [apply Qfloor_le|].
      setoid_replace (inject_Z 16) with (1 * 16)%Q by reflexivity.
      apply Qmult_lt_compat_r; [reflexivity | exact H1]. }
    rewrite <- Zlt_Qlt in Hq. exact Hq. }
  set (i := Qfloor (r * 16)) in *.
  assert (Hi : exists k, i = Z.of_nat k /\ k < 16).
  { exists (Z.to_nat i). split; lia. }
  destruct Hi as [k [-> Hk]].
  unfold char_at.
  replace (0 <=? Z.of_nat k)%Z with true by (symmetry; apply Z.leb_le; lia).
  rewrite Nat2Z.id.
  do 16 (destruct k as [|k]; [eexists; split; reflexivity|]).
  lia.
Qed.

Lemma drawn_hex env n : forall c,
  (forall k, (0 <= random env k)%Q /\ (random env k < 1)%Q) ->
  String.length (drawn env c n) = n /\
  Forall (fun x => isLowerHex x = true) (list_ascii_of_string (drawn env c n)).
Proof.
  induction n as [|n IH]; intros c H; simpl.
  - split; [reflexivity | constructor].
  - destruct (H c) as [H0 H1].
    destruct (digit_of_unit_interval _ H0 H1) as [x [-> Hx]].
    destruct (IH (S c) H) as [Hlen Hall]. simpl.
    split; [congruence | constructor; assumption].
Qed.

(** C7. Whatever the state, and for [Math.random] draws in [0, 1),
    [generateAppId] returns (never throws, performs no effect) the prefix
    [67] followed by 22 lowercase hexadecimal digits, 24 characters in all;
    the digits are a function of the 22 draws alone, and the only thing
    that changes is the number of draws made. *)
Theorem generateAppId_format env st :
  (forall k, (0 <= random env k)%Q /\ (random env k < 1)%Q) ->
  let tail := drawn env (calls st PRandom) 22 in
  (exists st', generateAppId env st = (Return ("67" ++ tail), st', []) /\
               drew 22 st st') /\
  String.length ("67" ++ tail) = 24 /\
  String.length tail = 22 /\
  Forall (fun c => isLowerHex c = true) (list_ascii_of_string tail).
Proof.
  intros H tail. unfold generateAppId.
  destruct (drawn_hex env 22 (calls st PRandom) H) as [Hlen Hall].
  split; [apply generateAppId_loop_run|].
  split; [|split; assumption].
  simpl. fold tail. unfold tail at 1. rewrite Hlen. reflexivity.
Qed.

Lemma demo_random_unit k :
  (0 <= random (demo_env 0 five_points) k)%Q /\
  (random (demo_env 0 five_points) k < 1)%Q.
Proof.
  pose proof (Nat.mod_upper_bound k 16 ltac:(discriminate)) as Hk.
  change (random (demo_env 0 five_points) k) with (Z.of_nat (k mod 16) # 16)%Q.
  unfold Qle, Qlt. cbn [Qnum Qden]. lia.
Qed.

Lemma generateAppId_format_demo :
  (exists st',
     generateAppId (demo_env 0 five_points) (demo_state "manual" []) =
     (Return "670123456789abcdef012345", st', []) /\
     drew 22 (demo_state "manual" []) st') /\
  String.length "670123456789abcdef012345" = 24 /\
  String.length "0123456789abcdef012345" = 22 /\
  Forall (fun c => isLowerHex c = true)
    (list_ascii_of_string "0123456789abcdef012345").
Proof.
  exact (generateAppId_format (demo_env 0 five_points) (demo_state "manual" [])
           demo_random_unit).
Defined.

(* ================================================================== *)
(** ** Proxy rotation (C4) *)

(** [n] calls of [getProxyAgent] in a row, with their results. *)
Fixpoint rotate (n : nat) : M (list (option Agent)) :=
  match n with
  | 0 => ret []
  | S n' =>
      agent <- V3.getProxyAgent ;;
      rest <- rotate n' ;;
      ret (agent :: rest)
  end.

Definition agent_proxy (a : Agent) : string :=
  match a with SocksProxyAgent p | HttpsProxyAgent p => p end.

(** The proxy each result stands for ([None]: a direct connection). *)
Definition proxies_of (results : list (option Agent)) : list (option string) :=
  map (option_map agent_proxy) results.

(** The agent constructors accept every entry of the pool. *)
Definition pool_accepted (env : Env) (st : State) : Prop :=
  Forall (fun proxy => newAgent env proxy = None) (proxyList st).

Lemma getProxyAgent_enabled env st :
  useProxies st = true ->
  currentProxyIndex st < List.length (proxyList st) ->
  pool_accepted env st ->
  exists agent,
    V3.getProxyAgent env st =
    (Return (Some agent),
     set_currentProxyIndex
       ((currentProxyIndex st + 1) mod List.length (proxyList st)) st, []) /\
    Some (agent_proxy agent) = nth_error (proxyList st) (currentProxyIndex st).
Proof.
  intros Hu Hc Hok. unfold V3.getProxyAgent. rewrite Hu. simpl.
  destruct (List.length (proxyList st) =? 0) eqn:Hz.
  - apply Nat.eqb_eq in Hz. lia.
  - destruct (nth_error (proxyList st) (currentProxyIndex st)) as [proxy|] eqn:Hn.
    + rewrite (proj1 (Forall_forall _ _) Hok proxy (nth_error_In _ _ Hn)).
      eexists; split; [reflexivity|].
      destruct (startsWith "socks" proxy); reflexivity.
    + apply nth_error_None in Hn. lia.
Qed.

(** An entry that the constructor does not accept: the call throws the
    constructor's error, and the cursor has moved on. *)
Lemma getProxyAgent_rejected env st proxy e :
  useProxies st = true ->
  nth_error (proxyList st) (currentProxyIndex st) = Some proxy ->
  newAgent env proxy = Some e ->
  V3.getProxyAgent env st =
  (Throw e,
   set_currentProxyIndex
     ((currentProxyIndex st + 1) mod List.length (proxyList st)) st, []).
Proof.
  intros Hu Hn He. unfold V3.getProxyAgent. rewrite Hu, Hn, He. simpl.
  destruct (proxyList st); [destruct (currentProxyIndex st); discriminate|].
  reflexivity.
Qed.

Lemma getProxyAgent_disabled env st :
  useProxies st = false \/ proxyList st = [] ->
  V3.getProxyAgent env st = (Return None, st, []).
Proof.
  intros [H|H]; unfold V3.getProxyAgent; rewrite H; simpl; [reflexivity|].
  rewrite orb_true_r. reflexivity.
Qed.

Lemma rotate_from env m : forall st,
  useProxies st = true ->
  currentProxyIndex st < List.length (proxyList st) ->
  pool_accepted env st ->
  exists results st',
    rotate m env st = (Return results, st', []) /\
    proxies_of results =
    map (fun i => nth_error (proxyList st)
                    ((currentProxyIndex st + i) mod List.length (proxyList st)))
        (seq 0 m) /\
    currentProxyIndex st' =
    (currentProxyIndex st + m) mod List.length (proxyList st).
Proof.
  induction m as [|m IH]; intros st Hu Hc Hok.
  - exists [], st. simpl. rewrite Nat.add_0_r, Nat.mod_small by exact Hc.
    repeat split.
  - destruct (getProxyAgent_enabled env st Hu Hc Hok) as [agent [Hrun Hagent]].
    set (K := List.length (proxyList st)) in *.
    set (st1 := set_currentProxyIndex ((currentProxyIndex st + 1) mod K) st) in *.
    assert (HK : K <> 0) by lia.
    destruct (IH st1 Hu) as [rest [st' [Hrest [Hp Hcur]]]].
    { simpl. apply Nat.mod_upper_bound. exact HK. }
    { exact Hok. }
    exists (Some agent :: rest), st'.
    simpl rotate. unfold bind. rewrite Hrun, Hrest. simpl.
    split; [reflexivity|]. split.
    + rewrite Hp, Hagent. simpl. fold K.
      rewrite Nat.add_0_r, (Nat.mod_small _ _ Hc). f_equal.
      rewrite <- seq_shift, map_map. apply map_ext. intros i.
      rewrite Nat.Div0.add_mod_idemp_l.
      f_equal. f_equal. lia.
    + rewrite Hcur. simpl. fold K.
      rewrite Nat.Div0.add_mod_idemp_l. f_equal. lia.
Qed.

Lemma rotate_disabled env m : forall st,
  useProxies st = false \/ proxyList st = [] ->
  rotate m env st = (Return (repeat None m), st, []).
Proof.
  induction m as [|m IH]; intros st H; [reflexivity|].
  simpl rotate. unfold bind.
  rewrite (getProxyAgent_disabled env st H), (IH st H). reflexivity.
Qed.

(** C4, as the code has it. With proxying enabled, a pool of K > 0 entries
    that the agent constructors accept and the cursor at its initial value 0, the i-th of M
    successive calls (counting from 0) returns an agent for [pool[i mod K]],
    and the cursor ends at [M mod K]; with proxying disabled or an empty pool
    every call returns [null] and nothing changes. On an entry that its
    constructor does not accept, the call throws the constructor's error
    after the cursor has advanced. *)
Theorem getProxyAgent_round_robin env st m :
  (useProxies st = true ->
   proxyList st <> [] ->
   currentProxyIndex st = 0 ->
   pool_accepted env st ->
   exists results st',
     rotate m env st = (Return results, st', []) /\
     proxies_of results =
     map (fun i => nth_error (proxyList st) (i mod List.length (proxyList st)))
         (seq 0 m) /\
     currentProxyIndex st' = m mod List.length (proxyList st)) /\
  (useProxies st = false \/ proxyList st = [] ->
   rotate m env st = (Return (repeat None m), st, [])) /\
  (forall proxy e,
     useProxies st = true ->
     nth_error (proxyList st) (currentProxyIndex st) = Some proxy ->
     newAgent env proxy = Some e ->
     V3.getProxyAgent env st =
     (Throw e,
      set_currentProxyIndex
        ((currentProxyIndex st + 1) mod List.length (proxyList st)) st, [])).
Proof.
  split; [|split].
  - intros Hu Hne H0 Hok.
    assert (Hc : currentProxyIndex st < List.length (proxyList st)).
    { rewrite H0. destruct (proxyList st); [congruence | simpl; lia]. }
    destruct (rotate_from env m st Hu Hc Hok) as [results [st' [Hrun [Hp Hcur]]]].
    exists results, st'. rewrite H0 in Hp, Hcur. simpl in Hp, Hcur.
    repeat split; assumption.
  - apply rotate_disabled.
  - intros proxy e. apply getProxyAgent_rejected.
Qed.

Definition demo_pool : list string :=
  ["http://10.0.0.1:8080"; "socks5://10.0.0.2:1080"; "http://10.0.0.3:8080"].

Lemma getProxyAgent_round_robin_demo :
  exists results st',
    rotate 5 (demo_env 0 five_points) (demo_state "2captcha" demo_pool) =
    (Return results, st', []) /\
    proxies_of results =
    [Some "http://10.0.0.1:8080"; Some "socks5://10.0.0.2:1080";
     Some "http://10.0.0.3:8080"; Some "http://10.0.0.1:8080";
     Some "socks5://10.0.0.2:1080"] /\
    currentProxyIndex st' = 2.
Proof.
  refine (proj1 (getProxyAgent_round_robin (demo_env 0 five_points)
                   (demo_state "2captcha" demo_pool) 5) eq_refl _ eq_refl _).
  - discriminate.
  - repeat constructor.
Defined.

(** An environment whose agent constructors reject the proxies that do not
    name a scheme, as [new URL] does. *)
Definition strict_agents (env : Env) : Env :=
  {| net := net env;
     random := random env;
     imageCaptcha := imageCaptcha env;
     solveImage := solveImage env;
     generateContent := generateContent env;
     answers := answers env;
     saveImage := saveImage env;
     sendMessage := sendMessage env;
     sendPhoto := sendPhoto env;
     reply := reply env;
     readFile := readFile env;
     newAgent := fun proxy =>
       if startsWith "http://" proxy || startsWith "socks5://" proxy then None
       else Some "Invalid URL" |}.

(** A pool whose second entry is a bare [host:port]: the first call gives an
    agent, the second throws instead of giving the second proxy, and the
    cursor has moved past the entry. *)
Lemma getProxyAgent_invalid_entry :
  let env := strict_agents (demo_env 0 five_points) in
  let st := demo_state "2captcha" ["http://10.0.0.1:8080"; "10.0.0.2:8080"] in
  let first := V3.getProxyAgent env st in
  let second := V3.getProxyAgent env (final first) in
  outcome first = Return (Some (HttpsProxyAgent "http://10.0.0.1:8080")) /\
  outcome second = Throw "Invalid URL" /\
  currentProxyIndex (final second) = 0 /\
  outcome (rotate 2 env st) = Throw "Invalid URL".
Proof. repeat split. Qed.

(* ================================================================== *)
(** ** Running a computation step by step *)

Ltac unfold_ops :=
  unfold for_range, fetch, check_ok, response_json, lift, js_destructure,
    question, Math_random, console_log, spinner, sleep, appendFile,
    fs_readFile, get_state, ask, emit, ret, throw, diverge, or_undefined in *.

Ltac run := unfold_ops; unfold bind, try_catch in *; simpl in *.

(** Case analysis on whatever the computation inspects next. *)
Ltac branch :=
  match goal with
  | |- context [match ?x with _ => _ end] =>
      lazymatch x with
      | context [match _ with _ => _ end] => fail
      | _ => destruct x eqn:?
      end
  end.

(* ================================================================== *)
(** ** The points query (C5, C6) *)















(* ================================================================== *)
(** ** Footprints: which effects a computation may have *)

(** The settings chosen at start-up. *)
Definition same_config (st st' : State) : Prop :=
  model st' = model st /\ useProxies st' = useProxies st /\
  proxyList st' = proxyList st /\ telegramBot st' = telegramBot st /\
  telegramChatId st' = telegramChatId st.

(** The proxy cursor points into the pool (when there is one). *)
Definition proxy_wf (st : State) : Prop :=
  proxyList st = [] \/ currentProxyIndex st < List.length (proxyList st).

Definition Result (A : Type) : Type := Outcome A * State * list Event.

(** The result [r] of a continuation, seen from before the events [e1]. *)
Definition prefixed {A} (e1 : list Event) (r : Result A) : Result A :=
  (outcome r, final r, (e1 ++ events r)%list).

Lemma bind_run {A B} (m : M A) (f : A -> M B) env st :
  bind m f env st =
  match outcome (m env st) with
  | Return a => prefixed (events (m env st)) (f a env (final (m env st)))
  | Throw e => (Throw e, final (m env st), events (m env st))
  | Diverge => (Diverge, final (m env st), events (m env st))
  end.
Proof.
  unfold bind, prefixed, outcome, final, events.
  destruct (m env st) as [[[a|e|] st1] e1]; simpl; try reflexivity.
  destruct (f a env st1) as [[o st2] e2]. reflexivity.
Qed.

Lemma try_catch_run {A} (m : M A) (h : string -> M A) env st :
  try_catch m h env st =
  match outcome (m env st) with
  | Throw e => prefixed (events (m env st)) (h e env (final (m env st)))
  | _ => m env st
  end.
Proof.
  unfold try_catch, prefixed, outcome, final, events.
  destruct (m env st) as [[[a|e|] st1] e1]; simpl; try reflexivity.
  destruct (h e env st1) as [[o st2] e2]. reflexivity.
Qed.

Section Footprint.

Variable allowed : Event -> bool.
Variable touched : Port -> bool.

(** From [st] to [st'] with events [evs]: the configuration is kept, the
    cursor stays in the pool, only [touched] ports were called and only
    [allowed] events happened. *)
Definition step_ok (st st' : State) (evs : list Event) : Prop :=
  same_config st st' /\
  (proxy_wf st -> proxy_wf st') /\
  (forall p, touched p = false -> calls st' p = calls st p) /\
  Forall (fun e => allowed e = true) evs.

(** [m] stays within the footprint, and does not diverge. *)
Definition within {A} (m : M A) : Prop :=
  forall env st,
    step_ok st (final (m env st)) (events (m env st)) /\
    outcome (m env st) <> Diverge.

Lemma step_ok_refl st : step_ok st st [].
Proof. repeat split; auto. Qed.

Lemma step_ok_trans st st1 st2 e1 e2 :
  step_ok st st1 e1 -> step_ok st1 st2 e2 -> step_ok st st2 (e1 ++ e2)%list.
Proof.
  intros ((M1 & U1 & L1 & B1 & C1) & W1 & P1 & F1)
         ((M2 & U2 & L2 & B2 & C2) & W2 & P2 & F2).
  repeat split; try congruence; auto.
  - intros p Hp. rewrite P2, P1 by exact Hp. reflexivity.
  - apply Forall_app. split; assumption.
Qed.

Lemma within_ret {A} (a : A) : within (ret a).
Proof. intros env st. split; [apply step_ok_refl | discriminate]. Qed.

Lemma within_throw {A} e : within (@throw A e).
Proof. intros env st. split; [apply step_ok_refl | discriminate]. Qed.

Lemma within_get_state : within get_state.
Proof. intros env st. split; [apply step_ok_refl | discriminate]. Qed.

Lemma within_lift {A} (r : string + A) : within (lift r).
Proof. destruct r; [apply within_throw | apply within_ret]. Qed.

Lemma within_fs_readFile path : within (fs_readFile path).
Proof.
  intros env st. unfold fs_readFile.
  destruct (readFile env path); (split; [apply step_ok_refl | discriminate]).
Qed.

Lemma within_emit e : allowed e = true -> within (emit e).
Proof.
  intros H env st. split; [|discriminate].
  repeat split; auto. simpl. constructor; [exact H | constructor].
Qed.

Lemma within_ask {A} p (oracle : Env -> nat -> A) :
  touched p = true -> within (ask p oracle).
Proof.
  intros H env st. split; [|discriminate].
  repeat split; auto.
  intros q Hq. simpl.
  destruct (Port_eqb q p) eqn:E; [|reflexivity].
  assert (q = p) as ->; [|congruence].
  destruct q as [[]| | | | | | | | |], p as [[]| | | | | | | | |];
    simpl in E; congruence.
Qed.

Lemma within_bind {A B} (m : M A) (f : A -> M B) :
  within m -> (forall a, within (f a)) -> within (bind m f).
Proof.
  intros Hm Hf env st. rewrite bind_run.
  destruct (Hm env st) as [Hs Hd].
  destruct (outcome (m env st)) as [a| |]; [|split; [exact Hs|discriminate]|congruence].
  destruct (Hf a env (final (m env st))) as [Hs2 Hd2].
  split; [|exact Hd2].
  apply step_ok_trans with (st1 := final (m env st)); assumption.
Qed.

Lemma within_try_catch {A} (m : M A) (h : string -> M A) :
  within m -> (forall e, within (h e)) -> within (try_catch m h).
Proof.
  intros Hm Hh env st. rewrite try_catch_run.
  destruct (Hm env st) as [Hs Hd].
  destruct (outcome (m env st)) as [a|e|] eqn:Ho;
    [split; [exact Hs | congruence] | | congruence].
  destruct (Hh e env (final (m env st))) as [Hs2 Hd2].
  split; [|exact Hd2].
  apply step_ok_trans with (st1 := final (m env st)); assumption.
Qed.

Lemma within_for_upto {A} (body : nat -> M (option A)) n :
  (forall i, within (body i)) -> forall i, within (for_upto n i body).
Proof.
  intros Hb. induction n as [|n IH]; intros i; simpl.
  - apply within_ret.
  - apply within_bind; [apply Hb|].
    intros [v|]; [apply within_ret | apply IH].
Qed.

Lemma within_getProxyAgent : within V3.getProxyAgent.
Proof.
  intros env st. unfold V3.getProxyAgent.
  destruct (negb (useProxies st) || (List.length (proxyList st) =? 0)) eqn:E.
  - split; [apply step_ok_refl | discriminate].
  - apply orb_false_elim in E. destruct E as [_ E]. apply Nat.eqb_neq in E.
    assert (Hs : step_ok st
                   (set_currentProxyIndex
                      ((currentProxyIndex st + 1) mod List.length (proxyList st)) st)
                   []).
    { repeat split; auto. intros _. right. simpl.
      apply Nat.mod_upper_bound. exact E. }
    destruct (nth_error (proxyList st) (currentProxyIndex st)) as [proxy|];
      [destruct (newAgent env proxy)|];
      (split; [exact Hs | discriminate]).
Qed.

End Footprint.

Lemma within_weaken (a a' : Event -> bool) (t t' : Port -> bool) {A} (m : M A) :
  (forall e, a e = true -> a' e = true) ->
  (forall p, t p = true -> t' p = true) ->
  within a t m -> within a' t' m.
Proof.
  intros Ha Ht H env st. destruct (H env st) as [(C & W & P & F) D].
  split; [|exact D]. repeat split; try apply C; auto.
  - intros p Hp. apply P. destruct (t p) eqn:E; [|reflexivity].
    rewrite (Ht p E) in Hp. discriminate.
  - eapply Forall_impl; [|exact F]. exact Ha.
Qed.

Ltac unfold_helpers :=
  unfold for_range, fetch, check_ok, response_json, js_destructure, question,
    Math_random, console_log, spinner, sleep, appendFile.

(** Discharges a footprint goal by following the structure of the code. *)
Ltac footprint :=
  repeat first
    [ apply within_ret
    | apply within_throw
    | apply within_get_state
    | apply within_lift
    | apply within_fs_readFile
    | apply within_getProxyAgent
    | apply within_emit; reflexivity
    | apply within_ask; reflexivity
    | apply within_bind; [|intros ?]
    | apply within_try_catch; [|intros ?]
    | apply within_for_upto; intros ?
    | match goal with
      | |- within _ _ (if ?b then _ else _) => destruct b
      | |- within _ _ (match ?x with _ => _ end) => destruct x
      end ].

(** The three steps before the login submission only talk to the puzzle
    endpoints and the solver. *)
Definition before_login (e : Event) : bool :=
  match e with
  | AppendFile _ _ | TelegramMessage _ _ => false
  | Sleep AtLogin _ | Sleep AtBatch _ | Sleep AtPoints _ => false
  | Fetch Login _ _ | Fetch GetPoint _ _ => false
  | _ => true
  end.

Definition before_login_port (p : Port) : bool :=
  match p with
  | PRandom | PNet Login | PNet GetPoint | PSendMessage => false
  | _ => true
  end.

(** No sub-operation writes a result line, sends a status message, or makes
    the pauses of the login and batch loops. *)
Definition inner (e : Event) : bool :=
  match e with
  | AppendFile _ _ | TelegramMessage _ _ => false
  | Sleep AtLogin _ | Sleep AtBatch _ => false
  | _ => true
  end.

Definition inner_port (p : Port) : bool :=
  match p with
  | PRandom | PSendMessage => false
  | _ => true
  end.

Lemma before_login_inner {A} (m : M A) :
  within before_login before_login_port m -> within inner inner_port m.
Proof.
  apply within_weaken.
  - intros [| | [] | [] | | | | | |]; simpl; congruence.
  - intros [[]| | | | | | | | |]; simpl; congruence.
Qed.

Lemma V1_getPuzzleId_footprint appId :
  within before_login before_login_port (V1.getPuzzleId appId).
Proof. unfold V1.getPuzzleId. unfold_helpers. footprint. Qed.

Lemma V1_getPuzzleImage_footprint puzzleId appId :
  within before_login before_login_port (V1.getPuzzleImage puzzleId appId).
Proof. unfold V1.getPuzzleImage. unfold_helpers. footprint. Qed.

Lemma V1_processCaptcha_footprint image :
  within before_login before_login_port (V1.processCaptcha image).
Proof. unfold V1.processCaptcha, V1.saveCaptchaImage. unfold_helpers. footprint. Qed.

Lemma V1_getUserPoints_footprint token appId :
  within inner inner_port (V1.getUserPoints token appId).
Proof. unfold V1.getUserPoints. unfold_helpers. footprint. Qed.

Lemma V3_getPuzzleId_footprint appId :
  within before_login before_login_port (V3.getPuzzleId appId).
Proof. unfold V3.getPuzzleId, V3.getPuzzleId_try. unfold_helpers. footprint. Qed.

Lemma V3_getPuzzleImage_footprint puzzleId appId :
  within before_login before_login_port (V3.getPuzzleImage puzzleId appId).
Proof. unfold V3.getPuzzleImage, V3.getPuzzleImage_try. unfold_helpers. footprint. Qed.

Lemma V3_processCaptcha_footprint image :
  within before_login before_login_port (V3.processCaptcha image).
Proof. unfold V3.processCaptcha, V3.processCaptcha_try. unfold_helpers. footprint. Qed.

Lemma V3_getUserPoints_footprint token appId :
  within inner inner_port (V3.getUserPoints token appId).
Proof. unfold V3.getUserPoints, V3.getUserPoints_try. unfold_helpers. footprint. Qed.

Lemma V4_getPuzzleId_footprint appId :
  within before_login before_login_port (V4.getPuzzleId appId).
Proof. unfold V4.getPuzzleId. unfold_helpers. footprint. Qed.

Lemma V4_getPuzzleImage_footprint puzzleId appId :
  within before_login before_login_port (V4.getPuzzleImage puzzleId appId).
Proof. unfold V4.getPuzzleImage. unfold_helpers. footprint. Qed.

Lemma V4_processCaptcha_footprint image :
  within before_login before_login_port (V4.processCaptcha image).
Proof. unfold V4.processCaptcha, V4.saveCaptchaImage. unfold_helpers. footprint. Qed.

Lemma V4_getUserPoints_footprint token appId :
  within inner inner_port (V4.getUserPoints token appId).
Proof. unfold V4.getUserPoints. unfold_helpers. footprint. Qed.

(* ================================================================== *)
(** ** Projections of a trace *)

(** The events that are not [inner]: result lines, status messages and the
    pauses of the login and batch loops. *)
Definition significant (evs : list Event) : list Event :=
  filter (fun e => negb (inner e)) evs.

(** Result lines and pauses between accounts. *)
Definition batch_event (e : Event) : bool :=
  match e with
  | AppendFile _ _ | Sleep AtBatch _ => true
  | _ => false
  end.

Definition batch_view (evs : list Event) : list Event := filter batch_event evs.

Lemma significant_app e1 e2 :
  significant (e1 ++ e2) = (significant e1 ++ significant e2)%list.
Proof. apply filter_app. Qed.

Lemma significant_inner evs :
  Forall (fun e => inner e = true) evs -> significant evs = [].
Proof.
  induction 1 as [|e evs He _ IH]; [reflexivity|].
  simpl. rewrite He. exact IH.
Qed.

Lemma records_app e1 e2 : records (e1 ++ e2) = (records e1 ++ records e2)%list.
Proof.
  induction e1 as [|e e1 IH]; [reflexivity|].
  destruct e; simpl; rewrite ?IH; reflexivity.
Qed.

Lemma notices_app e1 e2 : notices (e1 ++ e2) = (notices e1 ++ notices e2)%list.
Proof.
  induction e1 as [|e e1 IH]; [reflexivity|].
  destruct e; simpl; rewrite ?IH; reflexivity.
Qed.

Lemma pauses_app site e1 e2 :
  pauses site (e1 ++ e2) = (pauses site e1 ++ pauses site e2)%list.
Proof.
  induction e1 as [|e e1 IH]; [reflexivity|].
  destruct e; simpl; rewrite ?IH; try reflexivity.
  destruct (Site_eqb site0 site); simpl; rewrite ?IH; reflexivity.
Qed.

Lemma fetches_app ep e1 e2 :
  fetches ep (e1 ++ e2) = fetches ep e1 + fetches ep e2.
Proof.
  induction e1 as [|e e1 IH]; [reflexivity|].
  destruct e; simpl; rewrite ?IH; try reflexivity. lia.
Qed.

Lemma batch_view_app e1 e2 :
  batch_view (e1 ++ e2) = (batch_view e1 ++ batch_view e2)%list.
Proof. apply filter_app. Qed.

Lemma records_significant evs : records (significant evs) = records evs.
Proof.
  induction evs as [|e evs IH]; [reflexivity|].
  destruct e as [| | | [] | | | | | |]; simpl; rewrite ?IH; reflexivity.
Qed.

Lemma notices_significant evs : notices (significant evs) = notices evs.
Proof.
  induction evs as [|e evs IH]; [reflexivity|].
  destruct e as [| | | [] | | | | | |]; simpl; rewrite ?IH; reflexivity.
Qed.

Lemma pauses_AtLogin_significant evs :
  pauses AtLogin (significant evs) = pauses AtLogin evs.
Proof.
  induction evs as [|e evs IH]; [reflexivity|].
  destruct e as [| | | [] | | | | | |]; simpl; rewrite ?IH; reflexivity.
Qed.

Lemma batch_view_significant evs : batch_view (significant evs) = batch_view evs.
Proof.
  induction evs as [|e evs IH]; [reflexivity|].
  destruct e as [| | | [] | | | | | |]; simpl; rewrite ?IH; reflexivity.
Qed.

Lemma before_login_quiet evs :
  Forall (fun e => before_login e = true) evs ->
  significant evs = [] /\ fetches GetPoint evs = 0 /\ fetches Login evs = 0.
Proof.
  induction 1 as [|e evs He _ (IH1 & IH2 & IH3)]; [repeat split|].
  destruct e as [| | [] | [] | | | | | |]; simpl in *;
    try discriminate; repeat split; assumption.
Qed.

(* ================================================================== *)
(** ** Sequencing under a footprint *)

Definition any_port (p : Port) : bool := true.

Lemma within_any_port (a : Event -> bool) (t : Port -> bool) {A} (m : M A) :
  within a t m -> within a any_port m.
Proof. apply within_weaken; auto. Qed.

(** To establish [Phi] for [m ;; f] when [m] stays within a footprint: [Phi]
    holds when [m] throws, and [Phi] for the continuation extends backwards
    over the events of [m]. *)
Lemma bind_rule (a : Event -> bool) (t : Port -> bool) {A B}
    (Phi : State -> Result B -> Prop) (m : M A) (f : A -> M B) env :
  within a t m ->
  (forall st st1 e1 e, step_ok a t st st1 e1 -> Phi st (Throw e, st1, e1)) ->
  (forall st st1 e1 r, step_ok a t st st1 e1 -> Phi st1 r -> Phi st (prefixed e1 r)) ->
  (forall x st1, Phi st1 (f x env st1)) ->
  forall st, Phi st (bind m f env st).
Proof.
  intros Hm Hthrow Hprefix Hf st. rewrite bind_run.
  destruct (Hm env st) as [Hs Hd].
  destruct (outcome (m env st)) as [x|e|]; [| |congruence].
  - apply Hprefix with (st1 := final (m env st)); [exact Hs | apply Hf].
  - apply Hthrow. exact Hs.
Qed.

Lemma generateAppId_loop_footprint n : forall appId,
  within inner any_port (generateAppId_loop n appId).
Proof.
  induction n as [|n IH]; intros appId; simpl.
  - apply within_ret.
  - apply within_bind; [apply within_ask; reflexivity | intros r; apply IH].
Qed.

Lemma generateAppId_footprint : within inner any_port generateAppId.
Proof. apply generateAppId_loop_footprint. Qed.

Lemma same_config_refl st : same_config st st.
Proof. repeat split. Qed.

Lemma same_config_trans st st1 st2 :
  same_config st st1 -> same_config st1 st2 -> same_config st st2.
Proof.
  intros (M1 & U1 & L1 & B1 & C1) (M2 & U2 & L2 & B2 & C2).
  repeat split; congruence.
Qed.

(* ================================================================== *)
(** ** The captcha solver gateway (C8) *)

(** C8, as the code has it. Once the image is saved, the Telegram relay and
    the Gemini backend return the reply with the whitespace at both ends
    removed and every other character as received; manual entry returns the
    typed line, 2captcha the [data] of the service's result and Anti-Captcha
    the service's result, each exactly as received. *)
Theorem processCaptcha_backends env st image :
  saveImage env (calls st PSaveImage) = None ->
  (model st = "telegram" ->
   sendPhoto env (calls st PSendPhoto) = None ->
   forall text, reply env (calls st PReply) = Some text ->
     outcome (V4.processCaptcha image env st) = Return (JStr (trim text))) /\
  (model st = "gemini" ->
   forall text, generateContent env (calls st PGemini) = inr text ->
     outcome (V4.processCaptcha image env st) = Return (JStr (trim text))) /\
  (model st = "manual" ->
   outcome (V4.processCaptcha image env st)
     = Return (JStr (answers env (calls st PQuestion))) /\
   outcome (V1.processCaptcha image env st)
     = Return (JStr (answers env (calls st PQuestion)))) /\
  (model st = "2captcha" ->
   forall result v,
     imageCaptcha env (calls st PImageCaptcha) = inr result ->
     js_get result "data" = inr v ->
     outcome (V4.processCaptcha image env st) = Return v /\
     outcome (V1.processCaptcha image env st) = Return v) /\
  (model st <> "manual" -> model st <> "2captcha" ->
   forall v, solveImage env (calls st PSolveImage) = inr v ->
     outcome (V1.processCaptcha image env st) = Return v) /\
  (forall text,
     no_edge_whitespace (trim text) /\
     exists pre post,
       text = pre ++ trim text ++ post /\ all_whitespace pre /\ all_whitespace post).
Proof.
  intros Hsave.
  unfold V4.processCaptcha, V1.processCaptcha, V4.saveCaptchaImage,
    V1.saveCaptchaImage, outcome.
  repeat split.
  - intros Hm Hphoto text Hreply. run. rewrite Hm. simpl.
    rewrite Hsave. simpl. rewrite Hphoto. simpl. rewrite Hreply. reflexivity.
  - intros Hm text Hgen. run. rewrite Hm. simpl.
    rewrite Hsave. simpl. rewrite Hgen. reflexivity.
  - run. rewrite H. simpl. rewrite Hsave. reflexivity.
  - run. rewrite H. simpl. rewrite Hsave. reflexivity.
  - run. rewrite H. simpl. rewrite H0. simpl. rewrite H1. reflexivity.
  - run. rewrite H. simpl. rewrite H0. simpl. rewrite H1. reflexivity.
  - intros Hm1 Hm2 v Hsolve. run.
    destruct (model st =? "manual")%string eqn:E1;
      [apply String.eqb_eq in E1; congruence|].
    destruct (model st =? "2captcha")%string eqn:E2;
      [apply String.eqb_eq in E2; congruence|].
    simpl. rewrite Hsolve. reflexivity.
  - apply trim_no_edge_whitespace.
  - apply trim_no_edge_whitespace.
  - apply trim_decomp.
Qed.

Lemma processCaptcha_backends_demo :
  outcome (V4.processCaptcha (JStr "iVBORw0KGgo=") (demo_env 0 five_points)
             (demo_state "telegram" [])) = Return (JStr "Qr5t").
Proof.
  exact (proj1 (processCaptcha_backends (demo_env 0 five_points)
                  (demo_state "telegram" []) (JStr "iVBORw0KGgo=") eq_refl)
           eq_refl eq_refl " Qr5t " eq_refl).
Defined.

(** Manual entry and the hosted service hand back what they got: a typed
    line [" 7x9K "] and a service answer [" 1234"] keep their blanks. *)
Lemma processCaptcha_untrimmed_backends :
  outcome (V4.processCaptcha (JStr "iVBORw0KGgo=") (demo_env 0 five_points)
             (demo_state "manual" [])) = Return (JStr " 7x9K ") /\
  outcome (V1.processCaptcha (JStr "iVBORw0KGgo=") (demo_env 0 five_points)
             (demo_state "manual" [])) = Return (JStr " 7x9K ") /\
  ~ no_edge_whitespace " 7x9K " /\
  outcome (V4.processCaptcha (JStr "iVBORw0KGgo=") (demo_env 0 five_points)
             (demo_state "2captcha" [])) = Return (JStr " 1234") /\
  ~ no_edge_whitespace " 1234".
Proof.
  repeat split; try reflexivity.
  - intros [H _]. specialize (H " "%char eq_refl). discriminate.
  - intros [H _]. specialize (H " "%char eq_refl). discriminate.
Qed.

(* ================================================================== *)
(** ** Retried sub-requests (C3) *)

(** The pauses after [failures] failed attempts: [unit_ms * 1], [unit_ms * 2], ... *)
Definition schedule (unit_ms : Z) (failures : nat) : list Q :=
  map (fun k => inject_Z (unit_ms * Z.of_nat k)) (seq 1 failures).

Definition fails {A} (a : string + A) : Prop :=
  match a with inl _ => True | inr _ => False end.

(** A call is retried three times at most: [answer i] is what the i-th
    attempt (from 0) comes to, its value or the error it throws. The first
    value is returned after as many attempts, with the pauses of the schedule
    in between; after three failures the call ends as [exhausted] makes of
    the third error, without a third pause. *)
Definition retried {A} (answer : nat -> string + A) (unit_ms : Z)
    (attempts : nat) (slept : list Q) (o : Outcome A)
    (exhausted : string -> Outcome A) : Prop :=
  (forall j v, j < 3 ->
     (forall i, i < j -> fails (answer i)) -> answer j = inr v ->
     o = Return v /\ attempts = j + 1 /\ slept = schedule unit_ms j) /\
  (forall e, fails (answer 0) -> fails (answer 1) -> answer 2 = inl e ->
     o = exhausted e /\ attempts = 3 /\ slept = schedule unit_ms 2).

Lemma retried_intro {A} (answer : nat -> string + A) unit_ms attempts slept o exhausted :
  match answer 0, answer 1, answer 2 with
  | inr v, _, _ => o = Return v /\ attempts = 1 /\ slept = schedule unit_ms 0
  | inl _, inr v, _ => o = Return v /\ attempts = 2 /\ slept = schedule unit_ms 1
  | inl _, inl _, inr v => o = Return v /\ attempts = 3 /\ slept = schedule unit_ms 2
  | inl _, inl _, inl e => o = exhausted e /\ attempts = 3 /\ slept = schedule unit_ms 2
  end ->
  retried answer unit_ms attempts slept o exhausted.
Proof.
  intros H. split.
  - intros j v Hj Hfail Hv.
    destruct j as [|[|[|j]]]; [| | |lia].
    + rewrite Hv in H. exact H.
    + pose proof (Hfail 0 ltac:(lia)) as F0.
      destruct (answer 0); [|contradiction]. rewrite Hv in H. exact H.
    + pose proof (Hfail 0 ltac:(lia)) as F0. pose proof (Hfail 1 ltac:(lia)) as F1.
      destruct (answer 0); [|contradiction]. destruct (answer 1); [|contradiction].
      rewrite Hv in H. exact H.
  - intros e F0 F1 He.
    destruct (answer 0); [|contradiction]. destruct (answer 1); [|contradiction].
    rewrite He in H. exact H.
Qed.

(** A retried call returns a value or ends as [exhausted] says. *)
Lemma retried_ends {A} (answer : nat -> string + A) unit_ms attempts slept o exhausted :
  retried answer unit_ms attempts slept o exhausted ->
  (exists v, o = Return v) \/ (exists e, o = exhausted e).
Proof.
  intros [Hfirst Hnone].
  destruct (answer 0) as [e0|v] eqn:A0.
  2:{ left. exists v. apply (Hfirst 0 v); [lia | intros i Hi; lia | exact A0]. }
  destruct (answer 1) as [e1|v] eqn:A1.
  2:{ left. exists v. apply (Hfirst 1 v); [lia | | exact A1].
      intros i Hi. replace i with 0 by lia. rewrite A0. exact I. }
  destruct (answer 2) as [e2|v] eqn:A2.
  2:{ left. exists v. apply (Hfirst 2 v); [lia | | exact A2].
      intros i Hi. destruct i as [|[|i]]; [rewrite A0 | rewrite A1 | lia]; exact I. }
  right. exists e2. exact (proj1 (Hnone e2 I I eq_refl)).
Qed.

Definition map_outcome {A B} (g : A -> B) (o : Outcome A) : Outcome B :=
  match o with
  | Return a => Return (g a)
  | Throw e => Throw e
  | Diverge => Diverge
  end.

Lemma bind_ret_run {A B} (m : M A) (g : A -> B) env st :
  bind m (fun r => ret (g r)) env st =
  (map_outcome g (outcome (m env st)), final (m env st), events (m env st)).
Proof.
  unfold bind, ret, outcome, final, events.
  destruct (m env st) as [[[a|e|] st1] e1]; simpl; try reflexivity.
  rewrite app_nil_r. reflexivity.
Qed.

Section Retry.

Context {A : Type}.
Variable attempt : M (option A).
Variable handler : nat -> string -> M (option A).
Variable inv : Env -> State -> Prop.
Variable port : Port.
Variable answer : Env -> nat -> string + A.
Variable count : list Event -> nat.
Variable site : Site.
Variable unit_ms : Z.
Variable exhausted : string -> Outcome (option A).

Hypothesis count_app : forall a b, count (a ++ b)%list = count a + count b.

Hypothesis attempt_spec : forall env st, inv env st ->
  exists st' evs,
    attempt env st =
    (match answer env (calls st port) with
     | inr v => Return (Some v)
     | inl e => Throw e
     end, st', evs) /\
    inv env st' /\ calls st' port = S (calls st port) /\
    count evs = 1 /\ pauses site evs = [].

Hypothesis retry_spec : forall k e env st, 1 <= k < 3 ->
  exists evs,
    handler k e env st = (Return None, st, evs) /\
    count evs = 0 /\ pauses site evs = [inject_Z (unit_ms * Z.of_nat k)].

Hypothesis last_spec : forall e env st,
  exists st' evs,
    handler 3 e env st = (exhausted e, st', evs) /\
    count evs = 0 /\ pauses site evs = [].

Lemma retry_table env st :
  inv env st ->
  let r := for_range 1 3 (fun k => try_catch attempt (handler k)) env st in
  let c := calls st port in
  match answer env c, answer env (c + 1), answer env (c + 2) with
  | inr v, _, _ =>
      outcome r = Return (Some v) /\ count (events r) = 1 /\
      pauses site (events r) = schedule unit_ms 0
  | inl _, inr v, _ =>
      outcome r = Return (Some v) /\ count (events r) = 2 /\
      pauses site (events r) = schedule unit_ms 1
  | inl _, inl _, inr v =>
      outcome r = Return (Some v) /\ count (events r) = 3 /\
      pauses site (events r) = schedule unit_ms 2
  | inl _, inl _, inl e =>
      outcome r = exhausted e /\ count (events r) = 3 /\
      pauses site (events r) = schedule unit_ms 2
  end.
Proof.
  intros Hinv r c. subst r c. unfold for_range. simpl for_upto.
  destruct (attempt_spec env st Hinv) as (st1 & ev1 & Ha1 & Hinv1 & Hc1 & Hn1 & Hp1).
  destruct (answer env (calls st port)) as [e1|v].
  2:{ unfold bind, try_catch, ret. rewrite Ha1. simpl.
      rewrite app_nil_r. repeat split; assumption. }
  destruct (retry_spec 1 e1 env st1) as (w1 & Hh1 & Hwn1 & Hwp1); [lia|].
  destruct (attempt_spec env st1 Hinv1) as (st2 & ev2 & Ha2 & Hinv2 & Hc2 & Hn2 & Hp2).
  rewrite Hc1 in Ha2, Hc2. replace (calls st port + 1) with (S (calls st port)) by lia.
  destruct (answer env (S (calls st port))) as [e2|v].
  2:{ unfold bind, try_catch, ret. rewrite Ha1, Hh1. simpl. rewrite Ha2. simpl.
      rewrite app_nil_r, !count_app, !pauses_app, Hn1, Hn2, Hwn1, Hp1, Hp2, Hwp1.
      repeat split. }
  destruct (retry_spec 2 e2 env st2) as (w2 & Hh2 & Hwn2 & Hwp2); [lia|].
  destruct (attempt_spec env st2 Hinv2) as (st3 & ev3 & Ha3 & Hinv3 & Hc3 & Hn3 & Hp3).
  rewrite Hc2 in Ha3. replace (calls st port + 2) with (S (S (calls st port))) by lia.
  destruct (answer env (S (S (calls st port)))) as [e3|v].
  2:{ unfold bind, try_catch, ret. rewrite Ha1, Hh1. simpl. rewrite Ha2, Hh2. simpl.
      rewrite Ha3. simpl.
      rewrite app_nil_r, !count_app, !pauses_app,
        Hn1, Hn2, Hn3, Hwn1, Hwn2, Hp1, Hp2, Hp3, Hwp1, Hwp2.
      repeat split. }
  destruct (last_spec e3 env st3) as (st4 & w3 & Hh3 & Hwn3 & Hwp3).
  unfold bind, try_catch, ret. rewrite Ha1, Hh1. simpl. rewrite Ha2, Hh2. simpl.
  rewrite Ha3, Hh3. simpl.
  destruct (exhausted e3) as [[v|]|e|]; simpl;
    rewrite ?app_nil_r, !count_app, !pauses_app,
      Hn1, Hn2, Hn3, Hwn1, Hwn2, Hwn3, Hp1, Hp2, Hp3, Hwp1, Hwp2, Hwp3;
    repeat split; auto.
Qed.

End Retry.

(** What one attempt makes of the environment's answer: the puzzle id, the
    image, the captcha text, the points, or the error it throws. *)
Definition field_of (key : string) (r : FetchResult) : string + JSValue :=
  match r with
  | NetError e => inl e
  | Reply response =>
      if ok response then
        match json response with
        | Some data => js_get data key
        | None => inl "invalid json response body"
        end
      else inl ("HTTP error! status: " ++ nat_to_string (status response))
  end.

Definition points_of (r : FetchResult) : string + JSValue :=
  match r with
  | NetError e => inl e
  | Reply response =>
      if ok response then
        match json response with
        | Some data =>
            match js_get data "success" with
            | inr success =>
                if js_truthy success then
                  match js_get data "data" with
                  | inr JUndefined =>
                      inl ("Cannot destructure property 'referralPoint' of "
                           ++ "'data.data' as it is undefined.")
                  | inr JNull =>
                      inl ("Cannot destructure property 'referralPoint' of "
                           ++ "'data.data' as it is null.")
                  | inl e => inl e
                  | inr payload =>
                      inr (totalPoints (js_get_opt payload "referralPoint")
                                       (js_get_opt payload "rewardPoint"))
                  end
                else inr (JNum 0)
            | inl e => inl e
            end
        | None => inl "invalid json response body"
        end
      else inl ("HTTP error! status: " ++ nat_to_string (status response))
  end.

(** The points that the answer carries, when the query succeeds. *)
Definition points_in (r : FetchResult) : option JSValue :=
  match r with
  | NetError _ => None
  | Reply response =>
      if ok response then
        match json response with
        | Some data =>
            match js_get data "success" with
            | inr success =>
                if js_truthy success then
                  match js_get data "data" with
                  | inr JUndefined | inr JNull | inl _ => None
                  | inr payload =>
                      Some (totalPoints (js_get_opt payload "referralPoint")
                                        (js_get_opt payload "rewardPoint"))
                  end
                else Some (JNum 0)
            | inl _ => None
            end
        | None => None
        end
      else None
  end.

Lemma points_in_of r :
  points_in r = match points_of r with inr v => Some v | inl _ => None end.
Proof.
  destruct r as [e|[o s [data|]]]; unfold points_in, points_of; simpl;
    [reflexivity | | destruct o; reflexivity].
  destruct o; [|reflexivity].
  destruct (js_get data "success") as [e|success]; [reflexivity|].
  destruct (js_truthy success); [|reflexivity].
  destruct (js_get data "data") as [e|[]]; reflexivity.
Qed.

Definition solver_port (solverType : string) : Port :=
  if (solverType =? "2captcha")%string then PImageCaptcha else PSolveImage.

Definition captcha_of (solverType : string) (env : Env) (n : nat) : string + JSValue :=
  if (solverType =? "2captcha")%string then
    match imageCaptcha env n with
    | inr result => js_get result "data"
    | inl e => inl e
    end
  else solveImage env n.

Fixpoint solves (evs : list Event) : nat :=
  match evs with
  | [] => 0
  | Solve _ :: r => S (solves r)
  | _ :: r => solves r
  end.

Lemma solves_app e1 e2 : solves (e1 ++ e2) = solves e1 + solves e2.
Proof.
  induction e1 as [|e e1 IH]; [reflexivity|].
  destruct e; simpl; rewrite ?IH; reflexivity.
Qed.

(** The cursor points into the pool, and with proxying on the agent
    constructors accept every entry. *)
Definition usable_pool (env : Env) (st : State) : Prop :=
  proxy_wf st /\ (useProxies st = true -> pool_accepted env st).

Lemma getProxyAgent_wf env st :
  usable_pool env st ->
  exists agent st',
    V3.getProxyAgent env st = (Return agent, st', []) /\
    usable_pool env st' /\ calls st' = calls st.
Proof.
  intros [Hwf Hok]. unfold V3.getProxyAgent.
  destruct (negb (useProxies st) || (List.length (proxyList st) =? 0)) eqn:E.
  - exists None, st. repeat split; assumption.
  - apply orb_false_elim in E. destruct E as [Hu E]. apply Nat.eqb_neq in E.
    apply negb_false_iff in Hu.
    destruct Hwf as [Hwf|Hwf]; [rewrite Hwf in E; simpl in E; congruence|].
    destruct (nth_error (proxyList st) (currentProxyIndex st)) as [proxy|] eqn:Hn;
      [|apply nth_error_None in Hn; lia].
    rewrite (proj1 (Forall_forall _ _) (Hok Hu) proxy (nth_error_In _ _ Hn)).
    eexists _, _. split; [reflexivity|].
    repeat split; [| exact Hok].
    right. simpl. apply Nat.mod_upper_bound. exact E.
Qed.

Lemma usable_pool_tick env p st : usable_pool env st -> usable_pool env (tick p st).
Proof. intros H. exact H. Qed.

Lemma proxy_wf_tick p st : proxy_wf st -> proxy_wf (tick p st).
Proof. intros H. exact H. Qed.

(** One attempt of each remote call of variant 3. *)
Lemma V3_getPuzzleId_try_spec appId env st :
  usable_pool env st ->
  exists st' evs,
    V3.getPuzzleId_try appId env st =
    (match field_of "puzzle_id" (net env GetPuzzle (calls st (PNet GetPuzzle))) with
     | inr v => Return (Some v)
     | inl e => Throw e
     end, st', evs) /\
    usable_pool env st' /\
    calls st' (PNet GetPuzzle) = S (calls st (PNet GetPuzzle)) /\
    fetches GetPuzzle evs = 1 /\ pauses AtPuzzleId evs = [].
Proof.
  intros Hwf. destruct (getProxyAgent_wf env st Hwf) as (agent & st0 & Hrun & Hwf0 & Hcalls).
  unfold V3.getPuzzleId_try. rewrite bind_run, Hrun.
  unfold prefixed, outcome, final, events. run. rewrite Hcalls.
  unfold field_of.
  destruct (net env GetPuzzle (calls st (PNet GetPuzzle))) as [msg|[o s [data|]]];
    simpl; [| destruct o; simpl; [destruct (js_get data "puzzle_id"); simpl|] | destruct o; simpl];
    eexists _, _; (split; [reflexivity|]);
    (repeat split; [apply Hwf0 | apply Hwf0 | rewrite <- Hcalls ..]); reflexivity.
Qed.

Lemma V3_getPuzzleImage_try_spec puzzleId appId env st :
  usable_pool env st ->
  exists st' evs,
    V3.getPuzzleImage_try puzzleId appId env st =
    (match field_of "imgBase64"
             (net env GetPuzzleImage (calls st (PNet GetPuzzleImage))) with
     | inr v => Return (Some v)
     | inl e => Throw e
     end, st', evs) /\
    usable_pool env st' /\
    calls st' (PNet GetPuzzleImage) = S (calls st (PNet GetPuzzleImage)) /\
    fetches GetPuzzleImage evs = 1 /\ pauses AtPuzzleImage evs = [].
Proof.
  intros Hwf. destruct (getProxyAgent_wf env st Hwf) as (agent & st0 & Hrun & Hwf0 & Hcalls).
  unfold V3.getPuzzleImage_try. rewrite bind_run, Hrun.
  unfold prefixed, outcome, final, events. run. rewrite Hcalls.
  unfold field_of.
  destruct (net env GetPuzzleImage (calls st (PNet GetPuzzleImage)))
    as [msg|[o s [data|]]];
    simpl; [| destruct o; simpl; [destruct (js_get data "imgBase64"); simpl|] | destruct o; simpl];
    eexists _, _; (split; [reflexivity|]);
    (repeat split; [apply Hwf0 | apply Hwf0 | rewrite <- Hcalls ..]); reflexivity.
Qed.

Lemma V3_getUserPoints_try_spec token appId env st :
  usable_pool env st ->
  exists st' evs,
    V3.getUserPoints_try token appId env st =
    (match points_of (net env GetPoint (calls st (PNet GetPoint))) with
     | inr v => Return (Some v)
     | inl e => Throw e
     end, st', evs) /\
    usable_pool env st' /\
    calls st' (PNet GetPoint) = S (calls st (PNet GetPoint)) /\
    fetches GetPoint evs = 1 /\ pauses AtPoints evs = [].
Proof.
  intros Hwf. destruct (getProxyAgent_wf env st Hwf) as (agent & st0 & Hrun & Hwf0 & Hcalls).
  unfold V3.getUserPoints_try. rewrite bind_run, Hrun.
  unfold prefixed, outcome, final, events. run. rewrite Hcalls.
  unfold points_of.
  destruct (net env GetPoint (calls st (PNet GetPoint))) as [msg|[o s [data|]]];
    simpl;
    [| destruct o; simpl;
       [destruct (js_get data "success") as [e|success]; simpl;
        [|destruct (js_truthy success); simpl;
          [destruct (js_get data "data") as [e|[]]; simpl|]]|]
     | destruct o; simpl];
    eexists _, _; (split; [reflexivity|]);
    (repeat split; [apply Hwf0 | apply Hwf0 | rewrite <- Hcalls ..]); reflexivity.
Qed.

Lemma V3_processCaptcha_try_spec solverType image env st :
  model st = solverType ->
  exists st' evs,
    V3.processCaptcha_try image env st =
    (match captcha_of solverType env (calls st (solver_port solverType)) with
     | inr v => Return (Some v)
     | inl e => Throw e
     end, st', evs) /\
    model st' = solverType /\
    calls st' (solver_port solverType) = S (calls st (solver_port solverType)) /\
    solves evs = 1 /\ pauses AtCaptcha evs = [].
Proof.
  intros Hm. unfold V3.processCaptcha_try, captcha_of, solver_port. run.
  rewrite Hm. destruct (solverType =? "2captcha")%string; simpl.
  - destruct (imageCaptcha env (calls st PImageCaptcha)) as [e|result]; simpl;
      [|destruct (js_get result "data"); simpl];
      eexists _, _; (split; [reflexivity|]);
      (repeat split; [exact Hm | ..]); reflexivity.
  - destruct (solveImage env (calls st PSolveImage)) as [e|v]; simpl;
      eexists _, _; (split; [reflexivity|]);
      (repeat split; [exact Hm | ..]); reflexivity.
Qed.

(** From the loop to the function around it:
    [r <- for_range 1 3 (...) ;; ret (or_undefined r)]. *)
Lemma retried_function (attempt : M (option JSValue))
    (handler : nat -> string -> M (option JSValue))
    (inv : Env -> State -> Prop) (port : Port)
    (answer : Env -> nat -> string + JSValue)
    (count : list Event -> nat) (site : Site) (unit_ms : Z)
    (exhausted : string -> Outcome (option JSValue)) :
  (forall a b, count (a ++ b)%list = count a + count b) ->
  (forall env st, inv env st ->
     exists st' evs,
       attempt env st =
       (match answer env (calls st port) with
        | inr v => Return (Some v)
        | inl e => Throw e
        end, st', evs) /\
       inv env st' /\ calls st' port = S (calls st port) /\
       count evs = 1 /\ pauses site evs = []) ->
  (forall k e env st, 1 <= k < 3 ->
     exists evs,
       handler k e env st = (Return None, st, evs) /\
       count evs = 0 /\ pauses site evs = [inject_Z (unit_ms * Z.of_nat k)]) ->
  (forall e env st,
     exists st' evs,
       handler 3 e env st = (exhausted e, st', evs) /\
       count evs = 0 /\ pauses site evs = []) ->
  forall env st, inv env st ->
    let r := bind (for_range 1 3 (fun k => try_catch attempt (handler k)))
               (fun r => ret (or_undefined r)) env st in
    retried (fun i => answer env (calls st port + i)) unit_ms
      (count (events r)) (pauses site (events r)) (outcome r)
      (fun e => map_outcome or_undefined (exhausted e)).
Proof.
  intros Happ Hatt Hretry Hlast env st Hinv r. subst r.
  rewrite bind_ret_run. unfold outcome at 1, events at 1 2. simpl fst. simpl snd.
  pose proof (retry_table attempt handler inv port answer count site unit_ms
                exhausted Happ Hatt Hretry Hlast env st Hinv) as T.
  simpl in T. apply retried_intro. rewrite Nat.add_0_r.
  destruct (answer env (calls st port)) as [e1|v].
  2:{ destruct T as (-> & T2 & T3). repeat split; assumption. }
  destruct (answer env (calls st port + 1)) as [e2|v].
  2:{ destruct T as (-> & T2 & T3). repeat split; assumption. }
  destruct (answer env (calls st port + 2)) as [e3|v].
  2:{ destruct T as (-> & T2 & T3). repeat split; assumption. }
  destruct T as (-> & T2 & T3). repeat split; assumption.
Qed.

Ltac handler_cases k :=
  destruct k as [|[|[|k]]]; [lia | | | lia];
  (eexists; split; [reflexivity | split; reflexivity]).

(** What ends a call of variant 3 (and of variants 2 and 4) when the third
    attempt has thrown [e]. *)
Definition gives_up (what e : string) : Outcome JSValue :=
  Throw ("Failed to " ++ what ++ " after 3 attempts: " ++ e).

Lemma V3_getPuzzleId_retried env st appId :
  usable_pool env st ->
  let r := V3.getPuzzleId appId env st in
  retried (fun i => field_of "puzzle_id"
                      (net env GetPuzzle (calls st (PNet GetPuzzle) + i)))
    1000 (fetches GetPuzzle (events r)) (pauses AtPuzzleId (events r))
    (outcome r) (gives_up "get puzzle ID").
Proof.
  unfold V3.getPuzzleId.
  apply retried_function
    with (inv := usable_pool)
         (exhausted := fun e => Throw ("Failed to get puzzle ID after 3 attempts: " ++ e))
         (answer := fun env n => field_of "puzzle_id" (net env GetPuzzle n)).
  - apply fetches_app.
  - intros env' st' H. apply V3_getPuzzleId_try_spec. exact H.
  - intros k e env' st' Hk. handler_cases k.
  - intros e env' st'. eexists _, _. split; [reflexivity|]. split; reflexivity.
Qed.

Lemma V3_getPuzzleImage_retried env st puzzleId appId :
  usable_pool env st ->
  let r := V3.getPuzzleImage puzzleId appId env st in
  retried (fun i => field_of "imgBase64"
                      (net env GetPuzzleImage (calls st (PNet GetPuzzleImage) + i)))
    1000 (fetches GetPuzzleImage (events r)) (pauses AtPuzzleImage (events r))
    (outcome r) (gives_up "get puzzle image").
Proof.
  unfold V3.getPuzzleImage.
  apply retried_function
    with (inv := usable_pool)
         (exhausted := fun e => Throw ("Failed to get puzzle image after 3 attempts: " ++ e))
         (answer := fun env n => field_of "imgBase64" (net env GetPuzzleImage n)).
  - apply fetches_app.
  - intros env' st' H. apply V3_getPuzzleImage_try_spec. exact H.
  - intros k e env' st' Hk. handler_cases k.
  - intros e env' st'. eexists _, _. split; [reflexivity|]. split; reflexivity.
Qed.

Lemma V3_processCaptcha_retried env st image :
  let r := V3.processCaptcha image env st in
  retried (fun i => captcha_of (model st) env
                      (calls st (solver_port (model st)) + i))
    2000 (solves (events r)) (pauses AtCaptcha (events r))
    (outcome r) (gives_up "solve captcha").
Proof.
  unfold V3.processCaptcha.
  apply retried_function
    with (inv := fun _ st' => model st' = model st)
         (exhausted := fun e => Throw ("Failed to solve captcha after 3 attempts: " ++ e))
         (answer := captcha_of (model st)); [| | | |reflexivity].
  - apply solves_app.
  - intros env' st' H. apply V3_processCaptcha_try_spec. exact H.
  - intros k e env' st' Hk. handler_cases k.
  - intros e env' st'. eexists _, _. split; [reflexivity|]. split; reflexivity.
Qed.

Lemma V3_getUserPoints_retried env st token appId :
  usable_pool env st ->
  let r := V3.getUserPoints token appId env st in
  retried (fun i => points_of (net env GetPoint (calls st (PNet GetPoint) + i)))
    1000 (fetches GetPoint (events r)) (pauses AtPoints (events r))
    (outcome r) (fun _ => Return (JNum 0)).
Proof.
  unfold V3.getUserPoints.
  apply retried_function
    with (inv := usable_pool) (exhausted := fun _ => Return (Some (JNum 0)))
         (answer := fun env n => points_of (net env GetPoint n)).
  - apply fetches_app.
  - intros env' st' H. apply V3_getUserPoints_try_spec. exact H.
  - intros k e env' st' Hk. handler_cases k.
  - intros e env' st'. eexists _, _. split; [reflexivity|]. split; reflexivity.
Qed.

(** *** The same calls in variant 1 *)

(** The [try] blocks of [getPuzzleId] and [getPuzzleImage] of variant 1,
    lines 80-91 and 124-135. *)
Definition V1_getPuzzleId_try (appId : string) : M (option JSValue) :=
  response <- fetch GetPuzzle (puzzle_url appId) None ;;
  check_ok response ;;
  data <- response_json response ;;
  puzzle_id <- lift (js_get data "puzzle_id") ;;
  spinner SpinSucceed ("Got puzzle ID: " ++ js_to_string puzzle_id) ;;
  ret (Some puzzle_id).

Definition V1_getPuzzleImage_try (puzzleId : JSValue) (appId : string)
    : M (option JSValue) :=
  response <- fetch GetPuzzleImage (image_url puzzleId appId) None ;;
  check_ok response ;;
  data <- response_json response ;;
  spinner SpinSucceed "Got puzzle image" ;;
  imgBase64 <- lift (js_get data "imgBase64") ;;
  ret (Some imgBase64).

(** One attempt without proxy: it gets what the reply carries, or throws. *)
Definition attempt_gets (attempt : M (option JSValue)) (ep : Endpoint)
    (key : string) (site : Site) : Prop :=
  forall env st,
  exists st' evs,
    attempt env st =
    (match field_of key (net env ep (calls st (PNet ep))) with
     | inr v => Return (Some v)
     | inl e => Throw e
     end, st', evs) /\
    calls st' (PNet ep) = S (calls st (PNet ep)) /\
    fetches ep evs = 1 /\ pauses site evs = [].

Ltac attempt_cases ep key :=
  intros env st; run; unfold field_of;
  destruct (net env ep (calls st (PNet ep))) as [msg|[o s [data|]]];
    simpl; [| destruct o; simpl; [destruct (js_get data key); simpl|] | destruct o; simpl];
    eexists _, _; (split; [reflexivity|]);
    repeat split; reflexivity.

Lemma V1_getPuzzleId_try_gets appId :
  attempt_gets (V1_getPuzzleId_try appId) GetPuzzle "puzzle_id" AtPuzzleId.
Proof. unfold V1_getPuzzleId_try. attempt_cases GetPuzzle "puzzle_id". Qed.

Lemma V1_getPuzzleImage_try_gets puzzleId appId :
  attempt_gets (V1_getPuzzleImage_try puzzleId appId) GetPuzzleImage "imgBase64"
    AtPuzzleImage.
Proof. unfold V1_getPuzzleImage_try. attempt_cases GetPuzzleImage "imgBase64". Qed.

(** A puzzle request retried as the code has it: three attempts at most,
    pauses of 1000 ms x attempt number in between. *)
Definition puzzle_retried (ep : Endpoint) (key : string) (site : Site)
    (env : Env) (st : State) (r : Result JSValue)
    (exhausted : string -> Outcome JSValue) : Prop :=
  retried (fun i => field_of key (net env ep (calls st (PNet ep) + i)))
    1000 (fetches ep (events r)) (pauses site (events r)) (outcome r) exhausted.

Lemma retried_loop ep key site attempt handler exhausted env st :
  attempt_gets attempt ep key site ->
  (forall k e env st, 1 <= k < 3 ->
     exists evs,
       handler k e env st = (Return None, st, evs) /\
       fetches ep evs = 0 /\ pauses site evs = [inject_Z (1000 * Z.of_nat k)]) ->
  (forall e env st,
     exists st' evs,
       handler 3 e env st = (exhausted e, st', evs) /\
       fetches ep evs = 0 /\ pauses site evs = []) ->
  puzzle_retried ep key site env st
    (bind (for_range 1 3 (fun k => try_catch attempt (handler k)))
       (fun r => ret (or_undefined r)) env st)
    (fun e => map_outcome or_undefined (exhausted e)).
Proof.
  intros Ha Hh Hl. unfold puzzle_retried.
  apply retried_function
    with (inv := fun _ _ => True) (exhausted := exhausted)
         (answer := fun env n => field_of key (net env ep n));
    [| | | |exact I]; try assumption.
  - apply fetches_app.
  - intros env' st' _. destruct (Ha env' st') as (st1 & evs & H1 & H2 & H3 & H4).
    exists st1, evs. repeat split; assumption.
Qed.

Lemma puzzle_retried_spinner ep key site env st text (m : M JSValue) exhausted :
  puzzle_retried ep key site env st (m env st) exhausted ->
  puzzle_retried ep key site env st ((spinner SpinStart text ;; m) env st) exhausted.
Proof.
  intros H. unfold puzzle_retried in *. rewrite bind_run. exact H.
Qed.

(** Variant 1 throws the third error as it is. *)
Definition rethrown (e : string) : Outcome JSValue := Throw e.

Lemma V1_getPuzzleId_retried env st appId :
  puzzle_retried GetPuzzle "puzzle_id" AtPuzzleId env st
    (V1.getPuzzleId appId env st) rethrown.
Proof.
  unfold V1.getPuzzleId. apply puzzle_retried_spinner.
  apply retried_loop
    with (attempt := V1_getPuzzleId_try appId) (exhausted := fun e => Throw e).
  - apply V1_getPuzzleId_try_gets.
  - intros k e env' st' Hk. handler_cases k.
  - intros e env' st'. eexists _, _. split; [reflexivity|]. split; reflexivity.
Qed.

Lemma V1_getPuzzleImage_retried env st puzzleId appId :
  puzzle_retried GetPuzzleImage "imgBase64" AtPuzzleImage env st
    (V1.getPuzzleImage puzzleId appId env st) rethrown.
Proof.
  unfold V1.getPuzzleImage. apply puzzle_retried_spinner.
  apply retried_loop
    with (attempt := V1_getPuzzleImage_try puzzleId appId) (exhausted := fun e => Throw e).
  - apply V1_getPuzzleImage_try_gets.
  - intros k e env' st' Hk. handler_cases k.
  - intros e env' st'. eexists _, _. split; [reflexivity|]. split; reflexivity.
Qed.

(** A call made once: one request or solver call, no pause; its value, or
    what [failed] makes of the error. *)
Definition once {A} (answer : string + A) (made : nat) (slept : list Q)
    (o : Outcome A) (failed : string -> Outcome A) : Prop :=
  made = 1 /\ slept = [] /\
  o = match answer with inr v => Return v | inl e => failed e end.

(** Variant 1 asks the solving service once, and throws its error on. *)
Lemma V1_processCaptcha_once env st image :
  model st <> "manual" ->
  let r := V1.processCaptcha image env st in
  once (captcha_of (model st) env (calls st (solver_port (model st))))
    (solves (events r)) (pauses AtCaptcha (events r)) (outcome r) rethrown.
Proof.
  intros Hm. unfold captcha_of, solver_port, V1.processCaptcha, once, rethrown.
  run. destruct (model st =? "manual")%string eqn:E;
    [apply String.eqb_eq in E; congruence|].
  destruct (model st =? "2captcha")%string; simpl.
  - destruct (imageCaptcha env (calls st PImageCaptcha)) as [e|result]; simpl;
      [|destruct (js_get result "data"); simpl];
      repeat split; reflexivity.
  - destruct (solveImage env (calls st PSolveImage)) as [e|v]; simpl;
      repeat split; reflexivity.
Qed.

(** Variant 1 queries the points once, and takes a failure for 0 points. *)
Lemma V1_getUserPoints_once env st token appId :
  let r := V1.getUserPoints token appId env st in
  once (points_of (net env GetPoint (calls st (PNet GetPoint))))
    (fetches GetPoint (events r)) (pauses AtPoints (events r)) (outcome r)
    (fun _ => Return (JNum 0)).
Proof.
  unfold V1.getUserPoints, points_of, once. run.
  destruct (net env GetPoint (calls st (PNet GetPoint))) as [msg|[o s [data|]]];
    simpl;
    [| destruct o; simpl;
       [destruct (js_get data "success") as [e|success]; simpl;
        [|destruct (js_truthy success); simpl;
          [destruct (js_get data "data") as [e|[]]; simpl|]]|]
     | destruct o; simpl];
    repeat split; reflexivity.
Qed.

(** The retry policy of the remote calls, as the code has it. *)
Definition retry_policy (env : Env) (st : State) (appId : string)
    (puzzleId image token : JSValue) : Prop :=
  (usable_pool env st ->
   (let r := V3.getPuzzleId appId env st in
    retried (fun i => field_of "puzzle_id"
                        (net env GetPuzzle (calls st (PNet GetPuzzle) + i)))
      1000 (fetches GetPuzzle (events r)) (pauses AtPuzzleId (events r))
      (outcome r) (gives_up "get puzzle ID")) /\
   (let r := V3.getPuzzleImage puzzleId appId env st in
    retried (fun i => field_of "imgBase64"
                        (net env GetPuzzleImage (calls st (PNet GetPuzzleImage) + i)))
      1000 (fetches GetPuzzleImage (events r)) (pauses AtPuzzleImage (events r))
      (outcome r) (gives_up "get puzzle image")) /\
   (let r := V3.getUserPoints token appId env st in
    retried (fun i => points_of (net env GetPoint (calls st (PNet GetPoint) + i)))
      1000 (fetches GetPoint (events r)) (pauses AtPoints (events r))
      (outcome r) (fun _ => Return (JNum 0)))) /\
  (let r := V3.processCaptcha image env st in
   retried (fun i => captcha_of (model st) env
                       (calls st (solver_port (model st)) + i))
     2000 (solves (events r)) (pauses AtCaptcha (events r))
     (outcome r) (gives_up "solve captcha")) /\
  (let r := V1.getPuzzleId appId env st in
   retried (fun i => field_of "puzzle_id"
                       (net env GetPuzzle (calls st (PNet GetPuzzle) + i)))
     1000 (fetches GetPuzzle (events r)) (pauses AtPuzzleId (events r))
     (outcome r) rethrown) /\
  (let r := V1.getPuzzleImage puzzleId appId env st in
   retried (fun i => field_of "imgBase64"
                       (net env GetPuzzleImage (calls st (PNet GetPuzzleImage) + i)))
     1000 (fetches GetPuzzleImage (events r)) (pauses AtPuzzleImage (events r))
     (outcome r) rethrown) /\
  (model st <> "manual" ->
   let r := V1.processCaptcha image env st in
   once (captcha_of (model st) env (calls st (solver_port (model st))))
     (solves (events r)) (pauses AtCaptcha (events r)) (outcome r) rethrown) /\
  (let r := V1.getUserPoints token appId env st in
   once (points_of (net env GetPoint (calls st (PNet GetPoint))))
     (fetches GetPoint (events r)) (pauses AtPoints (events r)) (outcome r)
     (fun _ => Return (JNum 0))).

(** C3, as the code has it. In variant 3 each of the four remote calls is
    tried three times at most, pausing 1000 ms x attempt number after a
    failed attempt (2000 ms x attempt number for the captcha solver) and not
    after the third. When the third attempt fails too, fetching the puzzle
    id, fetching the image and solving the captcha throw
    [Failed to ... after 3 attempts: ] followed by the error of the third
    attempt, while the points query returns 0. (The three calls that go
    through a proxy are retried so when the proxy agent can be built: the
    cursor is within the pool, and the constructors accept its entries.)
    In variant 1 the puzzle id and the image are fetched in the same way,
    the third error being thrown as it is; the solving service and the
    points are asked once, without a pause: a failed solver call throws its
    error, a failed points query returns 0. *)
Theorem sub_requests_retried env st appId puzzleId image token :
  retry_policy env st appId puzzleId image token.
Proof.
  unfold retry_policy.
  split.
  { intros Hwf.
    split; [apply V3_getPuzzleId_retried; exact Hwf|].
    split; [apply V3_getPuzzleImage_retried; exact Hwf|].
    apply V3_getUserPoints_retried; exact Hwf. }
  split; [apply V3_processCaptcha_retried|].
  split; [apply V1_getPuzzleId_retried|].
  split; [apply V1_getPuzzleImage_retried|].
  split; [apply V1_processCaptcha_once|].
  apply V1_getUserPoints_once.
Qed.

(** An environment whose solving service always fails. *)
Definition solver_down (env : Env) : Env :=
  {| net := net env;
     random := random env;
     imageCaptcha := fun _ => inl "ERROR_CAPTCHA_UNSOLVABLE";
     solveImage := fun _ => inl "ERROR_CAPTCHA_UNSOLVABLE";
     generateContent := generateContent env;
     answers := answers env;
     saveImage := saveImage env;
     sendMessage := sendMessage env;
     sendPhoto := sendPhoto env;
     reply := reply env;
     readFile := readFile env;
     newAgent := newAgent env |}.

(** The points service is down and so is the solving service: the points
    query of variant 3 is made three times, the solver of variant 3 is
    called three times. *)
Lemma sub_requests_retried_demo :
  let env := solver_down (demo_env 0 points_down) in
  let st := demo_state "2captcha" demo_pool in
  (let r := V3.getUserPoints (JStr "tok-1") "67ab" env st in
   outcome r = Return (JNum 0) /\ fetches GetPoint (events r) = 3 /\
   pauses AtPoints (events r) = [inject_Z 1000; inject_Z 2000]) /\
  (let r := V3.processCaptcha (JStr "iVBORw0KGgo=") env st in
   outcome r = Throw ("Failed to solve captcha after 3 attempts: "
                      ++ "ERROR_CAPTCHA_UNSOLVABLE") /\
   solves (events r) = 3 /\
   pauses AtCaptcha (events r) = [inject_Z 2000; inject_Z 4000]).
Proof.
  pose proof (sub_requests_retried (solver_down (demo_env 0 points_down))
                (demo_state "2captcha" demo_pool) "67ab" (JStr "p-1")
                (JStr "iVBORw0KGgo=") (JStr "tok-1")) as (V3net & V3solver & _).
  assert (Hpool : usable_pool (solver_down (demo_env 0 points_down))
                    (demo_state "2captcha" demo_pool)).
  { split; [right; simpl; lia | intros _; repeat constructor]. }
  destruct (V3net Hpool) as (_ & _ & (_ & Hpoints)).
  destruct V3solver as (_ & Hsolver).
  split.
  - destruct (Hpoints "HTTP error! status: 500" I I eq_refl) as (Ho & Hn & Hp).
    cbv zeta. rewrite Ho, Hn, Hp. repeat split.
  - destruct (Hsolver "ERROR_CAPTCHA_UNSOLVABLE" I I eq_refl) as (Ho & Hn & Hp).
    cbv zeta. rewrite Ho, Hn, Hp. repeat split.
Defined.

(** Against the claim as stated: when all three attempts of the points query
    fail no error reaches the caller, the result is 0; and in variant 1 a
    failing solver call is made once, not three times. *)
Lemma sub_requests_not_uniform :
  (let r := V3.getUserPoints (JStr "tok-1") "67ab" (demo_env 0 points_down)
              (demo_state "2captcha" demo_pool) in
   fetches GetPoint (events r) = 3 /\
   pauses AtPoints (events r) = [inject_Z 1000; inject_Z 2000] /\
   outcome r = Return (JNum 0)) /\
  (let r := V1.processCaptcha (JStr "iVBORw0KGgo=")
              (solver_down (demo_env 0 five_points)) (demo_state "2captcha" []) in
   solves (events r) = 1 /\ pauses AtCaptcha (events r) = [] /\
   outcome r = Throw "ERROR_CAPTCHA_UNSOLVABLE").
Proof.
  split.
  - repeat split; reflexivity.
  - repeat split; reflexivity.
Qed.

(* ================================================================== *)
(** ** One login attempt *)

Lemma sub_op_footprint {A} (m : M A) :
  within before_login before_login_port m -> within inner any_port m.
Proof. intros H. apply within_any_port with (t := inner_port). apply before_login_inner. exact H. Qed.

Lemma points_footprint {A} (m : M A) :
  within inner inner_port m -> within inner any_port m.
Proof. apply within_any_port. Qed.

Ltac known_footprint :=
  first
    [ apply generateAppId_footprint
    | apply points_footprint;
      first [ apply V1_getUserPoints_footprint
            | apply V3_getUserPoints_footprint
            | apply V4_getUserPoints_footprint ]
    | apply sub_op_footprint;
      first [ apply V1_getPuzzleId_footprint
            | apply V1_getPuzzleImage_footprint
            | apply V1_processCaptcha_footprint
            | apply V3_getPuzzleId_footprint
            | apply V3_getPuzzleImage_footprint
            | apply V3_processCaptcha_footprint
            | apply V4_getPuzzleId_footprint
            | apply V4_getPuzzleImage_footprint
            | apply V4_processCaptcha_footprint ]
    | unfold_helpers; footprint ].

(** What the [try] block of a login attempt leaves behind: on success the
    significant events are [good]; when it throws there are none. *)
Definition attempt_outcome (good : list Event -> Prop) (st : State)
    (r : Result bool) : Prop :=
  same_config st (final r) /\
  (proxy_wf st -> proxy_wf (final r)) /\
  match outcome r with
  | Return b => b = true /\ good (significant (events r))
  | Throw _ => significant (events r) = []
  | Diverge => False
  end.

Lemma attempt_outcome_throw good st st1 e1 e :
  step_ok inner any_port st st1 e1 ->
  attempt_outcome good st (Throw e, st1, e1).
Proof.
  intros (C & W & _ & F). repeat split; try apply C; try exact W.
  simpl. apply significant_inner. exact F.
Qed.

Lemma attempt_outcome_prefix good st st1 e1 r :
  step_ok inner any_port st st1 e1 ->
  attempt_outcome good st1 r ->
  attempt_outcome good st (prefixed e1 r).
Proof.
  intros (C & W & _ & F) (C' & W' & H).
  split; [exact (same_config_trans _ _ _ C C')|].
  split; [auto|].
  unfold prefixed. simpl outcome. simpl events.
  rewrite significant_app, (significant_inner _ F). exact H.
Qed.

(** One step of a login attempt that stays within the [inner] footprint. *)
Ltac attempt_step good :=
  apply (@bind_rule inner any_port _ _ (attempt_outcome good));
  [ known_footprint
  | apply attempt_outcome_throw
  | apply attempt_outcome_prefix
  | intros ? ? ].

Definition V1_success_line (email : string) (token : JSValue) : Event :=
  AppendFile "successful_logins.txt" (email ++ ":" ++ js_to_string token ++ nl).

Definition failure_line (email password : string) : Event :=
  AppendFile "failed_logins.txt" (email ++ ":" ++ password ++ nl).

Lemma V1_login_try_outcome email password appId env st :
  attempt_outcome (fun sig => exists token, sig = [V1_success_line email token])
    st (V1.login_try email password appId env st).
Proof.
  unfold V1.login_try.
  set (good := fun sig => exists token, sig = [V1_success_line email token]).
  revert st.
  attempt_step good. attempt_step good. attempt_step good.
  attempt_step good. attempt_step good. attempt_step good.
  destruct (ok x3).
  - attempt_step good. attempt_step good. attempt_step good.
    attempt_step good. attempt_step good.
    repeat split; auto. exists x6. reflexivity.
  - attempt_step good. repeat split; auto.
Qed.

Lemma bind_known {A B} (m : M A) (f : A -> M B) env st a st1 e1 :
  m env st = (Return a, st1, e1) ->
  bind m f env st = prefixed e1 (f a env st1).
Proof. intros H. rewrite bind_run, H. reflexivity. Qed.

Lemma outcome_prefixed {A} e (r : Result A) : outcome (prefixed e r) = outcome r.
Proof. reflexivity. Qed.

Lemma final_prefixed {A} e (r : Result A) : final (prefixed e r) = final r.
Proof. reflexivity. Qed.

Lemma events_prefixed {A} e (r : Result A) :
  events (prefixed e r) = (e ++ events r)%list.
Proof. reflexivity. Qed.

Lemma console_log_run text env st :
  console_log text env st = (Return tt, st, [Console text]).
Proof. reflexivity. Qed.

Lemma generateAppId_run env st :
  exists appId st1,
    generateAppId env st = (Return appId, st1, []) /\
    same_config st st1 /\ (proxy_wf st -> proxy_wf st1) /\
    calls st1 PRandom = calls st PRandom + 22.
Proof.
  unfold generateAppId.
  destruct (generateAppId_loop_run 22 "67" env st) as (st1 & Hrun & D).
  destruct D as (D1 & D2 & D3 & D4 & D5 & D6 & D7).
  exists ("67" ++ drawn env (calls st PRandom) 22), st1.
  split; [exact Hrun|]. split; [repeat split; assumption|]. split.
  - unfold proxy_wf. rewrite D3, D4. auto.
  - rewrite D7. reflexivity.
Qed.


Lemma handler_run (text path line : string) env st :
  (console_log text ;; appendFile path line ;; ret false) env st =
  (Return false, st, [Console text; AppendFile path line]).
Proof. reflexivity. Qed.

Lemma V1_loginAccount_record env st email password :
  let r := V1.loginAccount email password env st in
  same_config st (final r) /\
  ((outcome r = Return true /\
    exists token, significant (events r) = [V1_success_line email token]) \/
   (outcome r = Return false /\
    significant (events r) = [failure_line email password])).
Proof.
  intros r. subst r. unfold V1.loginAccount.
  destruct (generateAppId_run env st) as (appId & st1 & Hgen & C1 & _ & _).
  rewrite (@bind_known _ _ _ _ _ _ _ _ _ Hgen).
  rewrite (@bind_known _ _ _ _ _ _ _ _ _ (console_log_run (nl ++ "Processing login for " ++ email) env st1)).
  pose proof (V1_login_try_outcome email password appId env st1) as (C2 & _ & H).
  unfold try_catch.
  destruct (V1.login_try email password appId env st1) as [[o st2] ev].
  unfold outcome, final, events in C2, H. cbn [fst snd] in C2, H.
  destruct o as [b|e|]; [| |contradiction].
  - destruct H as [-> [token Hsig]].
    unfold prefixed, outcome, final, events. cbn [fst snd].
    split; [exact (same_config_trans _ _ _ C1 C2)|]. left.
    split; [reflexivity|]. exists token.
    rewrite !significant_app, Hsig. reflexivity.
  - rewrite handler_run.
    unfold prefixed, outcome, final, events. cbn [fst snd].
    split; [exact (same_config_trans _ _ _ C1 C2)|]. right.
    split; [reflexivity|].
    rewrite !significant_app, H. reflexivity.
Qed.

Definition V3_success_line (email password : string) (token points : JSValue) : Event :=
  AppendFile "successful_logins.txt"
    (email ++ ":" ++ password ++ ":" ++ js_to_string token ++ ":"
     ++ js_to_string points ++ nl).

Lemma V3_login_try_outcome email password appId env st :
  attempt_outcome
    (fun sig => exists token points, sig = [V3_success_line email password token points])
    st (V3.login_try email password appId env st).
Proof.
  unfold V3.login_try.
  set (good := fun sig => exists token points,
                 sig = [V3_success_line email password token points]).
  revert st.
  do 6 attempt_step good.
  destruct (ok x3).
  - do 5 attempt_step good.
    repeat split; auto. exists x6, x7. reflexivity.
  - attempt_step good. repeat split; auto.
Qed.

Definition every_event (e : Event) : bool := true.

Lemma V3_login_try_ports email password appId :
  within every_event inner_port (V3.login_try email password appId).
Proof.
  assert (W : forall A (m : M A), within inner inner_port m -> within every_event inner_port m).
  { intros A m. apply within_weaken; auto. }
  unfold V3.login_try.
  apply within_bind; [apply W, before_login_inner, V3_getPuzzleId_footprint | intros ?].
  apply within_bind; [apply W, before_login_inner, V3_getPuzzleImage_footprint | intros ?].
  apply within_bind; [apply W, before_login_inner, V3_processCaptcha_footprint | intros ?].
  apply within_bind; [apply within_getProxyAgent | intros ?].
  apply within_bind; [unfold_helpers; footprint | intros ?].
  apply within_bind; [unfold_helpers; footprint | intros ?].
  destruct (ok a3).
  - apply within_bind; [footprint | intros ?].
    apply within_bind; [footprint | intros ?].
    apply within_bind; [apply W, V3_getUserPoints_footprint | intros ?].
    unfold_helpers; footprint.
  - unfold_helpers; footprint.
Qed.

(** The pause after the failed login attempt [k] of variant 3. *)
Definition V3_wait (k : nat) : Event := Sleep AtLogin (inject_Z (5000 * Z.of_nat k)).

Lemma V3_round_spec email password k env st :
  1 <= k <= 3 ->
  let r := V3.loginAccount_round email password k env st in
  same_config st (final r) /\ (proxy_wf st -> proxy_wf (final r)) /\
  calls (final r) PRandom = calls st PRandom + 22 /\
  ((outcome r = Return (Some true) /\
    exists token points,
      significant (events r) = [V3_success_line email password token points]) \/
   (k = 3 /\ outcome r = Return (Some false) /\
    significant (events r) = [failure_line email password]) \/
   (k < 3 /\ outcome r = Return None /\ significant (events r) = [V3_wait k])).
Proof.
  intros Hk r. subst r. unfold V3.loginAccount_round.
  destruct (generateAppId_run env st) as (appId & st1 & Hgen & C1 & W1 & R1).
  rewrite (@bind_known _ _ _ _ _ _ _ _ _ Hgen).
  rewrite (@bind_known _ _ _ _ _ _ _ _ _ (console_log_run _ env st1)).
  pose proof (V3_login_try_outcome email password appId env st1) as (C2 & W2 & H).
  destruct (V3_login_try_ports email password appId env st1) as [(_ & _ & P2 & _) _].
  specialize (P2 PRandom eq_refl).
  unfold try_catch. rewrite bind_run.
  destruct (V3.login_try email password appId env st1) as [[o st2] ev].
  unfold outcome, final, events in C2, W2, H, P2 |- *. cbn [fst snd] in C2, W2, H, P2 |- *.
  destruct o as [b|e|]; [| |contradiction].
  - destruct H as [-> (token & points & Hsig)].
    unfold prefixed, ret, outcome, final, events. cbn [fst snd].
    split; [exact (same_config_trans _ _ _ C1 C2)|]. split; [auto|].
    split; [congruence|]. left. split; [reflexivity|].
    exists token, points. rewrite !significant_app, Hsig. reflexivity.
  - assert (Hcase : k = 3 \/ k < 3) by lia.
    destruct Hcase as [->|Hlt].
    + cbn [Nat.eqb V3.LOGIN_RETRIES].
      change ((console_log ?a ;; appendFile ?p ?l ;; ret (Some false)) env st2)
        with (Return (Some false), st2, [Console a; AppendFile p l]).
      unfold prefixed, outcome, final, events. cbn [fst snd].
      split; [exact (same_config_trans _ _ _ C1 C2)|]. split; [auto|].
      split; [congruence|]. right. left. split; [reflexivity|]. split; [reflexivity|].
      rewrite !significant_app, H. reflexivity.
    + replace (k =? V3.LOGIN_RETRIES) with false
        by (symmetry; apply Nat.eqb_neq; unfold V3.LOGIN_RETRIES; lia).
      change ((console_log ?a ;; console_log ?b ;; sleep ?s ?ms ;; ret None) env st2)
        with (@Return (option bool) None, st2,
              [Console a; Console b; Sleep s (setTimeout_ms ms)]).
      rewrite setTimeout_ms_int by lia.
      unfold prefixed, outcome, final, events. cbn [fst snd].
      split; [exact (same_config_trans _ _ _ C1 C2)|]. split; [auto|].
      split; [congruence|]. right. right. split; [exact Hlt|]. split; [reflexivity|].
      rewrite !significant_app, H. reflexivity.
Qed.

Lemma outcome_mk {A} (o : Outcome A) st e : outcome (o, st, e) = o.
Proof. reflexivity. Qed.

Lemma final_mk {A} (o : Outcome A) st e : final (o, st, e) = st.
Proof. reflexivity. Qed.

Lemma events_mk {A} (o : Outcome A) st e : events (o, st, e) = e.
Proof. reflexivity. Qed.

Lemma for_upto_step {A} n i (body : nat -> M (option A)) env st :
  for_upto (S n) i body env st =
  match outcome (body i env st) with
  | Return (Some v) => (Return (Some v), final (body i env st),
                        (events (body i env st) ++ [])%list)
  | Return None =>
      prefixed (events (body i env st))
        (for_upto n (S i) body env (final (body i env st)))
  | Throw e => (Throw e, final (body i env st), events (body i env st))
  | Diverge => (Diverge, final (body i env st), events (body i env st))
  end.
Proof.
  cbn [for_upto]. rewrite bind_run.
  destruct (outcome (body i env st)) as [[v|]| |]; reflexivity.
Qed.

(** The rounds of [V3.loginAccount] from round [k] on, [n] rounds being left. *)
Lemma V3_rounds_spec email password n : forall k env st,
  1 <= k -> 1 <= n -> k + n = 4 ->
  let r := for_upto n k (V3.loginAccount_round email password) env st in
  same_config st (final r) /\ (proxy_wf st -> proxy_wf (final r)) /\
  exists j rec,
    1 <= j <= n /\
    calls (final r) PRandom = calls st PRandom + 22 * j /\
    significant (events r) = (map V3_wait (seq k (j - 1)) ++ [rec])%list /\
    ((outcome r = Return (Some true) /\
      exists token points, rec = V3_success_line email password token points) \/
     (outcome r = Return (Some false) /\ j = n /\
      rec = failure_line email password)).
Proof.
  induction n as [|n IH]; intros k env st Hk Hn Hsum r; [lia|]. subst r.
  rewrite for_upto_step.
  pose proof (@V3_round_spec email password k env st ltac:(lia)) as (C & W & R & H).
  destruct H as [(Ho & token & points & Hsig) | [(Hk3 & Ho & Hsig) | (Hlt & Ho & Hsig)]];
    rewrite Ho.
  - rewrite outcome_mk, final_mk, events_mk, app_nil_r.
    split; [exact C|]. split; [exact W|].
    exists 1, (V3_success_line email password token points).
    split; [lia|]. split; [lia|]. split; [exact Hsig|].
    left. split; [reflexivity|]. exists token, points. reflexivity.
  - rewrite outcome_mk, final_mk, events_mk, app_nil_r.
    split; [exact C|]. split; [exact W|].
    exists 1, (failure_line email password).
    split; [lia|]. split; [lia|]. split; [exact Hsig|].
    right. split; [reflexivity|]. split; [lia|]. reflexivity.
  - destruct (IH (S k) env (final (V3.loginAccount_round email password k env st))
                ltac:(lia) ltac:(lia) ltac:(lia))
      as (C' & W' & j & rec & Hj & R' & Hsig' & H').
    rewrite final_prefixed, outcome_prefixed, events_prefixed.
    split; [exact (same_config_trans _ _ _ C C')|]. split; [auto|].
    exists (S j), rec.
    split; [lia|]. split; [lia|]. split.
    + rewrite significant_app, Hsig, Hsig'.
      replace (S j - 1) with (S (j - 1)) by lia. reflexivity.
    + destruct H' as [H'|(Ho' & Hjn & Hrec)]; [left; exact H'|].
      right. split; [exact Ho'|]. split; [lia | exact Hrec].
Qed.

Lemma fetch_run ep url agent env st :
  fetch ep url agent env st =
  match net env ep (calls st (PNet ep)) with
  | NetError e => (Throw e, tick (PNet ep) st, [Fetch ep url agent])
  | Reply resp => (Return resp, tick (PNet ep) st, [Fetch ep url agent])
  end.
Proof.
  unfold fetch, bind, emit, ask. cbv beta iota.
  destruct (net env ep (calls st (PNet ep))); reflexivity.
Qed.

(** The service turns the login submission down. *)
Definition login_rejected (r : FetchResult) : Prop :=
  match r with
  | NetError _ => True
  | Reply response => ok response = false
  end.

Definition throws {A} (st : State) (r : Result A) : Prop :=
  exists e, outcome r = Throw e.

Lemma throws_throw {A} st st1 e1 e :
  step_ok inner any_port st st1 e1 -> @throws A st (Throw e, st1, e1).
Proof. intros _. exists e. reflexivity. Qed.

Lemma throws_prefix {A} st st1 e1 (r : Result A) :
  step_ok inner any_port st st1 e1 -> throws st1 r -> throws st (prefixed e1 r).
Proof. intros _ H. exact H. Qed.

Lemma V3_login_try_rejected email password appId env st :
  (forall n, login_rejected (net env Login n)) ->
  throws st (V3.login_try email password appId env st).
Proof.
  intros Hrej. unfold V3.login_try. revert st.
  do 4 (apply (@bind_rule inner any_port _ _ (@throws bool));
        [known_footprint | apply throws_throw | apply throws_prefix | intros ? ?]).
  match goal with |- throws ?s _ => rename s into st' end.
  unfold throws. rewrite bind_run, fetch_run.
  specialize (Hrej (calls st' (PNet Login))).
  destruct (net env Login (calls st' (PNet Login))) as [e|resp]; simpl in Hrej.
  - exists e. reflexivity.
  - rewrite outcome_mk, final_mk, outcome_prefixed. unfold response_json.
    destruct (json resp) as [v|]; [|eexists; reflexivity].
    rewrite (@bind_known _ _ _ _ _ _ _ _ _ (eq_refl : ret v env _ = (Return v, _, []))).
    rewrite outcome_prefixed, Hrej.
    destruct (js_get v "message") as [e|m]; eexists; reflexivity.
Qed.

Lemma log_append_ret_run {A} (v : A) text path line env st :
  (console_log text ;; appendFile path line ;; ret v) env st =
  (Return v, st, [Console text; AppendFile path line]).
Proof. reflexivity. Qed.

Lemma log_log_sleep_ret_run {A} (v : A) text text' site ms env st :
  (console_log text ;; console_log text' ;; sleep site ms ;; ret v) env st =
  (Return v, st, [Console text; Console text'; Sleep site (setTimeout_ms ms)]).
Proof. reflexivity. Qed.

Lemma V3_round_rejected email password k env st :
  (forall n, login_rejected (net env Login n)) ->
  outcome (V3.loginAccount_round email password k env st) <> Return (Some true).
Proof.
  intros Hrej. unfold V3.loginAccount_round.
  destruct (generateAppId_run env st) as (appId & st1 & Hgen & _).
  rewrite (@bind_known _ _ _ _ _ _ _ _ _ Hgen).
  rewrite (@bind_known _ _ _ _ _ _ _ _ _ (console_log_run _ env st1)).
  rewrite !outcome_prefixed, try_catch_run, bind_run.
  destruct (@V3_login_try_rejected email password appId env st1 Hrej) as [e He].
  rewrite He, outcome_mk, outcome_prefixed.
  destruct (k =? V3.LOGIN_RETRIES).
  - rewrite log_append_ret_run, outcome_mk. discriminate.
  - rewrite log_log_sleep_ret_run, outcome_mk. discriminate.
Qed.

Lemma V3_rounds_rejected email password n : forall k env st,
  (forall n, login_rejected (net env Login n)) ->
  outcome (for_upto n k (V3.loginAccount_round email password) env st)
  <> Return (Some true).
Proof.
  induction n as [|n IH]; intros k env st Hrej; [discriminate|].
  rewrite for_upto_step.
  pose proof (@V3_round_rejected email password k env st Hrej) as H.
  destruct (outcome (V3.loginAccount_round email password k env st)) as [[[]|]|e|];
    try rewrite outcome_mk; try discriminate; try congruence.
  rewrite outcome_prefixed. apply IH. exact Hrej.
Qed.

Lemma records_waits l : records (map V3_wait l) = [].
Proof. induction l; [reflexivity | exact IHl]. Qed.

Lemma pauses_waits l :
  pauses AtLogin (map V3_wait l) = map (fun k => inject_Z (5000 * Z.of_nat k)) l.
Proof. induction l as [|k l IH]; [reflexivity|]. simpl. rewrite IH. reflexivity. Qed.

Definition V1_success_record (email : string) (token : JSValue) : string * string :=
  ("successful_logins.txt", email ++ ":" ++ js_to_string token ++ nl).

Definition V3_success_record (email password : string) (token points : JSValue)
    : string * string :=
  ("successful_logins.txt",
   email ++ ":" ++ password ++ ":" ++ js_to_string token ++ ":"
   ++ js_to_string points ++ nl).

Definition failure_record (email password : string) : string * string :=
  ("failed_logins.txt", email ++ ":" ++ password ++ nl).

(** What [V3.loginAccount] leaves behind after [attempts] login attempts. *)
Definition bounded_login (env : Env) (st : State) (email password : string)
    (attempts : nat) : Prop :=
  let r := V3.loginAccount email password env st in
  1 <= attempts <= 3 /\
  calls (final r) PRandom = calls st PRandom + 22 * attempts /\
  pauses AtLogin (events r) = schedule 5000 (attempts - 1) /\
  ((outcome r = Return true /\
    exists token points,
      records (events r) = [V3_success_record email password token points]) \/
   (outcome r = Return false /\ attempts = 3 /\
    records (events r) = [failure_record email password])).

Lemma V3_loginAccount_bounded env st email password :
  exists attempts, bounded_login env st email password attempts.
Proof.
  unfold bounded_login, V3.loginAccount, for_range.
  change (S V3.LOGIN_RETRIES - 1) with 3.
  rewrite bind_ret_run, outcome_mk, final_mk, events_mk.
  destruct (@V3_rounds_spec email password 3 1 env st ltac:(lia) ltac:(lia) ltac:(lia))
    as (_ & _ & j & rec & Hj & R & Hsig & H).
  exists j. split; [exact Hj|]. split; [exact R|].
  rewrite <- pauses_AtLogin_significant, <- records_significant, Hsig.
  rewrite pauses_app, records_app, pauses_waits, records_waits.
  destruct H as [(Ho & token & points & ->) | (Ho & Hj3 & ->)]; rewrite Ho.
  - split; [apply app_nil_r|]. left. split; [reflexivity|].
    exists token, points. reflexivity.
  - split; [apply app_nil_r|]. right. repeat split. exact Hj3.
Qed.

(** An environment whose login endpoint turns every submission down. *)
Definition login_down (env : Env) : Env :=
  {| net := fun ep n =>
       match ep with
       | Login => error_reply 400 (JObj [("message", JStr "Incorrect answer")])
       | _ => net env ep n
       end;
     random := random env;
     imageCaptcha := imageCaptcha env;
     solveImage := solveImage env;
     generateContent := generateContent env;
     answers := answers env;
     saveImage := saveImage env;
     sendMessage := sendMessage env;
     sendPhoto := sendPhoto env;
     reply := reply env;
     readFile := readFile env;
     newAgent := newAgent env |}.

(** C1. Whatever the environment answers, [loginAccount] appends exactly one
    line: to the success log when it returns [true], to the failure log when
    it returns [false], and nothing else to either log. This holds for the
    single attempt of variant 1 and for the up to three attempts of variant
    3, where [attempts] counts the identities generated (22 draws each) and
    the pauses made between attempts (5000 ms x attempt number). When the
    service rejects every submission, variant 3 makes exactly three attempts
    and writes one failure line and no success line. *)
Theorem one_terminal_record env st email password :
  (let r := V1.loginAccount email password env st in
   (outcome r = Return true /\
    exists token, records (events r) = [V1_success_record email token]) \/
   (outcome r = Return false /\
    records (events r) = [failure_record email password])) /\
  (exists attempts, bounded_login env st email password attempts) /\
  ((forall n, login_rejected (net env Login n)) ->
   let r := V3.loginAccount email password env st in
   bounded_login env st email password 3 /\
   outcome r = Return false /\
   records (events r) = [failure_record email password]).
Proof.
  split; [|split].
  - destruct (V1_loginAccount_record env st email password) as [_ H].
    cbv zeta. rewrite <- records_significant.
    destruct H as [(Ho & token & ->) | (Ho & ->)].
    + left. split; [exact Ho|]. exists token. reflexivity.
    + right. split; [exact Ho|]. reflexivity.
  - apply V3_loginAccount_bounded.
  - intros Hrej r.
    destruct (V3_loginAccount_bounded env st email password) as [attempts B].
    pose proof B as (_ & _ & _ & H).
    assert (Hno : outcome r <> Return true).
    { subst r. unfold V3.loginAccount. rewrite bind_ret_run, outcome_mk.
      pose proof (@V3_rounds_rejected email password (S V3.LOGIN_RETRIES - 1) 1
                    env st Hrej) as Hr.
      unfold for_range.
      destruct (outcome (for_upto (S V3.LOGIN_RETRIES - 1) 1
                           (V3.loginAccount_round email password) env st))
        as [[[]|]|e|]; simpl; congruence. }
    destruct H as [(Ho & _) | (Ho & -> & Hrec)]; [contradiction|].
    split; [exact B|]. split; assumption.
Qed.

Lemma one_terminal_record_demo :
  let env := login_down (demo_env 0 five_points) in
  let st := demo_state "2captcha" demo_pool in
  let r := V3.loginAccount "ann@example.org" "pa" env st in
  bounded_login env st "ann@example.org" "pa" 3 /\
  outcome r = Return false /\
  records (events r) = [failure_record "ann@example.org" "pa"].
Proof.
  exact (proj2 (proj2 (one_terminal_record (login_down (demo_env 0 five_points))
                         (demo_state "2captcha" demo_pool) "ann@example.org" "pa"))
           (fun n => eq_refl)).
Defined.

(* ================================================================== *)
(** ** Status messages and the unbounded retry (C2) *)

(** The observer is bound: the bot exists and a chat has been registered. *)
Definition observed (st : State) : bool :=
  telegramBot st && js_truthy (telegramChatId st).

(** The status message [text] as it reaches the observer of state [st]. *)
Definition notice (st : State) (text : string) : list Event :=
  if observed st then [TelegramMessage (telegramChatId st) text] else [].

Lemma observed_same st st' : same_config st st' -> observed st' = observed st.
Proof. intros (_ & _ & _ & B & C). unfold observed. rewrite B, C. reflexivity. Qed.

Lemma notice_same st st' text : same_config st st' -> notice st' text = notice st text.
Proof.
  intros H. unfold notice. rewrite (observed_same _ _ H).
  destruct H as (_ & _ & _ & _ & C). rewrite C. reflexivity.
Qed.

Lemma sendTelegramStatus_run text env st :
  exists st' evs,
    V4.sendTelegramStatus text env st = (Return tt, st', evs) /\
    same_config st st' /\ (proxy_wf st -> proxy_wf st') /\
    significant evs = notice st text.
Proof.
  unfold V4.sendTelegramStatus, notice, observed.
  rewrite (bind_known _ _ _ _ _ _ _ (eq_refl : get_state env st = (Return st, st, []))).
  destruct (telegramBot st && js_truthy (telegramChatId st)).
  - unfold try_catch, bind, emit, ask, prefixed. cbv beta iota.
    destruct (sendMessage env (calls st PSendMessage)) as [e|]; cbv beta iota;
      eexists _, _; (split; [reflexivity|]); repeat split; auto.
  - eexists _, _. split; [reflexivity|]. repeat split; auto.
Qed.

(** The significant events of a successful attempt of variant 4. *)
Definition V4_success (st : State) (email : string) (sig : list Event) : Prop :=
  exists token points,
    sig = (notice st (V4.success_notice email points)
           ++ [V1_success_line email token])%list.

Definition V4_attempt (st0 : State) (email : string) (st : State) (r : Result bool)
    : Prop :=
  same_config st0 st -> attempt_outcome (V4_success st0 email) st r.

Lemma V4_attempt_throw st0 email st st1 e1 e :
  step_ok inner any_port st st1 e1 -> V4_attempt st0 email st (Throw e, st1, e1).
Proof. intros H _. apply attempt_outcome_throw. exact H. Qed.

Lemma V4_attempt_prefix st0 email st st1 e1 r :
  step_ok inner any_port st st1 e1 ->
  V4_attempt st0 email st1 r -> V4_attempt st0 email st (prefixed e1 r).
Proof.
  intros H Hr C. apply attempt_outcome_prefix with (st1 := st1); [exact H|].
  apply Hr. destruct H as (C1 & _). exact (same_config_trans _ _ _ C C1).
Qed.

Ltac V4_step st0 email :=
  apply (bind_rule inner any_port (V4_attempt st0 email));
  [ known_footprint
  | apply V4_attempt_throw
  | apply V4_attempt_prefix
  | intros ? ? ].

Lemma append_ret_run {A} (v : A) path line env st :
  (appendFile path line ;; ret v) env st = (Return v, st, [AppendFile path line]).
Proof. reflexivity. Qed.

Lemma V4_login_try_outcome email password env st :
  attempt_outcome (V4_success st email) st (V4.login_try email password env st).
Proof.
  cut (V4_attempt st email st (V4.login_try email password env st)).
  { intros H. apply H. apply same_config_refl. }
  generalize st at 1 as st0. intros st0. revert st.
  unfold V4.login_try.
  do 7 V4_step st0 email.
  destruct (js_is_string x5 "Successfully logged in!").
  - do 5 V4_step st0 email.
    match goal with |- V4_attempt _ _ ?s _ => rename s into st' end.
    intros C.
    destruct (sendTelegramStatus_run (V4.success_notice email x8) env st')
      as (st'' & evs & Hrun & C' & W' & Hsig).
    rewrite (bind_known _ _ _ _ _ _ _ Hrun), append_ret_run.
    unfold prefixed. rewrite outcome_mk, final_mk, events_mk.
    split; [exact C'|]. split; [exact W'|].
    rewrite outcome_mk, events_mk. split; [reflexivity|].
    exists x7, x8. rewrite significant_app, Hsig, (notice_same _ _ _ C). reflexivity.
  - intros C. repeat split; auto.
Qed.

(** [delaySeconds] after the failed attempt [k], and the milliseconds the
    timer of the pause is set to. *)
Definition delay_seconds (k : nat) : Number :=
  Math_round (Number_div (V4.calculateRetryDelay k) (num 1000)).

Definition retry_timer (k : nat) : Q := setTimeout_ms (V4.calculateRetryDelay k).

(** The significant events of the failed attempt [k], which threw [error]. *)
Definition failed_round (st : State) (email : string) (k : nat) (error : string)
    : list Event :=
  (notice st (V4.attempt_notice k email)
   ++ notice st (V4.failure_notice k email error)
   ++ notice st (V4.wait_notice (delay_seconds k))
   ++ [Sleep AtLogin (retry_timer k)])%list.

Fixpoint failed_rounds (st : State) (email : string) (k : nat)
    (errors : list string) : list Event :=
  match errors with
  | [] => []
  | error :: rest =>
      (failed_round st email k error ++ failed_rounds st email (S k) rest)%list
  end.

Lemma failed_rounds_same st st' email errors : forall k,
  same_config st st' ->
  failed_rounds st' email k errors = failed_rounds st email k errors.
Proof.
  intros k H. revert k.
  induction errors as [|e es IH]; intros k; [reflexivity|].
  simpl. unfold failed_round. rewrite !(notice_same _ _ _ H), IH. reflexivity.
Qed.

Lemma log_sleep_ret_run {A} (v : A) text site ms env st :
  (console_log text ;; sleep site ms ;; ret v) env st =
  (Return v, st, [Console text; Sleep site (setTimeout_ms ms)]).
Proof. reflexivity. Qed.

Lemma V4_round_spec email password k env st :
  let r := V4.loginAccountWithRetry_round email password k env st in
  same_config st (final r) /\
  ((outcome r = Return (Some true) /\
    exists token points,
      significant (events r) =
      (notice st (V4.attempt_notice k email)
       ++ notice st (V4.success_notice email points)
       ++ [V1_success_line email token])%list) \/
   (outcome r = Return None /\
    exists error, significant (events r) = failed_round st email k error)).
Proof.
  intros r. subst r. unfold V4.loginAccountWithRetry_round.
  rewrite (bind_known _ _ _ _ _ _ _ (console_log_run _ env st)).
  destruct (sendTelegramStatus_run (V4.attempt_notice k email) env st)
    as (st1 & ev1 & Hrun1 & C1 & _ & Hsig1).
  rewrite (bind_known _ _ _ _ _ _ _ Hrun1).
  rewrite try_catch_run, bind_run.
  pose proof (V4_login_try_outcome email password env st1) as (C2 & _ & H).
  destruct (V4.login_try email password env st1) as [[o st2] ev2].
  rewrite outcome_mk, final_mk, events_mk in *.
  destruct o as [b|e|]; [| |contradiction].
  - destruct H as [-> (token & points & Hsig2)].
    unfold prefixed, ret. rewrite !outcome_mk, !final_mk, !events_mk.
    split; [exact (same_config_trans _ _ _ C1 C2)|]. left.
    split; [reflexivity|]. exists token, points.
    rewrite !significant_app, Hsig1, Hsig2, (notice_same _ _ _ C1).
    rewrite app_nil_r. reflexivity.
  - rewrite !outcome_mk. cbv zeta.
    rewrite (bind_known _ _ _ _ _ _ _ (console_log_run _ env st2)).
    destruct (sendTelegramStatus_run (V4.failure_notice k email e) env st2)
      as (st3 & ev3 & Hrun3 & C3 & _ & Hsig3).
    rewrite (bind_known _ _ _ _ _ _ _ Hrun3).
    destruct (sendTelegramStatus_run (V4.wait_notice (delay_seconds k)) env st3)
      as (st4 & ev4 & Hrun4 & C4 & _ & Hsig4).
    unfold delay_seconds in Hrun4.
    rewrite (bind_known _ _ _ _ _ _ _ Hrun4), log_sleep_ret_run.
    unfold prefixed. rewrite !outcome_mk, !final_mk, !events_mk.
    pose proof (same_config_trans _ _ _ C1 C2) as C12.
    pose proof (same_config_trans _ _ _ C12 C3) as C13.
    split; [exact (same_config_trans _ _ _ C13 C4)|]. right.
    split; [reflexivity|]. exists e.
    rewrite !significant_app, Hsig1, H, Hsig3, Hsig4.
    rewrite (notice_same _ _ _ C12), (notice_same _ _ _ C13).
    reflexivity.
Qed.

Lemma V4_retry_step fuel email password k env st :
  V4.loginAccountWithRetry_from (S fuel) email password k env st =
  match outcome (V4.loginAccountWithRetry_round email password k env st) with
  | Return (Some b) =>
      (Return b, final (V4.loginAccountWithRetry_round email password k env st),
       (events (V4.loginAccountWithRetry_round email password k env st) ++ [])%list)
  | Return None =>
      prefixed (events (V4.loginAccountWithRetry_round email password k env st))
        (V4.loginAccountWithRetry_from fuel email password (S k) env
           (final (V4.loginAccountWithRetry_round email password k env st)))
  | Throw e =>
      (Throw e, final (V4.loginAccountWithRetry_round email password k env st),
       events (V4.loginAccountWithRetry_round email password k env st))
  | Diverge =>
      (Diverge, final (V4.loginAccountWithRetry_round email password k env st),
       events (V4.loginAccountWithRetry_round email password k env st))
  end.
Proof.
  cbn [V4.loginAccountWithRetry_from]. rewrite bind_run.
  destruct (outcome (V4.loginAccountWithRetry_round email password k env st))
    as [[b|]|e|]; reflexivity.
Qed.

(** The retry loop from attempt [k] on with [fuel] iterations: [errors] are
    the errors of the attempts that failed, [ending] what the last attempt
    left when it succeeded. *)
Lemma V4_retry_spec email password fuel : forall k env st,
  let r := V4.loginAccountWithRetry_from fuel email password k env st in
  same_config st (final r) /\
  exists errors ending,
    significant (events r) = (failed_rounds st email k errors ++ ending)%list /\
    ((outcome r = Return true /\ List.length errors < fuel /\
      exists token points,
        ending =
        (notice st (V4.attempt_notice (k + List.length errors) email)
         ++ notice st (V4.success_notice email points)
         ++ [V1_success_line email token])%list) \/
     (outcome r = Diverge /\ List.length errors = fuel /\ ending = [])).
Proof.
  induction fuel as [|fuel IH]; intros k env st r; subst r.
  - split; [apply same_config_refl|]. exists [], [].
    split; [reflexivity|]. right. repeat split.
  - rewrite V4_retry_step.
    pose proof (V4_round_spec email password k env st) as (C & H).
    destruct H as [(Ho & token & points & Hsig) | (Ho & error & Hsig)]; rewrite Ho.
    + rewrite outcome_mk, final_mk, events_mk, app_nil_r.
      split; [exact C|].
      exists [], (notice st (V4.attempt_notice k email)
                  ++ notice st (V4.success_notice email points)
                  ++ [V1_success_line email token])%list.
      split; [exact Hsig|]. left. split; [reflexivity|]. split; [simpl; lia|].
      exists token, points. simpl. rewrite Nat.add_0_r. reflexivity.
    + destruct (IH (S k) env
                  (final (V4.loginAccountWithRetry_round email password k env st)))
        as (C' & errors & ending & Hsig' & H').
      rewrite final_prefixed, outcome_prefixed, events_prefixed.
      split; [exact (same_config_trans _ _ _ C C')|].
      exists (error :: errors), ending. split.
      * rewrite significant_app, Hsig, Hsig', (failed_rounds_same _ _ _ _ _ C).
        simpl. rewrite <- app_assoc. reflexivity.
      * destruct H' as [(Ho' & Hlen & token & points & Hend)
                       | (Ho' & Hlen & Hend)].
        -- left. split; [exact Ho'|]. split; [simpl; lia|].
           exists token, points. rewrite Hend.
           rewrite !(notice_same _ _ _ C). simpl.
           replace (k + S (List.length errors)) with (S k + List.length errors) by lia.
           reflexivity.
        -- right. split; [exact Ho'|]. split; [simpl; lia | exact Hend].
Qed.


(** The three status messages of the failed attempt [k]. *)
Definition round_notices (email : string) (k : nat) (error : string) : list string :=
  [V4.attempt_notice k email; V4.failure_notice k email error;
   V4.wait_notice (delay_seconds k)].

Fixpoint failed_notices (email : string) (k : nat) (errors : list string)
    : list string :=
  match errors with
  | [] => []
  | error :: rest =>
      (round_notices email k error ++ failed_notices email (S k) rest)%list
  end.

Lemma notice_projections st text :
  notices (notice st text) = (if observed st then [text] else []) /\
  records (notice st text) = [] /\ pauses AtLogin (notice st text) = [].
Proof. unfold notice. destruct (observed st); repeat split. Qed.

Lemma failed_rounds_projections st email errors : forall k,
  pauses AtLogin (failed_rounds st email k errors)
    = map retry_timer (seq k (List.length errors)) /\
  records (failed_rounds st email k errors) = [] /\
  notices (failed_rounds st email k errors)
    = if observed st then failed_notices email k errors else [].
Proof.
  induction errors as [|e es IH]; intros k.
  - simpl. destruct (observed st); repeat split.
  - destruct (IH (S k)) as (IH1 & IH2 & IH3).
    simpl. unfold failed_round.
    rewrite !pauses_app, !records_app, !notices_app, IH1, IH2, IH3.
    destruct (notice_projections st (V4.attempt_notice k email)) as (N1 & R1 & P1).
    destruct (notice_projections st (V4.failure_notice k email e)) as (N2 & R2 & P2).
    destruct (notice_projections st (V4.wait_notice (delay_seconds k)))
      as (N3 & R3 & P3).
    rewrite N1, N2, N3, R1, R2, R3, P1, P2, P3.
    destruct (observed st); repeat split.
Qed.

(** *** The delay of the pause *)













(* ================================================================== *)
(** ** The account loop of [main] (C9) *)

Definition batch_pause : Event := Sleep AtBatch (inject_Z 2000).

(** The result line of an account: with the token when the login succeeded,
    with the password when it failed. *)
Definition account_line (cred : Credential) (result : option JSValue) : Event :=
  match result with
  | Some token => V1_success_line (email cred) token
  | None => failure_line (email cred) (password cred)
  end.

Fixpoint account_lines (credentials : list Credential)
    (results : list (option JSValue)) : list Event :=
  match credentials, results with
  | cred :: credentials', result :: results' =>
      account_line cred result :: account_lines credentials' results'
  | _, _ => []
  end.

Definition succeeded (results : list (option JSValue)) : nat :=
  List.length (filter (fun r => match r with Some _ => true | None => false end)
                 results).

Definition not_succeeded (results : list (option JSValue)) : nat :=
  List.length (filter (fun r => match r with Some _ => false | None => true end)
                 results).

(** A pause after every line. *)
Definition pause_after_each (lines : list Event) : list Event :=
  flat_map (fun line => [line; batch_pause]) lines.

(** A pause between two lines. *)
Fixpoint pause_between (lines : list Event) : list Event :=
  match lines with
  | [] => []
  | [line] => [line]
  | line :: rest => line :: batch_pause :: pause_between rest
  end.

(** The pauses as variant 4 decides them, by the position [index] of the
    account among [total]. *)
Fixpoint pause_by_index (total index : nat) (lines : list Event) : list Event :=
  match lines with
  | [] => []
  | line :: rest =>
      (line :: (if index <? total - 1 then [batch_pause] else [])
       ++ pause_by_index total (S index) rest)%list
  end.

Lemma pause_by_index_between lines : forall total index,
  index + List.length lines = total ->
  pause_by_index total index lines = pause_between lines.
Proof.
  induction lines as [|line rest IH]; intros total index H; [reflexivity|].
  cbn [pause_by_index]. rewrite (IH total (S index)) by (simpl in H; lia).
  destruct rest as [|line' rest].
  - simpl in H. replace (index <? total - 1) with false
      by (symmetry; apply Nat.ltb_ge; lia).
    reflexivity.
  - simpl in H. replace (index <? total - 1) with true
      by (symmetry; apply Nat.ltb_lt; lia).
    reflexivity.
Qed.

Lemma pause_by_index_each lines : forall total index,
  index + List.length lines < total ->
  pause_by_index total index lines = pause_after_each lines.
Proof.
  induction lines as [|line rest IH]; intros total index H; [reflexivity|].
  cbn [pause_by_index]. simpl in H. rewrite (IH total (S index)) by lia.
  replace (index <? total - 1) with true by (symmetry; apply Nat.ltb_lt; lia).
  reflexivity.
Qed.

Lemma sleep_run site ms env st :
  sleep site ms env st = (Return tt, st, [Sleep site (setTimeout_ms ms)]).
Proof. reflexivity. Qed.

Lemma batch_view_notice st text : batch_view (notice st text) = [].
Proof. unfold notice. destruct (observed st); reflexivity. Qed.

Lemma batch_view_failed_rounds st email errors : forall k,
  batch_view (failed_rounds st email k errors) = [].
Proof.
  induction errors as [|e es IH]; intros k; [reflexivity|].
  simpl. unfold failed_round.
  rewrite !batch_view_app, !batch_view_notice, IH. reflexivity.
Qed.

(** *** Variant 1 *)

Lemma V1_main_loop_step total index cred rest successful failed env st :
  V1.main_loop total index (cred :: rest) successful failed env st =
  prefixed [Console (nl ++ "Processing account " ++ nat_to_string (index + 1)
                     ++ "/" ++ nat_to_string total)]
    match outcome (V1.loginAccount (email cred) (password cred) env st) with
    | Return result =>
        prefixed (events (V1.loginAccount (email cred) (password cred) env st)
                  ++ [batch_pause])
          (V1.main_loop total (S index) rest
             (if result then S successful else successful)
             (if result then failed else S failed) env
             (final (V1.loginAccount (email cred) (password cred) env st)))
    | Throw e =>
        (Throw e, final (V1.loginAccount (email cred) (password cred) env st),
         events (V1.loginAccount (email cred) (password cred) env st))
    | Diverge =>
        (Diverge, final (V1.loginAccount (email cred) (password cred) env st),
         events (V1.loginAccount (email cred) (password cred) env st))
    end.
Proof.
  cbn [V1.main_loop].
  rewrite (bind_known _ _ _ _ _ _ _ (console_log_run _ env st)).
  f_equal. rewrite bind_run.
  destruct (outcome (V1.loginAccount (email cred) (password cred) env st))
    as [result|e|]; try reflexivity.
  cbv zeta.
  rewrite (bind_known _ _ _ _ _ _ _ (sleep_run AtBatch (num 2000) env _)).
  unfold prefixed. rewrite !outcome_mk, !final_mk, !events_mk.
  rewrite <- app_assoc. reflexivity.
Qed.

Lemma V1_main_loop_batch env total credentials : forall index successful failed st,
  let r := V1.main_loop total index credentials successful failed env st in
  exists results,
    List.length results = List.length credentials /\
    outcome r = Return (successful + succeeded results,
                        failed + not_succeeded results) /\
    batch_view (events r)
    = pause_after_each (account_lines credentials results).
Proof.
  induction credentials as [|cred rest IH]; intros index successful failed st r;
    subst r.
  - exists []. repeat split. cbn [V1.main_loop]. unfold ret.
    rewrite outcome_mk. unfold succeeded, not_succeeded. simpl.
    rewrite !Nat.add_0_r. reflexivity.
  - rewrite V1_main_loop_step.
    pose proof (V1_loginAccount_record env st (email cred) (password cred))
      as (_ & H).
    destruct H as [(Ho & token & Hsig) | (Ho & Hsig)]; rewrite Ho.
    + destruct (IH (S index) (S successful) failed
                  (final (V1.loginAccount (email cred) (password cred) env st)))
        as (results & Hlen & Hout & Hview).
      exists (Some token :: results).
      rewrite !outcome_prefixed, !events_prefixed.
      split; [simpl; rewrite Hlen; reflexivity|].
      split.
      * rewrite Hout. unfold succeeded, not_succeeded. simpl.
        f_equal. f_equal. lia.
      * rewrite !batch_view_app, Hview.
        rewrite <- (batch_view_significant (events _)), Hsig.
        reflexivity.
    + destruct (IH (S index) successful (S failed)
                  (final (V1.loginAccount (email cred) (password cred) env st)))
        as (results & Hlen & Hout & Hview).
      exists (None :: results).
      rewrite !outcome_prefixed, !events_prefixed.
      split; [simpl; rewrite Hlen; reflexivity|].
      split.
      * rewrite Hout. unfold succeeded, not_succeeded. simpl.
        f_equal. f_equal. lia.
      * rewrite !batch_view_app, Hview.
        rewrite <- (batch_view_significant (events _)), Hsig.
        reflexivity.
Qed.

(** *** Variant 4 *)

Definition success_lines (credentials : list Credential) (tokens : list JSValue)
    : list Event :=
  account_lines credentials (map Some tokens).

Lemma pause_or_not_run (b : bool) env st :
  (if b then sleep AtBatch (num 2000) else ret tt) env st =
  (Return tt, st, if b then [batch_pause] else []).
Proof. destruct b; reflexivity. Qed.

(** The accounts are done in order; each one ends with its success line, and
    the loop goes on to the next one. When the retry loop of an account has
    not returned, nothing of the later accounts has happened. *)
Lemma V4_main_loop_batch env fuel total credentials :
  forall index successful failed st,
  let r := V4.main_loop fuel total index credentials successful failed env st in
  exists tokens,
    batch_view (events r)
    = pause_by_index total index (success_lines credentials tokens) /\
    ((List.length tokens = List.length credentials /\
      outcome r = Return (successful + List.length credentials, failed)) \/
     (List.length tokens < List.length credentials /\ outcome r = Diverge)).
Proof.
  induction credentials as [|cred rest IH]; intros index successful failed st r;
    subst r.
  - exists []. split; [reflexivity|]. left. split; [reflexivity|].
    cbn [V4.main_loop]. unfold ret. rewrite outcome_mk, Nat.add_0_r. reflexivity.
  - cbn [V4.main_loop].
    rewrite (bind_known _ _ _ _ _ _ _ (console_log_run _ env st)).
    destruct (sendTelegramStatus_run
                ("<b>Processing Account " ++ nat_to_string (index + 1)
                 ++ "/" ++ nat_to_string total ++ "</b>") env st)
      as (st1 & ev1 & Hrun1 & _ & _ & Hsig1).
    rewrite (bind_known _ _ _ _ _ _ _ Hrun1), bind_run.
    pose proof (V4_retry_spec (email cred) (password cred) fuel 1 env st1)
      as (_ & errors & ending & Hsig & H).
    fold (V4.loginAccountWithRetry fuel (email cred) (password cred)) in Hsig, H.
    assert (Hquiet : batch_view ev1 = []).
    { rewrite <- batch_view_significant, Hsig1. apply batch_view_notice. }
    destruct H as [(Ho & _ & token & points & ->) | (Ho & _ & ->)]; rewrite Ho.
    + cbv zeta.
      rewrite (bind_known _ _ _ _ _ _ _ (pause_or_not_run (index <? total - 1) env _)).
      destruct (IH (S index) (S successful) failed
                  (final (V4.loginAccountWithRetry fuel (email cred)
                            (password cred) env st1)))
        as (tokens & Hview & Hout).
      exists (token :: tokens).
      rewrite !outcome_prefixed, !events_prefixed.
      split.
      * rewrite !batch_view_app, Hview, Hquiet.
        rewrite <- (batch_view_significant (events _)), Hsig.
        rewrite !batch_view_app, batch_view_failed_rounds, !batch_view_notice.
        unfold success_lines. cbn [map account_lines pause_by_index account_line].
        destruct (index <? total - 1); reflexivity.
      * destruct Hout as [(Hlen & ->) | (Hlen & ->)]; [left | right].
        -- split; [simpl; rewrite Hlen; reflexivity|].
           f_equal. f_equal. simpl. lia.
        -- split; [simpl; lia | reflexivity].
    + exists [].
      unfold prefixed. rewrite !outcome_mk, !events_mk.
      split.
      * rewrite !batch_view_app, Hquiet.
        rewrite <- (batch_view_significant (events _)), Hsig.
        rewrite !batch_view_app, batch_view_failed_rounds. reflexivity.
      * right. split; [simpl; lia | reflexivity].
Qed.

Lemma account_lines_length credentials : forall results,
  List.length (account_lines credentials results)
  = Nat.min (List.length credentials) (List.length results).
Proof.
  induction credentials as [|c cs IH]; intros [|r rs]; simpl; auto.
Qed.

(** C9. Both account loops take the accounts strictly in order, one at a
    time, and go on to the next account whatever the outcome of the last one.
    The loop of variant 1 (lines 328-336) leaves one result line per account
    and pauses 2000 ms after every account, the last one included. The loop
    of variant 4 (lines 1382-1393), once it has returned, has left one
    success line per account with one pause of 2000 ms between two accounts
    and none after the last; as long as the retry loop of some account has
    not returned, the accounts before it are done, each followed by its
    pause, and none after it has been started. *)
Theorem accounts_in_order env st fuel credentials :
  (let r := V1.main_loop (List.length credentials) 0 credentials 0 0 env st in
   exists results,
     List.length results = List.length credentials /\
     outcome r = Return (succeeded results, not_succeeded results) /\
     batch_view (events r)
     = pause_after_each (account_lines credentials results)) /\
  (let r := V4.main_loop fuel (List.length credentials) 0 credentials 0 0 env st in
   exists tokens,
     (List.length tokens = List.length credentials /\
      outcome r = Return (List.length credentials, 0) /\
      batch_view (events r)
      = pause_between (success_lines credentials tokens)) \/
     (List.length tokens < List.length credentials /\
      outcome r = Diverge /\
      batch_view (events r)
      = pause_after_each (success_lines credentials tokens))).
Proof.
  split.
  - exact (V1_main_loop_batch env (List.length credentials) credentials 0 0 0 st).
  - cbv zeta.
    destruct (V4_main_loop_batch env fuel (List.length credentials) credentials
                0 0 0 st) as (tokens & Hview & H).
    exists tokens.
    assert (Hlen : List.length (success_lines credentials tokens)
                   = Nat.min (List.length credentials) (List.length tokens)).
    { unfold success_lines. rewrite account_lines_length, length_map. reflexivity. }
    destruct H as [(Hl & Ho) | (Hl & Ho)]; [left | right].
    + split; [exact Hl|]. split; [exact Ho|].
      rewrite Hview. apply pause_by_index_between. rewrite Hlen. lia.
    + split; [exact Hl|]. split; [exact Ho|].
      rewrite Hview. apply pause_by_index_each. rewrite Hlen. lia.
Qed.

(** With one account in the file, variant 1 pauses after it, variant 4 does
    not. *)
Lemma pause_after_last_account :
  let credentials := [{| email := "ann@example.org"; password := "pa" |}] in
  let env := demo_env 0 five_points in
  let r1 := V1.main_loop 1 0 credentials 0 0 env (demo_state "2captcha" []) in
  let r4 := V4.main_loop 3 1 0 credentials 0 0 env (demo_state "2captcha" []) in
  outcome r1 = Return (1, 0) /\
  batch_view (events r1)
  = [V1_success_line "ann@example.org" (JStr "tok-1"); batch_pause] /\
  pauses AtBatch (events r1) = [inject_Z 2000] /\
  outcome r4 = Return (1, 0) /\
  batch_view (events r4) = [V1_success_line "ann@example.org" (JStr "tok-1")] /\
  pauses AtBatch (events r4) = [].
Proof. vm_compute. repeat split. Qed.

(** Three accounts, the submission of the first one rejected: variant 1 writes
    its failure line and goes on to the other two. *)
Lemma accounts_in_order_demo :
  let ann := {| email := "ann@example.org"; password := "pa" |} in
  let bob := {| email := "bob@example.org"; password := "pb" |} in
  let cy := {| email := "cy@example.org"; password := "pc" |} in
  let r := V1.main_loop 3 0 [ann; bob; cy] 0 0
             (demo_env 1 five_points) (demo_state "2captcha" []) in
  outcome r = Return (2, 1) /\
  map fst (records (events r))
  = ["failed_logins.txt"; "successful_logins.txt"; "successful_logins.txt"] /\
  pauses AtBatch (events r) = [inject_Z 2000; inject_Z 2000; inject_Z 2000].
Proof. vm_compute. repeat split. Qed.

(* ================================================================== *)
(** ** A failing points query does not fail the login (C6) *)

(** [getUserPoints] of variant 1 always returns: the points that the answer
    of the service carries, and 0 when the query fails. *)
Lemma V1_getUserPoints_run token appId env st :
  exists st' evs,
    V1.getUserPoints token appId env st =
    (Return (match points_in (net env GetPoint (calls st (PNet GetPoint))) with
             | Some v => v
             | None => JNum 0
             end), st', evs) /\
    console evs = [].
Proof.
  unfold V1.getUserPoints, points_in. run.
  destruct (net env GetPoint (calls st (PNet GetPoint))) as [msg|[o s [data|]]];
    simpl;
    [| destruct o; simpl;
       [destruct (js_get data "success") as [e|success]; simpl;
        [|destruct (js_truthy success); simpl;
          [destruct (js_get data "data") as [e|[]]; simpl|]]|]
     | destruct o; simpl];
    eexists _, _; split; reflexivity.
Qed.

(** The token that the answer to the login submission carries. *)
Definition token_in (r : FetchResult) : option JSValue :=
  match r with
  | NetError _ => None
  | Reply response =>
      match json response with
      | Some loginResult =>
          if ok response then
            match js_get loginResult "data" with
            | inr data =>
                match js_get data "token" with
                | inr token => Some token
                | inl _ => None
                end
            | inl _ => None
            end
          else None
      | None => None
      end
  end.

Lemma console_app e1 e2 : console (e1 ++ e2) = (console e1 ++ console e2)%list.
Proof.
  induction e1 as [|e e1 IH]; [reflexivity|].
  destruct e; simpl; rewrite ?IH; reflexivity.
Qed.

(** What is to be shown of the rest [r] of a login attempt, from a state where
    the login endpoint has been called [n] times and the points endpoint [m]
    times: when the rest submits the login, it ends well, with the success
    line of [token] and zero points on the console. *)
Definition isolated (email : string) (token : JSValue) (n m : nat)
    (st : State) (r : Result bool) : Prop :=
  calls st (PNet Login) = n -> calls st (PNet GetPoint) = m ->
  outcome r <> Diverge /\
  (0 < fetches Login (events r) ->
   outcome r = Return true /\
   significant (events r) = [V1_success_line email token] /\
   In "Points: 0" (console (events r))).

Lemma isolated_throw email token n m st st1 e1 e :
  step_ok before_login before_login_port st st1 e1 ->
  isolated email token n m st (Throw e, st1, e1).
Proof.
  intros (_ & _ & _ & F) _ _. rewrite outcome_mk, events_mk.
  split; [discriminate|].
  destruct (before_login_quiet _ F) as (_ & _ & H). rewrite H. lia.
Qed.

Lemma isolated_prefix email token n m st st1 e1 r :
  step_ok before_login before_login_port st st1 e1 ->
  isolated email token n m st1 r ->
  isolated email token n m st (prefixed e1 r).
Proof.
  intros (_ & _ & P & F) H Hn Hm.
  destruct (before_login_quiet _ F) as (Hsig & _ & Hlogin).
  rewrite outcome_prefixed, events_prefixed.
  rewrite fetches_app, significant_app, console_app, Hsig, Hlogin.
  destruct H as (Hd & H).
  - rewrite (P (PNet Login) eq_refl). exact Hn.
  - rewrite (P (PNet GetPoint) eq_refl). exact Hm.
  - split; [exact Hd|]. intros Hpos.
    destruct (H Hpos) as (Ho & Hs & Hc).
    split; [exact Ho|]. split; [exact Hs|].
    apply in_or_app. right. exact Hc.
Qed.

Lemma spinner_run call text env st :
  spinner call text env st = (Return tt, st, [Spinner call text]).
Proof. reflexivity. Qed.

Lemma ret_run {A} (a : A) env st : ret a env st = (Return a, st, []).
Proof. reflexivity. Qed.

Lemma success_tail_run email token points env st :
  (spinner SpinSucceed ("Login successful for " ++ email) ;;
   console_log ("Points: " ++ js_to_string points) ;;
   appendFile "successful_logins.txt" (email ++ ":" ++ js_to_string token ++ nl) ;;
   ret true) env st =
  (Return true, st,
   [Spinner SpinSucceed ("Login successful for " ++ email);
    Console ("Points: " ++ js_to_string points);
    V1_success_line email token]).
Proof. reflexivity. Qed.

Lemma V1_login_try_isolated email password appId token env n m :
  token_in (net env Login n) = Some token ->
  points_in (net env GetPoint m) = None ->
  forall st, isolated email token n m st (V1.login_try email password appId env st).
Proof.
  intros Htoken Hpoints st0. unfold V1.login_try. revert st0.
  apply (@bind_rule before_login before_login_port _ _ (isolated email token n m));
    [ apply V1_getPuzzleId_footprint | apply isolated_throw
    | apply isolated_prefix | intros puzzleId st1 ].
  apply (@bind_rule before_login before_login_port _ _ (isolated email token n m));
    [ apply V1_getPuzzleImage_footprint | apply isolated_throw
    | apply isolated_prefix | intros imageBase64 st2 ].
  apply (@bind_rule before_login before_login_port _ _ (isolated email token n m));
    [ apply V1_processCaptcha_footprint | apply isolated_throw
    | apply isolated_prefix | intros captchaText st ].
  intros Hn Hm.
  rewrite (bind_known _ _ _ _ _ _ _ (spinner_run _ _ env _)).
  rewrite bind_run, fetch_run, Hn.
  unfold token_in in Htoken.
  destruct (net env Login n) as [e|response]; [discriminate|].
  rewrite outcome_mk, final_mk, events_mk. unfold response_json.
  destruct (json response) as [loginResult|]; [|discriminate].
  rewrite (bind_known _ _ _ _ _ _ _ (ret_run loginResult env _)).
  destruct (ok response); [|discriminate].
  destruct (js_get loginResult "data") as [e|data]; [discriminate|].
  destruct (js_get data "token") as [e|token'] eqn:Htok; [discriminate|].
  injection Htoken as ->.
  unfold lift.
  rewrite (bind_known _ _ _ _ _ _ _ (ret_run data env _)).
  rewrite Htok.
  rewrite (bind_known _ _ _ _ _ _ _ (ret_run token env _)).
  destruct (V1_getUserPoints_run token appId env (tick (PNet Login) st))
    as (st' & evs & Hrun & Hquiet).
  replace (calls (tick (PNet Login) st) (PNet GetPoint)) with m in Hrun
    by (rewrite <- Hm; reflexivity).
  rewrite Hpoints in Hrun.
  rewrite (bind_known _ _ _ _ _ _ _ Hrun), success_tail_run.
  unfold prefixed. rewrite !outcome_mk, !events_mk.
  split; [discriminate|]. intros _.
  split; [reflexivity|]. split.
  - pose proof (V1_getUserPoints_footprint token appId env
                  (tick (PNet Login) st)) as ((_ & _ & _ & F) & _).
    rewrite Hrun, events_mk in F.
    rewrite !significant_app, (significant_inner _ F). reflexivity.
  - rewrite !console_app, Hquiet. simpl. left. reflexivity.
Qed.

Lemma V1_loginAccount_isolated email password token env st :
  token_in (net env Login (calls st (PNet Login))) = Some token ->
  points_in (net env GetPoint (calls st (PNet GetPoint))) = None ->
  let r := V1.loginAccount email password env st in
  0 < fetches Login (events r) ->
  outcome r = Return true /\
  significant (events r) = [V1_success_line email token] /\
  In "Points: 0" (console (events r)).
Proof.
  intros Htoken Hpoints r. subst r. unfold V1.loginAccount, generateAppId.
  destruct (generateAppId_loop_run 22 "67" env st)
    as (st1 & Hgen & (_ & _ & _ & _ & _ & _ & D)).
  rewrite (bind_known _ _ _ _ _ _ _ Hgen).
  rewrite (bind_known _ _ _ _ _ _ _ (console_log_run _ env st1)).
  rewrite try_catch_run.
  pose proof (V1_login_try_isolated email password
                ("67" ++ drawn env (calls st PRandom) 22) token env
                _ _ Htoken Hpoints st1 (D (PNet Login)) (D (PNet GetPoint)))
    as (Hd & H).
  destruct (V1.login_try email password
              ("67" ++ drawn env (calls st PRandom) 22) env st1) as [[o st2] ev].
  rewrite outcome_mk, events_mk in *.
  destruct o as [b|e|]; [| |congruence].
  - unfold prefixed. rewrite !outcome_mk, !events_mk. cbn [app fetches].
    intros Hpos. destruct (H Hpos) as (Ho & Hs & Hc).
    split; [exact Ho|]. split; [exact Hs|]. right. exact Hc.
  - rewrite final_mk, handler_run.
    unfold prefixed. rewrite !outcome_mk, !events_mk. cbn [app fetches].
    rewrite fetches_app. cbn [fetches]. rewrite Nat.add_0_r.
    intros Hpos. destruct (H Hpos) as (Ho & _). discriminate.
Qed.

(** C6. When the points query of an execution fails (the request fails, the
    status is not a success, the body cannot be read, or the answer lacks its
    fields), [getUserPoints] returns 0 and throws nothing; and a run of
    [loginAccount] that submits the login and is answered with a token
    returns [true], prints zero points and writes the success line of the
    account, and no failure line. *)
Theorem points_failure_isolated env st email password :
  points_in (net env GetPoint (calls st (PNet GetPoint))) = None ->
  (forall token appId,
     outcome (V1.getUserPoints token appId env st) = Return (JNum 0)) /\
  (forall token,
     let r := V1.loginAccount email password env st in
     token_in (net env Login (calls st (PNet Login))) = Some token ->
     0 < fetches Login (events r) ->
     outcome r = Return true /\
     records (events r) = [V1_success_record email token] /\
     In "Points: 0" (console (events r))).
Proof.
  intros Hpoints. split.
  - intros token appId.
    destruct (V1_getUserPoints_run token appId env st) as (st' & evs & Hrun & _).
    rewrite Hrun, Hpoints. reflexivity.
  - intros token r Htoken Hpos.
    destruct (V1_loginAccount_isolated email password token env st
                Htoken Hpoints Hpos) as (Ho & Hs & Hc).
    split; [exact Ho|]. split; [|exact Hc].
    subst r. rewrite <- records_significant, Hs. reflexivity.
Qed.

(** The points endpoint answers 500: the account is still a success. *)
Lemma points_failure_isolated_demo :
  let env := demo_env 0 points_down in
  let st := demo_state "2captcha" [] in
  let r := V1.loginAccount "ann@example.org" "pa" env st in
  points_in (net env GetPoint (calls st (PNet GetPoint))) = None /\
  outcome (V1.getUserPoints (JStr "tok-1") "67" env st) = Return (JNum 0) /\
  outcome r = Return true /\
  records (events r) = [V1_success_record "ann@example.org" (JStr "tok-1")] /\
  In "Points: 0" (console (events r)).
Proof.
  split; [reflexivity|].
  split.
  - exact (proj1 (points_failure_isolated (demo_env 0 points_down)
                    (demo_state "2captcha" []) "ann@example.org" "pa" eq_refl)
             (JStr "tok-1") "67").
  - apply (proj2 (points_failure_isolated (demo_env 0 points_down)
                    (demo_state "2captcha" []) "ann@example.org" "pa" eq_refl)
             (JStr "tok-1")).
    + reflexivity.
    + vm_compute. apply Nat.lt_0_1.
Defined.

(* ================================================================== *)
(** * Further properties *)

(** *** What [readCredentials] returns *)

Lemma includes_app c a b : includes c (a ++ b) = includes c a || includes c b.
Proof.
  induction a as [|d a IH]; [reflexivity|].
  simpl. rewrite IH. apply orb_assoc.
Qed.

Lemma includes_before c d s : includes c s = false -> includes c (before d s) = false.
Proof.
  induction s as [|e s IH]; [reflexivity|].
  simpl. intros H. apply orb_false_elim in H. destruct H as [H1 H2].
  destruct (Ascii.eqb e d); [reflexivity|].
  simpl. rewrite H1, (IH H2). reflexivity.
Qed.

Lemma includes_before_self c s : includes c (before c s) = false.
Proof.
  induction s as [|e s IH]; [reflexivity|].
  simpl. destruct (Ascii.eqb e c) eqn:E; [reflexivity|].
  simpl. rewrite E, IH. reflexivity.
Qed.

Lemma includes_after c d s : includes c s = false -> includes c (after d s) = false.
Proof.
  induction s as [|e s IH]; [reflexivity|].
  simpl. intros H. apply orb_false_elim in H. destruct H as [H1 H2].
  destruct (Ascii.eqb e d); auto.
Qed.

Lemma includes_trimStart_false c s :
  includes c s = false -> includes c (trimStart s) = false.
Proof.
  induction s as [|e s IH]; [reflexivity|].
  intros H. simpl. destruct (isWhiteSpace e); [|exact H].
  simpl in H. apply orb_false_elim in H. apply IH, H.
Qed.

Lemma includes_trimEnd_false c s :
  includes c s = false -> includes c (trimEnd s) = false.
Proof.
  induction s as [|e s IH]; [reflexivity|].
  intros H. simpl in H. apply orb_false_elim in H. destruct H as [H1 H2].
  specialize (IH H2). simpl.
  destruct (trimEnd s) as [|f r].
  - destruct (isWhiteSpace e); [reflexivity|]. simpl. rewrite H1. reflexivity.
  - simpl in *. rewrite H1. exact IH.
Qed.

Lemma includes_trim_false c s : includes c s = false -> includes c (trim s) = false.
Proof. intros H. apply includes_trimEnd_false, includes_trimStart_false, H. Qed.

Lemma trim_idem s : trim (trim s) = trim s.
Proof. unfold trim at 2. rewrite trim_trimEnd, trim_trimStart. reflexivity. Qed.

Lemma split_nonempty sep s : split sep s <> [].
Proof.
  destruct s as [|c s]; [discriminate|].
  simpl. destruct (Ascii.eqb c sep); [discriminate|].
  destruct (split sep s); discriminate.
Qed.

(** No piece of [s.split(sep)] contains the separator. *)
Lemma split_pieces sep s : Forall (fun l => includes sep l = false) (split sep s).
Proof.
  induction s as [|c s IH].
  - repeat constructor.
  - simpl. destruct (Ascii.eqb c sep) eqn:E.
    + constructor; [reflexivity | exact IH].
    + destruct (split sep s) as [|h t]; [repeat constructor; simpl; rewrite E; reflexivity|].
      inversion IH as [|? ? Hh Ht]; subst.
      constructor; [|exact Ht]. simpl. rewrite E, Hh. reflexivity.
Qed.

(** A field of a credential as [readCredentials] returns it: trimmed, and
    free of colons and line feeds. *)
Definition clean (s : string) : Prop :=
  trim s = s /\ includes colon s = false /\ includes LF s = false.

Lemma credential_of_line_clean line :
  includes LF line = false ->
  Forall (fun c => clean (email c) /\ clean (password c)) (credential_of_line line).
Proof.
  intros H. unfold credential_of_line.
  destruct (includes colon line); [|constructor].
  constructor; [|constructor]. simpl. unfold clean.
  repeat split.
  - apply trim_idem.
  - rewrite includes_trim. apply includes_before_self.
  - apply includes_trim_false, includes_before, H.
  - apply trim_idem.
  - rewrite includes_trim. apply includes_before_self.
  - apply includes_trim_false, includes_before, includes_after, H.
Qed.

Lemma credential_of_line_count lines :
  List.length (flat_map credential_of_line lines)
  = List.length (filter (includes colon) lines).
Proof.
  induction lines as [|l lines IH]; [reflexivity|].
  simpl. rewrite length_app, IH. unfold credential_of_line.
  destruct (includes colon l); reflexivity.
Qed.

Lemma V1_readCredentials_run filePath env st :
  exists evs,
    V1.readCredentials filePath env st =
    (Return (match readFile env filePath with
             | inr content => flat_map credential_of_line (split LF content)
             | inl _ => []
             end), st, evs).
Proof.
  unfold V1.readCredentials, fs_readFile. unfold bind at 1, spinner, emit.
  unfold try_catch, bind.
  destruct (readFile env filePath) as [e|content].
  - eexists. reflexivity.
  - rewrite parse_credentials_lines. eexists. reflexivity.
Qed.

Lemma V2_readCredentials_run filePath env st :
  V2.readCredentials filePath env st =
  match readFile env filePath with
  | inr content =>
      (Return (flat_map credential_of_line (split LF content)), st, [])
  | inl e => (Return [], st, [Console ("Error reading credentials: " ++ e)])
  end.
Proof.
  unfold V2.readCredentials, fs_readFile, try_catch, bind.
  destruct (readFile env filePath) as [e|content]; [reflexivity|].
  rewrite parse_credentials_lines. reflexivity.
Qed.

(** X1. [readCredentials] never throws, whatever the file holds; it returns
    as many credentials as the file has lines with a colon, and both fields
    of every credential are trimmed and hold neither a colon nor a line
    feed. *)
Theorem readCredentials_clean env st filePath :
  exists credentials,
    outcome (V1.readCredentials filePath env st) = Return credentials /\
    Forall (fun c => clean (email c) /\ clean (password c)) credentials /\
    forall content,
      readFile env filePath = inr content ->
      List.length credentials
      = List.length (filter (includes colon) (split LF content)).
Proof.
  destruct (V1_readCredentials_run filePath env st) as (evs & Hrun).
  rewrite Hrun, outcome_mk. eexists. split; [reflexivity|].
  destruct (readFile env filePath) as [e|content].
  - split; [constructor | discriminate].
  - split.
    + apply Forall_flat_map.
      eapply Forall_impl; [|apply (split_pieces LF content)].
      intros line H. apply credential_of_line_clean, H.
    + intros content' [= <-]. apply credential_of_line_count.
Qed.

(** *** The failure log is a credentials file *)

(** The line that [loginAccount] appends to [failed_logins.txt] for an
    account: [`${email}:${password}\n`]. *)
Definition credential_line (c : Credential) : string :=
  email c ++ ":" ++ password c ++ nl.

Fixpoint file_of (credentials : list Credential) : string :=
  match credentials with
  | [] => ""
  | c :: rest => credential_line c ++ file_of rest
  end.

Lemma split_line sep l rest :
  includes sep l = false ->
  split sep (l ++ String sep rest) = l :: split sep rest.
Proof.
  induction l as [|c l IH]; intros H; simpl.
  - rewrite Ascii.eqb_refl. reflexivity.
  - simpl in H. apply orb_false_elim in H. destruct H as [H1 H2].
    rewrite H1, (IH H2). reflexivity.
Qed.

Lemma before_field c a b : includes c a = false -> before c (a ++ String c b) = a.
Proof.
  induction a as [|d a IH]; intros H; simpl.
  - rewrite Ascii.eqb_refl. reflexivity.
  - simpl in H. apply orb_false_elim in H. destruct H as [H1 H2].
    rewrite H1, (IH H2). reflexivity.
Qed.

Lemma after_field c a b : includes c a = false -> after c (a ++ String c b) = b.
Proof.
  induction a as [|d a IH]; intros H; simpl.
  - rewrite Ascii.eqb_refl. reflexivity.
  - simpl in H. apply orb_false_elim in H. destruct H as [H1 H2].
    rewrite H1. exact (IH H2).
Qed.

Lemma includes_field c a b : includes c (a ++ String c b) = true.
Proof.
  rewrite includes_app. simpl. rewrite Ascii.eqb_refl, orb_true_r. reflexivity.
Qed.

Lemma string_app_assoc (a b c : string) : (a ++ b) ++ c = a ++ b ++ c.
Proof. induction a as [|x a IH]; simpl; [|rewrite IH]; reflexivity. Qed.

Lemma credential_of_line_written c :
  clean (email c) -> clean (password c) ->
  credential_of_line (email c ++ ":" ++ password c) = [c].
Proof.
  intros (Te & Ce & _) (Tp & Cp & _). unfold credential_of_line.
  change (email c ++ ":" ++ password c)
    with (email c ++ String colon (password c)).
  rewrite includes_field, (before_field _ _ _ Ce), (after_field _ _ _ Ce).
  rewrite (before_without _ Cp), Te, Tp. destruct c; reflexivity.
Qed.

Lemma file_of_lines credentials :
  Forall (fun c => clean (email c) /\ clean (password c)) credentials ->
  flat_map credential_of_line (split LF (file_of credentials)) = credentials.
Proof.
  induction 1 as [|c rest [He Hp] _ IH]; [reflexivity|].
  cbn [file_of]. unfold credential_line, nl.
  replace ((email c ++ ":" ++ password c ++ String (ascii_of_nat 10) "")
           ++ file_of rest)
    with ((email c ++ ":" ++ password c) ++ String LF (file_of rest)).
  - rewrite split_line.
    + cbn [flat_map]. rewrite (credential_of_line_written c He Hp), IH. reflexivity.
    + destruct He as (_ & _ & Le), Hp as (_ & _ & Lp).
      rewrite includes_app, Le. simpl. exact Lp.
  - rewrite !string_app_assoc. simpl. rewrite ?string_app_assoc. reflexivity.
Qed.

(** X2. Round trip: a file made of the lines that [loginAccount] writes to
    the failure log, one [email:password] line per account, is read back by
    [readCredentials] as exactly those accounts, in order, provided each
    field is trimmed and holds no colon and no line feed. *)
Theorem failure_log_reads_back env st filePath credentials :
  Forall (fun c => clean (email c) /\ clean (password c)) credentials ->
  readFile env filePath = inr (file_of credentials) ->
  map (fun c => failure_line (email c) (password c)) credentials
  = map (fun c => AppendFile "failed_logins.txt" (credential_line c)) credentials /\
  outcome (V1.readCredentials filePath env st) = Return credentials /\
  outcome (V2.readCredentials filePath env st) = Return credentials.
Proof.
  intros Hclean Hfile. split; [reflexivity|].
  destruct (V1_readCredentials_run filePath env st) as (evs & Hrun).
  rewrite Hrun, V2_readCredentials_run, Hfile, !outcome_mk.
  rewrite (file_of_lines _ Hclean). split; reflexivity.
Qed.

Definition demo_accounts : list Credential :=
  [ {| email := "ann@example.org"; password := "pa ss" |};
    {| email := "bob@example.org"; password := "" |} ].

Definition retry_env (env : Env) (content : string) : Env :=
  {| net := net env;
     random := random env;
     imageCaptcha := imageCaptcha env;
     solveImage := solveImage env;
     generateContent := generateContent env;
     answers := answers env;
     saveImage := saveImage env;
     sendMessage := sendMessage env;
     sendPhoto := sendPhoto env;
     reply := reply env;
     readFile := fun path =>
       if (path =? "failed_logins.txt")%string then inr content
       else readFile env path;
     newAgent := newAgent env |}.

(** Two failed accounts, one with an empty secret, fed back as input. *)
Lemma failure_log_reads_back_demo :
  let env := retry_env (demo_env 0 five_points) (file_of demo_accounts) in
  outcome (V1.readCredentials "failed_logins.txt" env (demo_state "manual" []))
  = Return demo_accounts /\
  outcome (V2.readCredentials "failed_logins.txt" env (demo_state "manual" []))
  = Return demo_accounts.
Proof.
  apply (failure_log_reads_back
           (retry_env (demo_env 0 five_points) (file_of demo_accounts))
           (demo_state "manual" []) "failed_logins.txt" demo_accounts).
  - repeat constructor.
  - reflexivity.
Defined.

(** X3. When the file cannot be read, [readCredentials] returns the empty
    list and reports the error (on the spinner in variant 1, on the console
    in variant 2) instead of throwing; and on every file the two variants
    return the same credentials. *)
Theorem readCredentials_unreadable env st filePath :
  outcome (V2.readCredentials filePath env st)
  = outcome (V1.readCredentials filePath env st) /\
  final (V2.readCredentials filePath env st) = st /\
  forall e,
    readFile env filePath = inl e ->
    V1.readCredentials filePath env st =
    (Return [], st,
     [Spinner SpinStart "Reading credentials...";
      Spinner SpinFail ("Error reading credentials: " ++ e)]) /\
    V2.readCredentials filePath env st =
    (Return [], st, [Console ("Error reading credentials: " ++ e)]).
Proof.
  destruct (V1_readCredentials_run filePath env st) as (evs & Hrun).
  rewrite V2_readCredentials_run.
  split; [|split].
  - rewrite Hrun. destruct (readFile env filePath); reflexivity.
  - destruct (readFile env filePath); reflexivity.
  - intros e He. rewrite He. split; [|reflexivity].
    unfold V1.readCredentials, fs_readFile, try_catch, bind, spinner, emit.
    rewrite He. reflexivity.
Qed.

(* ================================================================== *)
(** ** Through which proxy each request goes (variant 3) *)

(** The agents of the requests of a trace, in order ([None]: a direct
    connection). *)
Fixpoint agents (evs : list Event) : list (option Agent) :=
  match evs with
  | [] => []
  | Fetch _ _ agent :: r => agent :: agents r
  | _ :: r => agents r
  end.

(** Lines 682-685: the agent that [getProxyAgent] builds for a proxy. *)
Definition agent_of (proxy : string) : Agent :=
  if startsWith "socks" proxy then SocksProxyAgent proxy else HttpsProxyAgent proxy.

(** Proxying is on and the pool is not empty. *)
Definition proxied (st : State) : bool :=
  useProxies st && negb (List.length (proxyList st) =? 0).

(** The agent of the i-th request made from state [st] (counting from 0). *)
Definition nth_agent (st : State) (i : nat) : option Agent :=
  if proxied st then
    option_map agent_of
      (nth_error (proxyList st)
         ((currentProxyIndex st + i) mod List.length (proxyList st)))
  else None.

(** From [st] to [st'] with events [evs]: the requests went through the
    proxies of the pool in turn, and the cursor moved by one per request. *)
Definition rotates (st st' : State) (evs : list Event) : Prop :=
  useProxies st' = useProxies st /\
  proxyList st' = proxyList st /\
  agents evs = map (nth_agent st) (seq 0 (List.length (agents evs))) /\
  currentProxyIndex st' =
  if proxied st
  then (currentProxyIndex st + List.length (agents evs))
       mod List.length (proxyList st)
  else currentProxyIndex st.

(** Of a computation: it rotates from every state whose pool is usable
    (the cursor is in range and the agent constructors accept every
    entry). *)
Definition rotating {A} (m : M A) : Prop :=
  forall env st,
    usable_pool env st -> rotates st (final (m env st)) (events (m env st)).

Lemma agents_app e1 e2 : agents (e1 ++ e2) = (agents e1 ++ agents e2)%list.
Proof.
  induction e1 as [|e e1 IH]; [reflexivity|].
  destruct e; simpl; rewrite ?IH; reflexivity.
Qed.

Lemma proxied_pool st : proxied st = true -> List.length (proxyList st) <> 0.
Proof.
  unfold proxied. intros H. apply andb_prop in H. destruct H as [_ H].
  apply negb_true_iff, Nat.eqb_neq in H. exact H.
Qed.

Lemma rotates_wf st st' evs : rotates st st' evs -> proxy_wf st -> proxy_wf st'.
Proof.
  intros (U & L & _ & C) [H|H]; unfold proxy_wf; rewrite L.
  - left. exact H.
  - destruct (proxied st) eqn:E.
    + right. rewrite C. apply Nat.mod_upper_bound, proxied_pool, E.
    + right. rewrite C. exact H.
Qed.

Lemma rotates_usable env st st' evs :
  rotates st st' evs -> usable_pool env st -> usable_pool env st'.
Proof.
  intros Hrot [Hwf Hpool]. split; [exact (rotates_wf _ _ _ Hrot Hwf)|].
  destruct Hrot as (U & L & _). unfold pool_accepted in *.
  rewrite U, L. exact Hpool.
Qed.

Lemma proxied_cursor st :
  proxy_wf st -> proxied st = true ->
  currentProxyIndex st < List.length (proxyList st).
Proof.
  intros [H|H] E; [|exact H].
  apply proxied_pool in E. rewrite H in E. contradiction.
Qed.

Lemma rotates_refl st : proxy_wf st -> rotates st st [].
Proof.
  intros Hwf. repeat split. simpl. destruct (proxied st) eqn:E; [|reflexivity].
  rewrite Nat.add_0_r. symmetry. apply Nat.mod_small, proxied_cursor; assumption.
Qed.

Lemma nth_agent_shift st st' n i :
  useProxies st' = useProxies st ->
  proxyList st' = proxyList st ->
  currentProxyIndex st' =
  (if proxied st
   then (currentProxyIndex st + n) mod List.length (proxyList st)
   else currentProxyIndex st) ->
  nth_agent st' i = nth_agent st (n + i).
Proof.
  intros U L C. unfold nth_agent, proxied. rewrite U, L.
  fold (proxied st). destruct (proxied st) eqn:E; [|reflexivity].
  rewrite C, Nat.Div0.add_mod_idemp_l, Nat.add_assoc. reflexivity.
Qed.

Lemma map_seq_from {A} len : forall (f : nat -> A) n,
  map f (seq n len) = map (fun i => f (n + i)) (seq 0 len).
Proof.
  induction len as [|len IH]; intros f n; [reflexivity|].
  simpl. rewrite Nat.add_0_r. f_equal.
  rewrite (IH f (S n)), (IH (fun i => f (n + i)) 1).
  apply map_ext. intros i. f_equal. lia.
Qed.

Lemma rotates_trans st st1 st2 e1 e2 :
  rotates st st1 e1 -> rotates st1 st2 e2 -> rotates st st2 (e1 ++ e2)%list.
Proof.
  intros (U1 & L1 & A1 & C1) (U2 & L2 & A2 & C2).
  assert (P : proxied st1 = proxied st) by (unfold proxied; rewrite U1, L1; reflexivity).
  split; [congruence|]. split; [congruence|].
  rewrite agents_app, length_app. split.
  - rewrite seq_app, map_app, <- A1. f_equal.
    rewrite A2 at 1. simpl. rewrite (map_seq_from _ (nth_agent st)).
    apply map_ext. intros i. apply nth_agent_shift; assumption.
  - rewrite C2, P, L1, C1.
    destruct (proxied st); [|reflexivity].
    rewrite Nat.Div0.add_mod_idemp_l, Nat.add_assoc. reflexivity.
Qed.

Lemma rotating_ret {A} (a : A) : rotating (ret a).
Proof. intros env st H. apply rotates_refl, H. Qed.

Lemma rotating_throw {A} e : rotating (@throw A e).
Proof. intros env st H. apply rotates_refl, H. Qed.

Lemma rotating_get_state : rotating get_state.
Proof. intros env st H. apply rotates_refl, H. Qed.

Lemma rotating_lift {A} (r : string + A) : rotating (lift r).
Proof. destruct r; [apply rotating_throw | apply rotating_ret]. Qed.

(** An event that is not a request. *)
Definition no_request (e : Event) : bool :=
  match e with Fetch _ _ _ => false | _ => true end.

Lemma rotating_emit e : no_request e = true -> rotating (emit e).
Proof.
  intros He env st H. destruct (rotates_refl st (proj1 H)) as (U & L & _ & C).
  destruct e; try discriminate; repeat split; exact C.
Qed.

Lemma rotating_ask {A} p (oracle : Env -> nat -> A) : rotating (ask p oracle).
Proof.
  intros env st H. destruct (rotates_refl st (proj1 H)) as (U & L & _ & C).
  repeat split; exact C.
Qed.

Lemma rotating_bind {A B} (m : M A) (f : A -> M B) :
  rotating m -> (forall a, rotating (f a)) -> rotating (bind m f).
Proof.
  intros Hm Hf env st H. rewrite bind_run.
  specialize (Hm env st H).
  destruct (outcome (m env st)) as [a|e|]; try exact Hm.
  unfold prefixed. rewrite final_mk, events_mk.
  apply rotates_trans with (st1 := final (m env st)); [exact Hm|].
  apply Hf. exact (rotates_usable _ _ _ _ Hm H).
Qed.

Lemma rotating_try_catch {A} (m : M A) (h : string -> M A) :
  rotating m -> (forall e, rotating (h e)) -> rotating (try_catch m h).
Proof.
  intros Hm Hh env st H. rewrite try_catch_run.
  specialize (Hm env st H).
  destruct (outcome (m env st)) as [a|e|]; try exact Hm.
  unfold prefixed. rewrite final_mk, events_mk.
  apply rotates_trans with (st1 := final (m env st)); [exact Hm|].
  apply Hh. exact (rotates_usable _ _ _ _ Hm H).
Qed.

Lemma rotating_for_upto {A} (body : nat -> M (option A)) n :
  (forall i, rotating (body i)) -> forall i, rotating (for_upto n i body).
Proof.
  intros Hb. induction n as [|n IH]; intros i; simpl.
  - apply rotating_ret.
  - apply rotating_bind; [apply Hb|].
    intros [v|]; [apply rotating_ret | apply IH].
Qed.

(** Lines 714-723 (and 746-755, 808-821, 878-889): the agent taken from
    [getProxyAgent] is the one of the request that follows. *)
Lemma rotating_proxied_fetch {B} ep url (k : Response -> M B) :
  (forall response, rotating (k response)) ->
  rotating (agent <- V3.getProxyAgent ;; response <- fetch ep url agent ;; k response).
Proof.
  intros Hk env st Husable. pose proof (proj1 Husable) as Hwf.
  assert (Hstep : exists st1,
            V3.getProxyAgent env st = (Return (nth_agent st 0), st1, []) /\
            rotates st (tick (PNet ep) st1) [Fetch ep url (nth_agent st 0)]).
  { assert (Hagent : nth_agent st 0 =
                     if proxied st
                     then option_map agent_of
                            (nth_error (proxyList st) (currentProxyIndex st))
                     else None).
    { unfold nth_agent. destruct (proxied st) eqn:P; [|reflexivity].
      rewrite Nat.add_0_r, Nat.mod_small by (apply proxied_cursor; assumption).
      reflexivity. }
    unfold V3.getProxyAgent.
    destruct (proxied st) eqn:P.
    - pose proof (proxied_cursor st Hwf P) as Hc.
      pose proof P as P'.
      unfold proxied in P'. apply andb_prop in P'. destruct P' as [U K].
      apply negb_true_iff in K. rewrite U, K. cbn [negb orb].
      destruct (nth_error (proxyList st) (currentProxyIndex st)) as [proxy|] eqn:E;
        [|apply nth_error_None in E; lia].
      assert (Hnew : newAgent env proxy = None).
      { apply (proj1 (Forall_forall _ _) (proj2 Husable U)).
        exact (nth_error_In _ _ E). }
      rewrite Hnew.
      eexists. split; [rewrite Hagent; reflexivity|].
      unfold rotates. rewrite P. cbn [agents List.length seq map].
      repeat split.
    - assert (D : negb (useProxies st) || (List.length (proxyList st) =? 0) = true).
      { unfold proxied in P. destruct (useProxies st); [|reflexivity].
        simpl in P. apply negb_false_iff in P. exact P. }
      rewrite D. exists st. split; [rewrite Hagent; reflexivity|].
      unfold rotates. rewrite P. repeat split. }
  destruct Hstep as (st1 & Hrun & Hrot).
  rewrite (bind_known _ _ _ _ _ _ _ Hrun), bind_run, fetch_run.
  unfold prefixed.
  destruct (net env ep (calls st1 (PNet ep))) as [e|response];
    rewrite !outcome_mk, !final_mk, !events_mk; [exact Hrot|].
  cbn [app].
  apply (rotates_trans _ _ _ [Fetch ep url (nth_agent st 0)] _ Hrot).
  apply Hk. exact (rotates_usable _ _ _ _ Hrot Husable).
Qed.

Ltac unfold_small :=
  unfold for_range, check_ok, response_json, js_destructure, question,
    Math_random, console_log, spinner, sleep, appendFile.

(** Follows the structure of the code, taking [getProxyAgent] together with
    the request it is called for. *)
Ltac rotation :=
  repeat first
    [ apply rotating_ret
    | apply rotating_throw
    | apply rotating_get_state
    | apply rotating_lift
    | apply rotating_emit; reflexivity
    | apply rotating_ask
    | apply rotating_proxied_fetch; intros ?
    | apply rotating_bind; [|intros ?]
    | apply rotating_try_catch; [|intros ?]
    | apply rotating_for_upto; intros ?
    | match goal with
      | |- rotating (if ?b then _ else _) => destruct b
      | |- rotating (match ?x with _ => _ end) => destruct x
      end ].

Lemma rotating_generateAppId : rotating generateAppId.
Proof.
  unfold generateAppId. generalize "67". generalize 22.
  induction n as [|n IH]; intros appId; simpl.
  - apply rotating_ret.
  - apply rotating_bind; [apply rotating_ask | intros r; apply IH].
Qed.

Lemma rotating_getPuzzleId appId : rotating (V3.getPuzzleId appId).
Proof. unfold V3.getPuzzleId, V3.getPuzzleId_try. unfold_small. rotation. Qed.

Lemma rotating_getPuzzleImage puzzleId appId :
  rotating (V3.getPuzzleImage puzzleId appId).
Proof. unfold V3.getPuzzleImage, V3.getPuzzleImage_try. unfold_small. rotation. Qed.

Lemma rotating_processCaptcha image : rotating (V3.processCaptcha image).
Proof. unfold V3.processCaptcha, V3.processCaptcha_try. unfold_small. rotation. Qed.

Lemma rotating_getUserPoints token appId : rotating (V3.getUserPoints token appId).
Proof. unfold V3.getUserPoints, V3.getUserPoints_try. unfold_small. rotation. Qed.

Lemma rotating_login_try email password appId :
  rotating (V3.login_try email password appId).
Proof.
  unfold V3.login_try.
  apply rotating_bind; [apply rotating_getPuzzleId | intros puzzleId].
  apply rotating_bind; [apply rotating_getPuzzleImage | intros imageBase64].
  apply rotating_bind; [apply rotating_processCaptcha | intros captchaText].
  apply rotating_proxied_fetch. intros loginResponse.
  unfold_small.
  apply rotating_bind; [rotation | intros loginResult].
  destruct (ok loginResponse).
  - apply rotating_bind; [rotation | intros data].
    apply rotating_bind; [rotation | intros token].
    apply rotating_bind; [apply rotating_getUserPoints | intros points].
    rotation.
  - rotation.
Qed.

Lemma rotating_loginAccount email password : rotating (V3.loginAccount email password).
Proof.
  unfold V3.loginAccount, for_range.
  apply rotating_bind; [|intros r; apply rotating_ret].
  apply rotating_for_upto. intros k. unfold V3.loginAccount_round.
  apply rotating_bind; [apply rotating_generateAppId | intros appId].
  apply rotating_bind; [unfold console_log; apply rotating_emit; reflexivity | intros _].
  apply rotating_try_catch.
  - apply rotating_bind; [apply rotating_login_try | intros b; apply rotating_ret].
  - intros e. unfold_small. rotation.
Qed.

(** *** The proxy file *)

Lemma trimStart_blank s : trimStart s = "" <-> all_whitespace s.
Proof.
  induction s as [|c s IH]; simpl.
  - split; [intros _; apply all_whitespace_nil | reflexivity].
  - destruct (isWhiteSpace c) eqn:E.
    + rewrite IH. split.
      * intros H. apply all_whitespace_cons; assumption.
      * intros H. inversion H. assumption.
    + split; [discriminate|].
      intros H. inversion H as [|? ? Hc _]. congruence.
Qed.

Lemma trimEnd_blank s : trimEnd s = "" <-> all_whitespace s.
Proof.
  induction s as [|c s IH]; simpl.
  - split; [intros _; apply all_whitespace_nil | reflexivity].
  - destruct (trimEnd s) as [|d r] eqn:T.
    + destruct (isWhiteSpace c) eqn:E.
      * split; [|reflexivity]. intros _.
        apply all_whitespace_cons; [exact E | apply IH; reflexivity].
      * split; [discriminate|].
        intros H. inversion H as [|? ? Hc _]. congruence.
    + split; [discriminate|].
      intros H. inversion H as [|? ? _ Hs]. apply IH in Hs. discriminate.
Qed.

Lemma all_whitespace_app a b :
  all_whitespace (a ++ b) <-> all_whitespace a /\ all_whitespace b.
Proof.
  unfold all_whitespace. induction a as [|c a IH]; simpl.
  - split; [intros H; split; [constructor | exact H] | intros [_ H]; exact H].
  - split.
    + intros H. inversion H as [|? ? Hc Hr]. apply IH in Hr.
      destruct Hr as [Ha Hb]. split; [constructor; assumption | exact Hb].
    + intros [Ha Hb]. inversion Ha as [|? ? Hc Hr].
      constructor; [exact Hc | apply IH; split; assumption].
Qed.

(** A line trims to nothing exactly when it is blank. *)
Lemma trim_blank s : trim s = "" <-> all_whitespace s.
Proof.
  unfold trim. rewrite trimEnd_blank. split.
  - intros H. destruct (trimStart_decomp s) as (pre & Hs & Hpre).
    rewrite Hs. apply all_whitespace_app. split; assumption.
  - intros H. destruct (trimStart_decomp s) as (pre & Hs & Hpre).
    rewrite Hs in H. apply all_whitespace_app in H. apply H.
Qed.

(** The entries that [loadProxies] makes of the lines of a file. *)
Definition proxies_in (content : string) : list string :=
  filter (fun line => 0 <? String.length line) (map trim (split LF content)).

Lemma loadProxies_run filePath env st :
  V3_main.loadProxies filePath env st =
  match readFile env filePath with
  | inr content => (Return (proxies_in content), st, [])
  | inl _ =>
      (Return [], st, [Console "No proxy file found or proxy usage disabled"])
  end.
Proof.
  unfold V3_main.loadProxies, fs_readFile, try_catch, bind.
  destruct (readFile env filePath); reflexivity.
Qed.

Lemma proxies_in_entries content p :
  In p (proxies_in content) <->
  exists line, In line (split LF content) /\ p = trim line /\ ~ all_whitespace line.
Proof.
  unfold proxies_in. rewrite filter_In, in_map_iff. split.
  - intros [(line & <- & Hin) Hlen]. exists line. repeat split; [exact Hin|].
    intros Hb. apply trim_blank in Hb. rewrite Hb in Hlen. discriminate.
  - intros (line & Hin & -> & Hb). split; [exists line; split; [reflexivity|exact Hin]|].
    destruct (trim line) eqn:T; [|reflexivity].
    exfalso. apply Hb, trim_blank, T.
Qed.

(** X4. [loadProxies] never throws. From a readable file it returns, in the
    order of the file, the trimmed text of every line that is not blank: no
    entry is empty, none has whitespace at either end or a line feed inside.
    When the file cannot be read it returns the empty pool and says so on
    the console. *)
Theorem loadProxies_entries env st filePath :
  exists pool evs,
    V3_main.loadProxies filePath env st = (Return pool, st, evs) /\
    Forall (fun p => p <> "" /\ trim p = p /\ includes LF p = false) pool /\
    (forall content,
       readFile env filePath = inr content ->
       evs = [] /\
       pool = flat_map (fun line => if (trim line =? "")%string then []
                                    else [trim line])
                (split LF content) /\
       forall p, In p pool <->
         exists line, In line (split LF content) /\ p = trim line /\
                      ~ all_whitespace line) /\
    (forall e,
       readFile env filePath = inl e ->
       pool = [] /\ evs = [Console "No proxy file found or proxy usage disabled"]).
Proof.
  rewrite loadProxies_run.
  destruct (readFile env filePath) as [e|content]; eexists _, _;
    (split; [reflexivity|]).
  - split; [constructor|]. split; [discriminate|].
    intros e' _. split; reflexivity.
  - split; [|split; [|discriminate]].
    + apply Forall_forall. intros p Hp.
      unfold proxies_in in Hp. apply filter_In in Hp. destruct Hp as [Hin Hlen].
      apply in_map_iff in Hin. destruct Hin as (line & <- & Hin).
      split; [|split].
      * intros E. rewrite E in Hlen. discriminate.
      * apply trim_idem.
      * apply includes_trim_false.
        pose proof (split_pieces LF content) as F.
        rewrite Forall_forall in F. apply F, Hin.
    + intros content' [= <-]. split; [reflexivity|]. split.
      * unfold proxies_in. induction (split LF content) as [|l ls IH]; [reflexivity|].
        simpl. destruct (trim l) eqn:T; simpl; rewrite IH; reflexivity.
      * apply proxies_in_entries.
Qed.

(** *** The proxy question *)

(** The pool that [main] loads: the entries of [proxies.txt] when the
    answer to the proxy question is [y] or [Y], nothing otherwise. *)
Definition loaded_pool (env : Env) (st : State) : list string :=
  if lower_is_y (answers env (calls st PQuestion)) then
    match readFile env "proxies.txt" with
    | inr content => proxies_in content
    | inl _ => []
    end
  else [].

Lemma main_proxies_run env st :
  exists st' evs,
    V3_main.main_proxies env st = (Return tt, st', evs) /\
    useProxies st' = lower_is_y (answers env (calls st PQuestion)) /\
    (useProxies st' = true -> proxyList st' = loaded_pool env st) /\
    currentProxyIndex st' = currentProxyIndex st /\
    model st' = model st /\
    agents evs = [] /\ records evs = [].
Proof.
  unfold V3_main.main_proxies, loaded_pool.
  rewrite (bind_known _ _ _ _ _ _ _ (console_log_run _ env st)).
  unfold question, modify, get_state, ask, emit.
  unfold bind at 1 2 3 4 5. cbv beta iota. cbn [useProxies set_useProxies].
  destruct (lower_is_y (answers env (calls st PQuestion))) eqn:Y.
  - unfold bind at 1. rewrite loadProxies_run.
    destruct (readFile env "proxies.txt") as [e|content].
    + eexists _, _. split; [reflexivity|]. repeat split.
    + unfold bind. cbv beta iota.
      destruct (0 <? List.length (proxies_in content));
        eexists _, _; (split; [reflexivity|]); repeat split.
  - eexists _, _. split; [reflexivity|]. repeat split. discriminate.
Qed.

(** *** Every request of the batch goes through the next proxy *)

Lemma rotating_main_loop total credentials : forall index successful failed,
  rotating (V3_main.main_loop total index credentials successful failed).
Proof.
  induction credentials as [|cred rest IH]; intros index successful failed;
    cbn [V3_main.main_loop].
  - apply rotating_ret.
  - apply rotating_bind; [unfold console_log; apply rotating_emit; reflexivity|].
    intros _. apply rotating_bind; [apply rotating_loginAccount|].
    intros result. cbv zeta.
    apply rotating_bind; [unfold sleep; apply rotating_emit; reflexivity|].
    intros _. apply IH.
Qed.

(** The proxy of the i-th request of a run that starts with the cursor at 0
    on [pool]: a direct connection when the pool is empty. *)
Definition pool_agent (pool : list string) (i : nat) : option Agent :=
  option_map agent_of (nth_error pool (i mod List.length pool)).

Lemma pool_agent_nil i : pool_agent [] i = None.
Proof. unfold pool_agent. destruct (i mod List.length []); reflexivity. Qed.

Lemma nth_agent_from_start st pool i :
  currentProxyIndex st = 0 ->
  (useProxies st = true -> proxyList st = pool) ->
  (useProxies st = false -> pool = []) ->
  nth_agent st i = pool_agent pool i.
Proof.
  intros C Hy Hn. unfold nth_agent, proxied.
  destruct (useProxies st).
  - rewrite (Hy eq_refl), C. destruct pool as [|p pool]; [|reflexivity].
    rewrite pool_agent_nil. reflexivity.
  - rewrite (Hn eq_refl), pool_agent_nil. reflexivity.
Qed.

(** X5. Lines 937-971 with lines 676-686: after the proxy question, and
    provided the agent constructors accept every entry of the pool loaded
    from [proxies.txt], every request of the whole batch (puzzle, image,
    login and points requests of every attempt of every account) goes
    through the next entry of that pool, starting with the first entry and
    wrapping around, so that with two proxies or more consecutive requests
    of one login use different ones; with any answer but [y] or [Y], or an
    empty or unreadable proxy file, every request is direct. *)
Theorem batch_requests_rotate env st credentials :
  currentProxyIndex st = 0 ->
  Forall (fun proxy => newAgent env proxy = None) (loaded_pool env st) ->
  let r := (V3_main.main_proxies ;;
            V3_main.main_loop (List.length credentials) 0 credentials 0 0) env st in
  agents (events r)
  = map (pool_agent (loaded_pool env st))
      (seq 0 (List.length (agents (events r)))).
Proof.
  intros C Hpool r. subst r.
  destruct (main_proxies_run env st) as (st' & evs & Hrun & U & L & C' & _ & A & _).
  rewrite (bind_known _ _ _ _ _ _ _ Hrun), events_prefixed, agents_app, A.
  cbn [app].
  assert (Hwf : usable_pool env st').
  { split.
    - unfold proxy_wf. rewrite C', C.
      destruct (proxyList st'); [left; reflexivity | right; simpl; lia].
    - intros Hu. unfold pool_accepted. rewrite (L Hu). exact Hpool. }
  destruct (rotating_main_loop (List.length credentials) credentials 0 0 0
              env st' Hwf) as (_ & _ & Hagents & _).
  rewrite Hagents at 1. apply map_ext. intros i.
  apply nth_agent_from_start; [congruence | exact L |].
  intros Hu. unfold loaded_pool. rewrite <- U, Hu. reflexivity.
Qed.

(** Two proxies and one account whose first submission is rejected: seven
    requests (puzzle, image, login; puzzle, image, login, points),
    alternating between the two proxies. *)
Definition proxy_env : Env :=
  {| net := net (demo_env 1 five_points);
     random := random (demo_env 1 five_points);
     imageCaptcha := imageCaptcha (demo_env 1 five_points);
     solveImage := solveImage (demo_env 1 five_points);
     generateContent := generateContent (demo_env 1 five_points);
     answers := fun _ => "Y";
     saveImage := saveImage (demo_env 1 five_points);
     sendMessage := sendMessage (demo_env 1 five_points);
     sendPhoto := sendPhoto (demo_env 1 five_points);
     reply := reply (demo_env 1 five_points);
     readFile := fun path =>
       if (path =? "proxies.txt")%string
       then inr (" http://10.0.0.1:8080 " ++ nl ++ nl ++ "socks5://10.0.0.2:1080" ++ nl)
       else readFile (demo_env 1 five_points) path;
     newAgent := newAgent (demo_env 1 five_points) |}.

Lemma batch_requests_rotate_demo :
  let r := (V3_main.main_proxies ;;
            V3_main.main_loop 1 0 [ {| email := "ann@example.org"; password := "pa" |} ]
              0 0) proxy_env (demo_state "2captcha" []) in
  agents (events r)
  = map (pool_agent (loaded_pool proxy_env (demo_state "2captcha" [])))
      (seq 0 (List.length (agents (events r)))).
Proof.
  apply (batch_requests_rotate proxy_env (demo_state "2captcha" [])
           [ {| email := "ann@example.org"; password := "pa" |} ] eq_refl).
  repeat constructor.
Defined.

Lemma rotation_over_batch_trace :
  let r := (V3_main.main_proxies ;;
            V3_main.main_loop 1 0 [ {| email := "ann@example.org"; password := "pa" |} ]
              0 0) proxy_env (demo_state "2captcha" []) in
  loaded_pool proxy_env (demo_state "2captcha" [])
  = ["http://10.0.0.1:8080"; "socks5://10.0.0.2:1080"] /\
  proxies_of (agents (events r))
  = [Some "http://10.0.0.1:8080"; Some "socks5://10.0.0.2:1080";
     Some "http://10.0.0.1:8080"; Some "socks5://10.0.0.2:1080";
     Some "http://10.0.0.1:8080"; Some "socks5://10.0.0.2:1080";
     Some "http://10.0.0.1:8080"].
Proof. vm_compute. split; reflexivity. Qed.

(** The same run when the constructors refuse the second entry (a bare
    [host:port] in the file): a request whose turn is the refused entry's is
    not made. The puzzle and image requests are made again on the next turn,
    so they all go through the first proxy; the login request is not, and
    none of the three attempts of the account reaches the server. *)
Definition bare_entry_env : Env :=
  strict_agents
    {| net := net proxy_env;
       random := random proxy_env;
       imageCaptcha := imageCaptcha proxy_env;
       solveImage := solveImage proxy_env;
       generateContent := generateContent proxy_env;
       answers := answers proxy_env;
       saveImage := saveImage proxy_env;
       sendMessage := sendMessage proxy_env;
       sendPhoto := sendPhoto proxy_env;
       reply := reply proxy_env;
       readFile := fun path =>
         if (path =? "proxies.txt")%string
         then inr ("http://10.0.0.1:8080" ++ nl ++ "10.0.0.2:1080" ++ nl)
         else readFile proxy_env path;
       newAgent := newAgent proxy_env |}.

Lemma rotation_over_bare_entry :
  let r := (V3_main.main_proxies ;;
            V3_main.main_loop 1 0 [ {| email := "ann@example.org"; password := "pa" |} ]
              0 0) bare_entry_env (demo_state "2captcha" []) in
  loaded_pool bare_entry_env (demo_state "2captcha" [])
  = ["http://10.0.0.1:8080"; "10.0.0.2:1080"] /\
  proxies_of (agents (events r))
  = repeat (Some "http://10.0.0.1:8080") 6 /\
  fetches Login (events r) = 0.
Proof. vm_compute. repeat split. Qed.

(* ================================================================== *)
(** ** The summary at the end of a batch *)

(** The number of lines appended to the file [path]. *)
Definition logged (path : string) (evs : list Event) : nat :=
  List.length (filter (fun r => (fst r =? path)%string) (records evs)).

Lemma records_batch_view evs : records (batch_view evs) = records evs.
Proof.
  induction evs as [|e evs IH]; [reflexivity|].
  destruct e as [| | | [] | | | | | |]; simpl; rewrite ?IH; reflexivity.
Qed.

Lemma pauses_batch_view evs : pauses AtBatch (batch_view evs) = pauses AtBatch evs.
Proof.
  induction evs as [|e evs IH]; [reflexivity|].
  destruct e as [| | | [] | | | | | |]; simpl; rewrite ?IH; reflexivity.
Qed.

Lemma logged_lines credentials : forall results,
  List.length results = List.length credentials ->
  logged "successful_logins.txt"
    (pause_after_each (account_lines credentials results)) = succeeded results /\
  logged "failed_logins.txt"
    (pause_after_each (account_lines credentials results)) = not_succeeded results /\
  pauses AtBatch (pause_after_each (account_lines credentials results))
  = repeat (inject_Z 2000) (List.length credentials) /\
  succeeded results + not_succeeded results = List.length credentials.
Proof.
  unfold logged, succeeded, not_succeeded.
  induction credentials as [|cred rest IH]; intros [|result results] Hlen;
    try discriminate; [repeat split|].
  injection Hlen as Hlen. destruct (IH results Hlen) as (IH1 & IH2 & IH3 & IH4).
  destruct result as [token|]; simpl in *; rewrite IH1, IH2, IH3;
    repeat split; lia.
Qed.

Lemma console_tail_run (counts : nat * nat) env st :
  (console_log (nl ++ "Processing completed") ;;
   console_log ("Successful logins: " ++ nat_to_string (fst counts)) ;;
   console_log ("Failed logins: " ++ nat_to_string (snd counts))) env st =
  (Return tt, st,
   [Console (nl ++ "Processing completed");
    Console ("Successful logins: " ++ nat_to_string (fst counts));
    Console ("Failed logins: " ++ nat_to_string (snd counts))]).
Proof. reflexivity. Qed.

(** Lines 338-340 (and 617-619, 973-975): the three lines of the summary. *)
Definition summary (successful failed : nat) : list string :=
  [nl ++ "Processing completed";
   "Successful logins: " ++ nat_to_string successful;
   "Failed logins: " ++ nat_to_string failed].

(** X6. Lines 328-341 of variant 1: when the loop over the accounts has
    returned, the summary printed after it counts the lines written: the
    number of successful logins is the number of lines appended to
    [successful_logins.txt], the number of failed ones that of the lines
    appended to [failed_logins.txt]; the two add up to the number of
    accounts, and there is one pause of 2000 ms per account. (Whether the
    loop returns is not part of the statement: here it always does, appends
    to the logs being taken to succeed.) *)
Theorem V1_summary_counts_lines env st credentials :
  let r := V1.main_accounts credentials env st in
  let s := logged "successful_logins.txt" (events r) in
  let f := logged "failed_logins.txt" (events r) in
  outcome r = Return tt ->
  s + f = List.length credentials /\
  List.length (records (events r)) = List.length credentials /\
  pauses AtBatch (events r) = repeat (inject_Z 2000) (List.length credentials) /\
  exists before, console (events r) = (before ++ summary s f)%list.
Proof.
  intros r s f _. subst r s f. unfold V1.main_accounts.
  destruct (V1_main_loop_batch env (List.length credentials) credentials 0 0 0 st)
    as (results & Hlen & Hout & Hview).
  simpl in Hout. rewrite bind_run, Hout, console_tail_run.
  unfold prefixed. rewrite !events_mk.
  destruct (logged_lines credentials results Hlen) as (L1 & L2 & L3 & L4).
  set (evs := events (V1.main_loop (List.length credentials) 0 credentials 0 0 env st))
    in *.
  assert (R : forall path,
            logged path (evs ++ [Console (nl ++ "Processing completed");
                                 Console ("Successful logins: "
                                          ++ nat_to_string (succeeded results));
                                 Console ("Failed logins: "
                                          ++ nat_to_string (not_succeeded results))])
            = logged path (pause_after_each (account_lines credentials results))).
  { intros path. unfold logged. rewrite records_app. simpl. rewrite app_nil_r.
    rewrite <- Hview, records_batch_view. reflexivity. }
  cbn [fst snd]. rewrite !R, L1, L2.
  split; [exact L4|]. split; [|split].
  - rewrite records_app. simpl. rewrite app_nil_r.
    rewrite <- (records_batch_view evs), Hview.
    clear - Hlen. revert results Hlen.
    induction credentials as [|c cs IH]; intros [|x xs] H; try discriminate;
      [reflexivity|].
    injection H as H. simpl. destruct x; simpl; rewrite (IH xs H); reflexivity.
  - rewrite pauses_app. simpl. rewrite app_nil_r.
    rewrite <- (pauses_batch_view evs), Hview. exact L3.
  - exists (console evs). rewrite console_app. reflexivity.
Qed.

(** Two accounts, the first submission of the batch being rejected: one
    line in each log. *)
Definition two_accounts : list Credential :=
  [ {| email := "ann@example.org"; password := "pa" |};
    {| email := "bob@example.org"; password := "pb" |} ].

Lemma V1_summary_counts_lines_demo :
  let r := V1.main_accounts two_accounts (demo_env 1 five_points)
             (demo_state "2captcha" []) in
  outcome r = Return tt /\
  logged "successful_logins.txt" (events r)
  + logged "failed_logins.txt" (events r) = 2.
Proof.
  assert (Hret : outcome (V1.main_accounts two_accounts (demo_env 1 five_points)
                            (demo_state "2captcha" [])) = Return tt)
    by (vm_compute; reflexivity).
  split; [exact Hret|].
  exact (proj1 (V1_summary_counts_lines (demo_env 1 five_points)
                  (demo_state "2captcha" []) two_accounts Hret)).
Defined.


(** *** Variant 3 *)

Lemma batch_view_waits l : batch_view (map V3_wait l) = [].
Proof. induction l; [reflexivity | exact IHl]. Qed.

Lemma V3_loginAccount_line env st email password :
  let r := V3.loginAccount email password env st in
  (outcome r = Return true /\
   exists token points,
     batch_view (events r) = [V3_success_line email password token points]) \/
  (outcome r = Return false /\
   batch_view (events r) = [failure_line email password]).
Proof.
  intros r. subst r. unfold V3.loginAccount, for_range.
  change (S V3.LOGIN_RETRIES - 1) with 3.
  rewrite bind_ret_run, outcome_mk, events_mk.
  destruct (V3_rounds_spec email password 3 1 env st ltac:(lia) ltac:(lia) ltac:(lia))
    as (_ & _ & j & rec & _ & _ & Hsig & H).
  rewrite <- batch_view_significant, Hsig, batch_view_app, batch_view_waits.
  destruct H as [(Ho & token & points & ->) | (Ho & _ & ->)]; rewrite Ho.
  - left. split; [reflexivity|]. exists token, points. reflexivity.
  - right. split; reflexivity.
Qed.

(** The result line of an account in variant 3. *)
Definition V3_account_line (cred : Credential) (result : option (JSValue * JSValue))
    : Event :=
  match result with
  | Some (token, points) =>
      V3_success_line (email cred) (password cred) token points
  | None => failure_line (email cred) (password cred)
  end.

Fixpoint V3_account_lines (credentials : list Credential)
    (results : list (option (JSValue * JSValue))) : list Event :=
  match credentials, results with
  | cred :: credentials', result :: results' =>
      V3_account_line cred result :: V3_account_lines credentials' results'
  | _, _ => []
  end.

Lemma V3_main_loop_step total index cred rest successful failed env st :
  V3_main.main_loop total index (cred :: rest) successful failed env st =
  prefixed [Console (nl ++ "Processing account " ++ nat_to_string (index + 1)
                     ++ "/" ++ nat_to_string total)]
    match outcome (V3.loginAccount (email cred) (password cred) env st) with
    | Return result =>
        prefixed (events (V3.loginAccount (email cred) (password cred) env st)
                  ++ [batch_pause])
          (V3_main.main_loop total (S index) rest
             (if result then S successful else successful)
             (if result then failed else S failed) env
             (final (V3.loginAccount (email cred) (password cred) env st)))
    | Throw e =>
        (Throw e, final (V3.loginAccount (email cred) (password cred) env st),
         events (V3.loginAccount (email cred) (password cred) env st))
    | Diverge =>
        (Diverge, final (V3.loginAccount (email cred) (password cred) env st),
         events (V3.loginAccount (email cred) (password cred) env st))
    end.
Proof.
  cbn [V3_main.main_loop].
  rewrite (bind_known _ _ _ _ _ _ _ (console_log_run _ env st)).
  f_equal. rewrite bind_run.
  destruct (outcome (V3.loginAccount (email cred) (password cred) env st))
    as [result|e|]; try reflexivity.
  cbv zeta.
  rewrite (bind_known _ _ _ _ _ _ _ (sleep_run AtBatch (num 2000) env _)).
  unfold prefixed. rewrite !outcome_mk, !final_mk, !events_mk.
  rewrite <- app_assoc. reflexivity.
Qed.

Definition is_some {A} (o : option A) : bool :=
  match o with Some _ => true | None => false end.

Lemma V3_main_loop_batch env total credentials : forall index successful failed st,
  let r := V3_main.main_loop total index credentials successful failed env st in
  exists results,
    List.length results = List.length credentials /\
    outcome r = Return (successful + List.length (filter is_some results),
                        failed + List.length (filter (fun o => negb (is_some o))
                                                results)) /\
    batch_view (events r)
    = pause_after_each (V3_account_lines credentials results).
Proof.
  induction credentials as [|cred rest IH]; intros index successful failed st r;
    subst r.
  - exists []. repeat split. cbn [V3_main.main_loop]. unfold ret.
    rewrite outcome_mk. simpl. rewrite !Nat.add_0_r. reflexivity.
  - rewrite V3_main_loop_step.
    destruct (V3_loginAccount_line env st (email cred) (password cred))
      as [(Ho & token & points & Hsig) | (Ho & Hsig)]; rewrite Ho.
    + destruct (IH (S index) (S successful) failed
                  (final (V3.loginAccount (email cred) (password cred) env st)))
        as (results & Hlen & Hout & Hview).
      exists (Some (token, points) :: results).
      rewrite !outcome_prefixed, !events_prefixed.
      split; [simpl; rewrite Hlen; reflexivity|].
      split.
      * rewrite Hout. simpl. f_equal. f_equal. lia.
      * rewrite !batch_view_app, Hview, Hsig. reflexivity.
    + destruct (IH (S index) successful (S failed)
                  (final (V3.loginAccount (email cred) (password cred) env st)))
        as (results & Hlen & Hout & Hview).
      exists (None :: results).
      rewrite !outcome_prefixed, !events_prefixed.
      split; [simpl; rewrite Hlen; reflexivity|].
      split.
      * rewrite Hout. simpl. f_equal. f_equal. lia.
      * rewrite !batch_view_app, Hview, Hsig. reflexivity.
Qed.

Lemma V3_logged_lines credentials : forall results,
  List.length results = List.length credentials ->
  logged "successful_logins.txt"
    (pause_after_each (V3_account_lines credentials results))
  = List.length (filter is_some results) /\
  logged "failed_logins.txt"
    (pause_after_each (V3_account_lines credentials results))
  = List.length (filter (fun o => negb (is_some o)) results) /\
  List.length (filter is_some results)
  + List.length (filter (fun o => negb (is_some o)) results)
  = List.length credentials.
Proof.
  unfold logged.
  induction credentials as [|cred rest IH]; intros [|result results] Hlen;
    try discriminate; [repeat split|].
  injection Hlen as Hlen. destruct (IH results Hlen) as (IH1 & IH2 & IH3).
  destruct result as [[token points]|]; simpl in *; rewrite IH1, IH2;
    repeat split; lia.
Qed.

(** X7. Lines 955-975 of variant 3. With no credentials, [main] prints that
    none were found and makes no request and no pause. Otherwise, when the
    loop over the accounts has returned, it has taken the accounts in
    order, left one result line per account (the success line
    [email:password:token:points] or the failure line [email:password]),
    paused 2000 ms after every account, the last included, and printed a
    summary whose two counts are the numbers of lines written to the two
    logs and add up to the number of accounts. (Whether the loop returns is
    not part of the statement: here it always does, appends to the logs
    being taken to succeed.) *)
Theorem V3_batch_in_order env st credentials :
  let r := V3_main.main_accounts credentials env st in
  let s := logged "successful_logins.txt" (events r) in
  let f := logged "failed_logins.txt" (events r) in
  outcome r = Return tt ->
  s + f = List.length credentials /\
  (exists results,
     List.length results = List.length credentials /\
     batch_view (events r)
     = pause_after_each (V3_account_lines credentials results)) /\
  (credentials = [] ->
   events r = [Console "No valid credentials found in file.txt"]) /\
  (credentials <> [] ->
   exists before, console (events r) = (before ++ summary s f)%list).
Proof.
  intros r s f _. subst r s f. unfold V3_main.main_accounts.
  destruct (List.length credentials =? 0) eqn:E.
  - apply Nat.eqb_eq, length_zero_iff_nil in E. subst credentials.
    rewrite console_log_run, events_mk.
    split; [reflexivity|].
    split; [exists []; split; reflexivity|].
    split; [reflexivity | congruence].
  - rewrite (bind_known _ _ _ _ _ _ _ (console_log_run _ env st)).
    destruct (V3_main_loop_batch env (List.length credentials) credentials 0 0 0 st)
      as (results & Hlen & Hout & Hview).
    cbn [Nat.add] in Hout. rewrite bind_run, Hout, console_tail_run.
    unfold prefixed. rewrite !events_mk.
    destruct (V3_logged_lines credentials results Hlen) as (L1 & L2 & L3).
    set (evs := events (V3_main.main_loop (List.length credentials) 0 credentials
                          0 0 env st)) in *.
    set (found := Console (nl ++ "Found " ++ nat_to_string (List.length credentials)
                           ++ " accounts to process")).
    assert (R : forall path s f,
              logged path ([found] ++ evs ++ map Console (summary s f))
              = logged path (pause_after_each (V3_account_lines credentials results))).
    { intros path s f. unfold logged.
      rewrite !records_app. simpl. rewrite app_nil_r.
      rewrite <- Hview, records_batch_view. reflexivity. }
    cbn [fst snd].
    change [Console (nl ++ "Processing completed");
            Console ("Successful logins: "
                     ++ nat_to_string (List.length (filter is_some results)));
            Console ("Failed logins: "
                     ++ nat_to_string
                          (List.length (filter (fun o => negb (is_some o)) results)))]
      with (map Console (summary (List.length (filter is_some results))
                           (List.length (filter (fun o => negb (is_some o)) results)))).
    rewrite !R, L1, L2.
    split; [exact L3|]. split; [|split].
    + exists results. split; [exact Hlen|].
      rewrite !batch_view_app, Hview. simpl. rewrite app_nil_r. reflexivity.
    + intros ->. discriminate.
    + intros _. exists (console ([found] ++ evs)).
      rewrite app_assoc, console_app. reflexivity.
Qed.

Lemma V3_batch_in_order_demo :
  let r := V3_main.main_accounts two_accounts (demo_env 4 five_points)
             (demo_state "2captcha" demo_pool) in
  outcome r = Return tt /\
  logged "successful_logins.txt" (events r)
  + logged "failed_logins.txt" (events r) = 2.
Proof.
  assert (Hret : outcome (V3_main.main_accounts two_accounts (demo_env 4 five_points)
                            (demo_state "2captcha" demo_pool)) = Return tt)
    by (vm_compute; reflexivity).
  split; [exact Hret|].
  exact (proj1 (V3_batch_in_order (demo_env 4 five_points)
                  (demo_state "2captcha" demo_pool) two_accounts Hret)).
Defined.

(** In that run the three attempts of the first account are rejected, and
    the second account is accepted at its second attempt. *)
Lemma V3_batch_trace :
  let r := V3_main.main_accounts two_accounts (demo_env 4 five_points)
             (demo_state "2captcha" demo_pool) in
  map fst (records (events r)) = ["failed_logins.txt"; "successful_logins.txt"] /\
  pauses AtBatch (events r) = [inject_Z 2000; inject_Z 2000].
Proof. vm_compute. repeat split. Qed.

(* ================================================================== *)
(** ** The puzzle requests of variants 2 and 4 *)

(** The [try] blocks of [getPuzzleId] and [getPuzzleImage]: lines 403-414
    and 429-440 in variant 2, lines 1069-1080 and 1105-1116 in variant 4. *)
Definition V4_getPuzzleId_try (appId : string) : M (option JSValue) :=
  response <- fetch GetPuzzle (puzzle_url appId) None ;;
  check_ok response ;;
  data <- response_json response ;;
  puzzle_id <- lift (js_get data "puzzle_id") ;;
  console_log ("Got puzzle ID: " ++ js_to_string puzzle_id) ;;
  ret (Some puzzle_id).

Definition V4_getPuzzleImage_try (puzzleId : JSValue) (appId : string)
    : M (option JSValue) :=
  response <- fetch GetPuzzleImage (image_url puzzleId appId) None ;;
  check_ok response ;;
  data <- response_json response ;;
  console_log "Got puzzle image" ;;
  imgBase64 <- lift (js_get data "imgBase64") ;;
  ret (Some imgBase64).

Lemma V4_getPuzzleId_try_gets appId :
  attempt_gets (V4_getPuzzleId_try appId) GetPuzzle "puzzle_id" AtPuzzleId.
Proof. unfold V4_getPuzzleId_try. attempt_cases GetPuzzle "puzzle_id". Qed.

Lemma V4_getPuzzleImage_try_gets puzzleId appId :
  attempt_gets (V4_getPuzzleImage_try puzzleId appId) GetPuzzleImage "imgBase64"
    AtPuzzleImage.
Proof. unfold V4_getPuzzleImage_try. attempt_cases GetPuzzleImage "imgBase64". Qed.

Lemma V4_getPuzzleId_retried env st appId :
  puzzle_retried GetPuzzle "puzzle_id" AtPuzzleId env st
    (V4.getPuzzleId appId env st) (gives_up "get puzzle ID").
Proof.
  apply retried_loop
    with (attempt := V4_getPuzzleId_try appId)
         (exhausted := fun e =>
            Throw ("Failed to get puzzle ID after 3 attempts: " ++ e)).
  - apply V4_getPuzzleId_try_gets.
  - intros k e env' st' Hk. handler_cases k.
  - intros e env' st'. eexists _, _. split; [reflexivity|]. split; reflexivity.
Qed.

Lemma V4_getPuzzleImage_retried env st puzzleId appId :
  puzzle_retried GetPuzzleImage "imgBase64" AtPuzzleImage env st
    (V4.getPuzzleImage puzzleId appId env st) (gives_up "get puzzle image").
Proof.
  apply retried_loop
    with (attempt := V4_getPuzzleImage_try puzzleId appId)
         (exhausted := fun e =>
            Throw ("Failed to get puzzle image after 3 attempts: " ++ e)).
  - apply V4_getPuzzleImage_try_gets.
  - intros k e env' st' Hk. handler_cases k.
  - intros e env' st'. eexists _, _. split; [reflexivity|]. split; reflexivity.
Qed.

(** X8. In variants 2 and 4 too, [getPuzzleId] and [getPuzzleImage] make
    three attempts at most: the first reply that carries the field is
    returned after as many requests, with pauses of 1000 ms, then 2000 ms
    between the attempts and none after the third. When the third attempt
    fails too, they throw an error that names the step and ends with the
    error of the third attempt:
    [Failed to get puzzle ID after 3 attempts: ] or
    [Failed to get puzzle image after 3 attempts: ] followed by it. *)
Theorem puzzle_requests_retried env st appId puzzleId :
  puzzle_retried GetPuzzle "puzzle_id" AtPuzzleId env st
    (V2.getPuzzleId appId env st) (gives_up "get puzzle ID") /\
  puzzle_retried GetPuzzleImage "imgBase64" AtPuzzleImage env st
    (V2.getPuzzleImage puzzleId appId env st) (gives_up "get puzzle image") /\
  puzzle_retried GetPuzzle "puzzle_id" AtPuzzleId env st
    (V4.getPuzzleId appId env st) (gives_up "get puzzle ID") /\
  puzzle_retried GetPuzzleImage "imgBase64" AtPuzzleImage env st
    (V4.getPuzzleImage puzzleId appId env st) (gives_up "get puzzle image").
Proof.
  split; [exact (V4_getPuzzleId_retried env st appId)|].
  split; [exact (V4_getPuzzleImage_retried env st puzzleId appId)|].
  split; [apply V4_getPuzzleId_retried | apply V4_getPuzzleImage_retried].
Qed.

(** The puzzle endpoint fails twice with status 503, then answers; and a
    puzzle endpoint that is down. *)
Definition flaky_env : Env :=
  {| net := fun ep n =>
       match ep with
       | GetPuzzle =>
           if n <? 2 then error_reply 503 JNull
           else ok_reply (JObj [("puzzle_id", JStr "p-7")])
       | _ => net (demo_env 0 five_points) ep n
       end;
     random := random (demo_env 0 five_points);
     imageCaptcha := imageCaptcha (demo_env 0 five_points);
     solveImage := solveImage (demo_env 0 five_points);
     generateContent := generateContent (demo_env 0 five_points);
     answers := answers (demo_env 0 five_points);
     saveImage := saveImage (demo_env 0 five_points);
     sendMessage := sendMessage (demo_env 0 five_points);
     sendPhoto := sendPhoto (demo_env 0 five_points);
     reply := reply (demo_env 0 five_points);
     readFile := readFile (demo_env 0 five_points);
     newAgent := newAgent (demo_env 0 five_points) |}.

Lemma flaky_puzzle_trace :
  let r := V4.getPuzzleId "67ab" flaky_env (demo_state "manual" []) in
  outcome r = Return (JStr "p-7") /\
  fetches GetPuzzle (events r) = 3 /\
  pauses AtPuzzleId (events r) = [inject_Z 1000; inject_Z 2000] /\
  console (events r) =
  ["Attempt 1/3 failed, retrying..."; "Attempt 2/3 failed, retrying...";
   "Got puzzle ID: p-7"].
Proof. vm_compute. repeat split. Qed.

Definition puzzle_down_env : Env :=
  {| net := fun ep n =>
       match ep with
       | GetPuzzle => error_reply 503 JNull
       | _ => net (demo_env 0 five_points) ep n
       end;
     random := random (demo_env 0 five_points);
     imageCaptcha := imageCaptcha (demo_env 0 five_points);
     solveImage := solveImage (demo_env 0 five_points);
     generateContent := generateContent (demo_env 0 five_points);
     answers := answers (demo_env 0 five_points);
     saveImage := saveImage (demo_env 0 five_points);
     sendMessage := sendMessage (demo_env 0 five_points);
     sendPhoto := sendPhoto (demo_env 0 five_points);
     reply := reply (demo_env 0 five_points);
     readFile := readFile (demo_env 0 five_points);
     newAgent := newAgent (demo_env 0 five_points) |}.

Lemma puzzle_down_trace :
  let r := V2.getPuzzleId "67ab" puzzle_down_env (demo_state "manual" []) in
  outcome r
  = Throw "Failed to get puzzle ID after 3 attempts: HTTP error! status: 503" /\
  fetches GetPuzzle (events r) = 3 /\
  pauses AtPuzzleId (events r) = [inject_Z 1000; inject_Z 2000].
Proof. vm_compute. repeat split. Qed.

(** *** A reply without the expected field *)

(** X9. Lines 89-91 and 1078-1080: a successful reply whose body has no
    [puzzle_id] (an object without that key, or a number, a string or a
    boolean) is not treated as a failure. [getPuzzleId] returns [undefined]
    after that single request, without retrying or pausing, and reports
    puzzle ID [undefined]; the image is then requested for
    [puzzle_id=undefined]. *)
Theorem missing_puzzle_id_accepted env st appId response data :
  net env GetPuzzle (calls st (PNet GetPuzzle)) = Reply response ->
  ok response = true ->
  json response = Some data ->
  js_get data "puzzle_id" = inr JUndefined ->
  V1.getPuzzleId appId env st =
  (Return JUndefined, tick (PNet GetPuzzle) st,
   [Spinner SpinStart "Getting puzzle ID...";
    Fetch GetPuzzle (puzzle_url appId) None;
    Spinner SpinSucceed "Got puzzle ID: undefined"]) /\
  V4.getPuzzleId appId env st =
  (Return JUndefined, tick (PNet GetPuzzle) st,
   [Fetch GetPuzzle (puzzle_url appId) None;
    Console "Got puzzle ID: undefined"]) /\
  image_url JUndefined appId =
  "https://www.aeropres.in/chromeapi/dawn/v1/puzzle/get-puzzle-image?puzzle_id=undefined&appid="
  ++ appId.
Proof.
  intros Hnet Hok Hjson Hget.
  assert (H1 : V1_getPuzzleId_try appId env st =
               (Return (Some JUndefined), tick (PNet GetPuzzle) st,
                [Fetch GetPuzzle (puzzle_url appId) None;
                 Spinner SpinSucceed "Got puzzle ID: undefined"])).
  { unfold V1_getPuzzleId_try. run. rewrite Hnet. simpl. rewrite Hok. simpl.
    rewrite Hjson. simpl. rewrite Hget. reflexivity. }
  assert (H4 : V4_getPuzzleId_try appId env st =
               (Return (Some JUndefined), tick (PNet GetPuzzle) st,
                [Fetch GetPuzzle (puzzle_url appId) None;
                 Console "Got puzzle ID: undefined"])).
  { unfold V4_getPuzzleId_try. run. rewrite Hnet. simpl. rewrite Hok. simpl.
    rewrite Hjson. simpl. rewrite Hget. reflexivity. }
  split; [|split; [|reflexivity]].
  - unfold V1.getPuzzleId.
    rewrite (bind_known _ _ _ _ _ _ _ (spinner_run _ _ env st)).
    rewrite bind_ret_run. unfold for_range.
    change (S MAX_RETRIES - 1) with 3. rewrite for_upto_step, try_catch_run.
    fold (V1_getPuzzleId_try appId). rewrite H1. reflexivity.
  - unfold V4.getPuzzleId.
    rewrite bind_ret_run. unfold for_range.
    change (S MAX_RETRIES - 1) with 3. rewrite for_upto_step, try_catch_run.
    fold (V4_getPuzzleId_try appId). rewrite H4. reflexivity.
Qed.

(** A body that is an error object of the service, without [puzzle_id]. *)
Definition no_puzzle_env : Env :=
  {| net := fun ep n =>
       match ep with
       | GetPuzzle => ok_reply (JObj [("error", JStr "rate limited")])
       | _ => net (demo_env 0 five_points) ep n
       end;
     random := random (demo_env 0 five_points);
     imageCaptcha := imageCaptcha (demo_env 0 five_points);
     solveImage := solveImage (demo_env 0 five_points);
     generateContent := generateContent (demo_env 0 five_points);
     answers := answers (demo_env 0 five_points);
     saveImage := saveImage (demo_env 0 five_points);
     sendMessage := sendMessage (demo_env 0 five_points);
     sendPhoto := sendPhoto (demo_env 0 five_points);
     reply := reply (demo_env 0 five_points);
     readFile := readFile (demo_env 0 five_points);
     newAgent := newAgent (demo_env 0 five_points) |}.

Lemma missing_puzzle_id_accepted_demo :
  outcome (V1.getPuzzleId "67ab" no_puzzle_env (demo_state "manual" []))
  = Return JUndefined /\
  console (events (V4.getPuzzleId "67ab" no_puzzle_env (demo_state "manual" [])))
  = ["Got puzzle ID: undefined"].
Proof.
  destruct (missing_puzzle_id_accepted no_puzzle_env (demo_state "manual" []) "67ab"
              {| ok := true; status := 200;
                 json := Some (JObj [("error", JStr "rate limited")]) |}
              (JObj [("error", JStr "rate limited")])
              eq_refl eq_refl eq_refl eq_refl) as (H1 & H4 & _).
  rewrite H1, H4. split; reflexivity.
Defined.

(* ================================================================== *)
(** ** What counts as a successful login *)

(** Everything but the login endpoint. *)
Definition not_login_port (p : Port) : bool :=
  match p with PNet Login => false | _ => true end.

Lemma before_login_not_login {A} (m : M A) :
  within before_login before_login_port m -> within every_event not_login_port m.
Proof.
  apply within_weaken; [reflexivity|].
  intros [[]| | | | | | | | |]; simpl; congruence.
Qed.

Lemma generateAppId_not_login : within every_event not_login_port generateAppId.
Proof.
  unfold generateAppId. generalize "67". generalize 22.
  induction n as [|n IH]; intros appId; simpl.
  - apply within_ret.
  - apply within_bind; [apply within_ask; reflexivity | intros r; apply IH].
Qed.

(** What a login attempt that returns tells about the [n]-th reply of the
    login endpoint. *)
Definition returns_only_if (P : FetchResult -> Prop) (env : Env) (n : nat)
    (st : State) (r : Result bool) : Prop :=
  calls st (PNet Login) = n ->
  forall b, outcome r = Return b -> b = true /\ P (net env Login n).

Lemma returns_only_if_throw P env n st st1 e1 e :
  step_ok every_event not_login_port st st1 e1 ->
  returns_only_if P env n st (Throw e, st1, e1).
Proof. intros _ _ b H. discriminate. Qed.

Lemma returns_only_if_prefix P env n st st1 e1 r :
  step_ok every_event not_login_port st st1 e1 ->
  returns_only_if P env n st1 r ->
  returns_only_if P env n st (prefixed e1 r).
Proof.
  intros (_ & _ & Hp & _) H Hn b Hb. apply H; [|exact Hb].
  rewrite (Hp (PNet Login) eq_refl). exact Hn.
Qed.

Ltac only_if_step P env n lemma :=
  apply (@bind_rule every_event not_login_port _ _ (returns_only_if P env n));
  [ lemma | apply returns_only_if_throw | apply returns_only_if_prefix | intros ? ? ].

(** The reply says that the login went through. *)
Definition says_logged_in (r : FetchResult) : Prop :=
  exists response loginResult,
    r = Reply response /\ json response = Some loginResult /\
    js_get loginResult "message" = inr (JStr "Successfully logged in!").

(** The reply has a success status and a body. *)
Definition status_ok (r : FetchResult) : Prop :=
  exists response loginResult,
    r = Reply response /\ json response = Some loginResult /\ ok response = true.

Lemma js_is_string_true v text : js_is_string v text = true -> v = JStr text.
Proof.
  destruct v; simpl; try discriminate.
  intros H. apply String.eqb_eq in H. congruence.
Qed.

Lemma V4_login_try_criterion email password env n : forall st,
  returns_only_if says_logged_in env n st (V4.login_try email password env st).
Proof.
  unfold V4.login_try.
  only_if_step says_logged_in env n ltac:(apply generateAppId_not_login).
  only_if_step says_logged_in env n
    ltac:(apply before_login_not_login, V4_getPuzzleId_footprint).
  only_if_step says_logged_in env n
    ltac:(apply before_login_not_login, V4_getPuzzleImage_footprint).
  only_if_step says_logged_in env n
    ltac:(apply before_login_not_login, V4_processCaptcha_footprint).
  match goal with |- returns_only_if _ _ _ ?s _ => rename s into st end.
  intros Hn b. rewrite bind_run, fetch_run, Hn.
  destruct (net env Login n) as [e|response]; [discriminate|].
  rewrite outcome_mk, final_mk, outcome_prefixed. unfold response_json.
  destruct (json response) as [loginResult|] eqn:Hjson; [|discriminate].
  rewrite (bind_known _ _ _ _ _ _ _ (ret_run loginResult env _)), outcome_prefixed.
  unfold lift at 1.
  destruct (js_get loginResult "message") as [e|message] eqn:Hmsg; [discriminate|].
  rewrite (bind_known _ _ _ _ _ _ _ (ret_run message env _)), outcome_prefixed.
  destruct (js_is_string message "Successfully logged in!") eqn:Htest;
    [|discriminate].
  apply js_is_string_true in Htest. subst message.
  intros Hb. split.
  - revert Hb.
    destruct (js_get loginResult "data") as [e|data]; [discriminate|].
    unfold lift at 1.
    rewrite (bind_known _ _ _ _ _ _ _ (ret_run data env _)), outcome_prefixed.
    destruct (js_get data "token") as [e|token]; [discriminate|].
    unfold lift at 1.
    rewrite (bind_known _ _ _ _ _ _ _ (ret_run token env _)), outcome_prefixed.
    rewrite bind_run.
    destruct (outcome (V4.getUserPoints token x env (tick (PNet Login) st)))
      as [points|e|]; try discriminate.
    rewrite outcome_prefixed.
    rewrite (bind_known _ _ _ _ _ _ _ (console_log_run _ env _)), outcome_prefixed.
    rewrite (bind_known _ _ _ _ _ _ _ (console_log_run _ env _)), outcome_prefixed.
    destruct (sendTelegramStatus_run (V4.success_notice email points) env
                (final (V4.getUserPoints token x env (tick (PNet Login) st))))
      as (st' & evs & Hrun & _).
    rewrite (bind_known _ _ _ _ _ _ _ Hrun), outcome_prefixed.
    intros [= <-]. reflexivity.
  - exists response, loginResult. repeat split; assumption.
Qed.

Lemma V1_login_try_criterion email password appId env n : forall st,
  returns_only_if status_ok env n st (V1.login_try email password appId env st).
Proof.
  unfold V1.login_try.
  only_if_step status_ok env n
    ltac:(apply before_login_not_login, V1_getPuzzleId_footprint).
  only_if_step status_ok env n
    ltac:(apply before_login_not_login, V1_getPuzzleImage_footprint).
  only_if_step status_ok env n
    ltac:(apply before_login_not_login, V1_processCaptcha_footprint).
  match goal with |- returns_only_if _ _ _ ?s _ => rename s into st end.
  intros Hn b.
  rewrite (bind_known _ _ _ _ _ _ _ (spinner_run _ _ env st)), outcome_prefixed.
  rewrite bind_run, fetch_run, Hn.
  destruct (net env Login n) as [e|response]; [discriminate|].
  rewrite outcome_mk, final_mk, outcome_prefixed. unfold response_json.
  destruct (json response) as [loginResult|] eqn:Hjson; [|discriminate].
  rewrite (bind_known _ _ _ _ _ _ _ (ret_run loginResult env _)), outcome_prefixed.
  destruct (ok response) eqn:Hok.
  - intros Hb. split.
    + revert Hb.
      destruct (js_get loginResult "data") as [e|data]; [discriminate|].
      unfold lift at 1.
      rewrite (bind_known _ _ _ _ _ _ _ (ret_run data env _)), outcome_prefixed.
      destruct (js_get data "token") as [e|token]; [discriminate|].
      unfold lift at 1.
      rewrite (bind_known _ _ _ _ _ _ _ (ret_run token env _)), outcome_prefixed.
      destruct (V1_getUserPoints_run token appId env (tick (PNet Login) st))
        as (st' & evs & Hrun & _).
      rewrite (bind_known _ _ _ _ _ _ _ Hrun), outcome_prefixed, success_tail_run.
      intros [= <-]. reflexivity.
    + exists response, loginResult. repeat split; assumption.
  - destruct (js_get loginResult "message") as [e|message]; discriminate.
Qed.

(** X10. Lines 1269-1282 against lines 255-269: variant 4 decides the success
    of a login by the text of the reply and not by its status. An attempt of
    variant 4 returns (and then returns [true]) only if the body of the
    login reply has the message [Successfully logged in!], whatever the
    status; an attempt of variant 1 returns only if the reply has a success
    status, whatever the message. *)
Theorem login_success_criterion env st email password appId :
  (forall b,
     outcome (V4.login_try email password env st) = Return b ->
     b = true /\ says_logged_in (net env Login (calls st (PNet Login)))) /\
  (forall b,
     outcome (V1.login_try email password appId env st) = Return b ->
     b = true /\ status_ok (net env Login (calls st (PNet Login)))).
Proof.
  split; intros b Hb.
  - exact (V4_login_try_criterion email password env _ st eq_refl b Hb).
  - exact (V1_login_try_criterion email password appId env _ st eq_refl b Hb).
Qed.

(** A service that answers a login with status 401 and the success text,
    and one that answers with status 200 and another text. *)
Definition login_reply_env (reply_of_login : FetchResult) : Env :=
  {| net := fun ep n =>
       match ep with
       | Login => reply_of_login
       | _ => net (demo_env 0 five_points) ep n
       end;
     random := random (demo_env 0 five_points);
     imageCaptcha := imageCaptcha (demo_env 0 five_points);
     solveImage := solveImage (demo_env 0 five_points);
     generateContent := generateContent (demo_env 0 five_points);
     answers := answers (demo_env 0 five_points);
     saveImage := saveImage (demo_env 0 five_points);
     sendMessage := sendMessage (demo_env 0 five_points);
     sendPhoto := sendPhoto (demo_env 0 five_points);
     reply := reply (demo_env 0 five_points);
     readFile := readFile (demo_env 0 five_points);
     newAgent := newAgent (demo_env 0 five_points) |}.

Definition unauthorized_but_welcome : FetchResult :=
  error_reply 401 (JObj [("message", JStr "Successfully logged in!");
                         ("data", JObj [("token", JStr "tok-9")])]).

Definition fine_but_pending : FetchResult :=
  ok_reply (JObj [("message", JStr "Verification pending");
                  ("data", JObj [("token", JStr "tok-9")])]).

Lemma criteria_disagree :
  let st := demo_state "2captcha" [] in
  outcome (V4.login_try "ann@example.org" "pa"
             (login_reply_env unauthorized_but_welcome) st) = Return true /\
  outcome (V1.login_try "ann@example.org" "pa" "67ab"
             (login_reply_env unauthorized_but_welcome) st)
  = Throw "Successfully logged in!" /\
  outcome (V4.login_try "ann@example.org" "pa"
             (login_reply_env fine_but_pending) st)
  = Throw "Verification pending" /\
  outcome (V1.login_try "ann@example.org" "pa" "67ab"
             (login_reply_env fine_but_pending) st) = Return true.
Proof. vm_compute. repeat split. Qed.

(* ================================================================== *)
(** ** How solving a captcha fails in variant 4 *)

Definition photo_caption : string :=
  "Please solve this captcha. Send the text/numbers you see in the image.".

(** X11. Lines 1128-1184 and 1092-1099. Whatever goes wrong in
    [processCaptcha] of variant 4 is thrown again with the prefix
    [Failed to solve captcha: ]. When the image cannot be saved, the manual,
    Telegram and Gemini modes stop there: no question is asked, no photo is
    sent, Gemini is not called. In Telegram mode, a photo that cannot be
    sent ends the call without waiting for a reply, and a reply that does
    not come within the timeout ends it with [Captcha solving timeout]. *)
Theorem captcha_failures_are_wrapped env st image :
  (forall e,
     outcome (V4.processCaptcha image env st) = Throw e ->
     exists cause, e = "Failed to solve captcha: " ++ cause) /\
  (forall e,
     saveImage env (calls st PSaveImage) = Some e ->
     model st = "manual" \/ model st = "telegram" \/ model st = "gemini" ->
     V4.processCaptcha image env st =
     (Throw ("Failed to solve captcha: Failed to save captcha image: " ++ e),
      tick PSaveImage st, [SaveImage "temp_captcha.png"])) /\
  (model st = "telegram" ->
   saveImage env (calls st PSaveImage) = None ->
   (forall e,
      sendPhoto env (calls st PSendPhoto) = Some e ->
      V4.processCaptcha image env st =
      (Throw ("Failed to solve captcha: " ++ e),
       tick PSendPhoto (tick PSaveImage st),
       [SaveImage "temp_captcha.png";
        Console "Saved captcha image to temp_captcha.png";
        TelegramPhoto (telegramChatId st) "temp_captcha.png" photo_caption])) /\
   (sendPhoto env (calls st PSendPhoto) = None ->
    reply env (calls st PReply) = None ->
    V4.processCaptcha image env st =
    (Throw "Failed to solve captcha: Captcha solving timeout",
     tick PReply (tick PSendPhoto (tick PSaveImage st)),
     [SaveImage "temp_captcha.png";
      Console "Saved captcha image to temp_captcha.png";
      TelegramPhoto (telegramChatId st) "temp_captcha.png" photo_caption]))).
Proof.
  split; [|split].
  - intros e. unfold V4.processCaptcha. rewrite try_catch_run.
    match goal with
    | |- outcome (match outcome ?m with _ => _ end) = _ -> _ =>
        destruct m as [[[v|cause|] st1] ev1]
    end; rewrite ?outcome_mk; try discriminate.
    unfold prefixed, throw. rewrite !outcome_mk.
    intros [= <-]. exists cause. reflexivity.
  - intros e Hsave Hmodel.
    unfold V4.processCaptcha, V4.saveCaptchaImage. run.
    destruct Hmodel as [H|[H|H]]; rewrite H; simpl; rewrite Hsave; reflexivity.
  - intros Hmodel Hsave. split.
    + intros e Hphoto.
      unfold V4.processCaptcha, V4.saveCaptchaImage. run.
      rewrite Hmodel. simpl. rewrite Hsave. simpl. rewrite Hphoto. reflexivity.
    + intros Hphoto Hreply.
      unfold V4.processCaptcha, V4.saveCaptchaImage. run.
      rewrite Hmodel. simpl. rewrite Hsave. simpl. rewrite Hphoto. simpl.
      rewrite Hreply. reflexivity.
Qed.

(** The observer does not answer. *)
Definition silent_env : Env :=
  {| net := net (demo_env 0 five_points);
     random := random (demo_env 0 five_points);
     imageCaptcha := imageCaptcha (demo_env 0 five_points);
     solveImage := solveImage (demo_env 0 five_points);
     generateContent := generateContent (demo_env 0 five_points);
     answers := answers (demo_env 0 five_points);
     saveImage := saveImage (demo_env 0 five_points);
     sendMessage := sendMessage (demo_env 0 five_points);
     sendPhoto := sendPhoto (demo_env 0 five_points);
     reply := fun _ => None;
     readFile := readFile (demo_env 0 five_points);
     newAgent := newAgent (demo_env 0 five_points) |}.

(** With a silent observer, every attempt of the unbounded retry ends on the
    timeout, and the loop is still running after four attempts. *)
Lemma captcha_timeout_is_retried :
  let r := V4.loginAccountWithRetry 4 "ann@example.org" "pa" silent_env
             (demo_state "telegram" []) in
  outcome r = Diverge /\
  pauses AtLogin (events r)
  = [inject_Z 5000; inject_Z 7500; inject_Z 11250; inject_Z 16875] /\
  records (events r) = [] /\
  nth_error (notices (events r)) 1
  = Some (V4.failure_notice 1 "ann@example.org"
            "Failed to solve captcha: Captcha solving timeout").
Proof. vm_compute. repeat split. Qed.

(* ================================================================== *)
(** ** Variant 2: one login, and the batch *)

Lemma V2_processCaptcha_footprint image :
  within before_login before_login_port (V2.processCaptcha image).
Proof. unfold V2.processCaptcha. unfold_helpers. footprint. Qed.

Ltac V2_step good lemma :=
  apply (@bind_rule inner any_port _ _ (attempt_outcome good));
  [ lemma
  | apply attempt_outcome_throw
  | apply attempt_outcome_prefix
  | intros ? ? ].

Lemma V2_login_try_outcome email password appId env st :
  attempt_outcome (fun sig => exists token, sig = [V1_success_line email token])
    st (V2.login_try email password appId env st).
Proof.
  unfold V2.login_try.
  set (good := fun sig => exists token, sig = [V1_success_line email token]).
  revert st.
  V2_step good ltac:(apply sub_op_footprint, (V4_getPuzzleId_footprint appId)).
  V2_step good ltac:(apply sub_op_footprint, (V4_getPuzzleImage_footprint x appId)).
  V2_step good ltac:(apply sub_op_footprint, V2_processCaptcha_footprint).
  V2_step good ltac:(unfold_helpers; footprint).
  V2_step good ltac:(unfold_helpers; footprint).
  destruct (ok x2).
  - V2_step good ltac:(footprint).
    V2_step good ltac:(footprint).
    V2_step good ltac:(apply points_footprint, (V4_getUserPoints_footprint x5 appId)).
    V2_step good ltac:(unfold_helpers; footprint).
    V2_step good ltac:(unfold_helpers; footprint).
    repeat split; auto. exists x5. reflexivity.
  - V2_step good ltac:(footprint). repeat split; auto.
Qed.

Lemma V2_loginAccount_record env st email password :
  let r := V2.loginAccount email password env st in
  same_config st (final r) /\
  ((outcome r = Return true /\
    exists token, significant (events r) = [V1_success_line email token]) \/
   (outcome r = Return false /\
    significant (events r) = [failure_line email password])).
Proof.
  intros r. subst r. unfold V2.loginAccount.
  destruct (generateAppId_run env st) as (appId & st1 & Hgen & C1 & _ & _).
  rewrite (bind_known _ _ _ _ _ _ _ Hgen).
  rewrite (bind_known _ _ _ _ _ _ _ (console_log_run _ env st1)).
  pose proof (V2_login_try_outcome email password appId env st1) as (C2 & _ & H).
  rewrite try_catch_run.
  destruct (V2.login_try email password appId env st1) as [[o st2] ev].
  rewrite outcome_mk, final_mk, events_mk in *.
  destruct o as [b|e|]; [| |contradiction].
  - destruct H as [-> [token Hsig]].
    unfold prefixed. rewrite !outcome_mk, !final_mk, !events_mk.
    split; [exact (same_config_trans _ _ _ C1 C2)|]. left.
    split; [reflexivity|]. exists token.
    rewrite !significant_app, Hsig. reflexivity.
  - rewrite handler_run.
    unfold prefixed. rewrite !outcome_mk, !final_mk, !events_mk.
    split; [exact (same_config_trans _ _ _ C1 C2)|]. right.
    split; [reflexivity|].
    rewrite !significant_app, H. reflexivity.
Qed.

Lemma V2_main_loop_step total index cred rest successful failed env st :
  V2.main_loop total index (cred :: rest) successful failed env st =
  prefixed [Console (nl ++ "Processing account " ++ nat_to_string (index + 1)
                     ++ "/" ++ nat_to_string total)]
    match outcome (V2.loginAccount (email cred) (password cred) env st) with
    | Return result =>
        prefixed (events (V2.loginAccount (email cred) (password cred) env st)
                  ++ [batch_pause])
          (V2.main_loop total (S index) rest
             (if result then S successful else successful)
             (if result then failed else S failed) env
             (final (V2.loginAccount (email cred) (password cred) env st)))
    | Throw e =>
        (Throw e, final (V2.loginAccount (email cred) (password cred) env st),
         events (V2.loginAccount (email cred) (password cred) env st))
    | Diverge =>
        (Diverge, final (V2.loginAccount (email cred) (password cred) env st),
         events (V2.loginAccount (email cred) (password cred) env st))
    end.
Proof.
  cbn [V2.main_loop].
  rewrite (bind_known _ _ _ _ _ _ _ (console_log_run _ env st)).
  f_equal. rewrite bind_run.
  destruct (outcome (V2.loginAccount (email cred) (password cred) env st))
    as [result|e|]; try reflexivity.
  cbv zeta.
  rewrite (bind_known _ _ _ _ _ _ _ (sleep_run AtBatch (num 2000) env _)).
  unfold prefixed. rewrite !outcome_mk, !final_mk, !events_mk.
  rewrite <- app_assoc. reflexivity.
Qed.

Lemma V2_main_loop_batch env total credentials : forall index successful failed st,
  let r := V2.main_loop total index credentials successful failed env st in
  exists results,
    List.length results = List.length credentials /\
    outcome r = Return (successful + succeeded results,
                        failed + not_succeeded results) /\
    batch_view (events r)
    = pause_after_each (account_lines credentials results).
Proof.
  induction credentials as [|cred rest IH]; intros index successful failed st r;
    subst r.
  - exists []. repeat split. cbn [V2.main_loop]. unfold ret.
    rewrite outcome_mk. unfold succeeded, not_succeeded. simpl.
    rewrite !Nat.add_0_r. reflexivity.
  - rewrite V2_main_loop_step.
    pose proof (V2_loginAccount_record env st (email cred) (password cred))
      as (_ & H).
    destruct H as [(Ho & token & Hsig) | (Ho & Hsig)]; rewrite Ho.
    + destruct (IH (S index) (S successful) failed
                  (final (V2.loginAccount (email cred) (password cred) env st)))
        as (results & Hlen & Hout & Hview).
      exists (Some token :: results).
      rewrite !outcome_prefixed, !events_prefixed.
      split; [simpl; rewrite Hlen; reflexivity|].
      split.
      * rewrite Hout. unfold succeeded, not_succeeded. simpl.
        f_equal. f_equal. lia.
      * rewrite !batch_view_app, Hview.
        rewrite <- (batch_view_significant (events _)), Hsig.
        reflexivity.
    + destruct (IH (S index) successful (S failed)
                  (final (V2.loginAccount (email cred) (password cred) env st)))
        as (results & Hlen & Hout & Hview).
      exists (None :: results).
      rewrite !outcome_prefixed, !events_prefixed.
      split; [simpl; rewrite Hlen; reflexivity|].
      split.
      * rewrite Hout. unfold succeeded, not_succeeded. simpl.
        f_equal. f_equal. lia.
      * rewrite !batch_view_app, Hview.
        rewrite <- (batch_view_significant (events _)), Hsig.
        reflexivity.
Qed.

(** X12. Lines 513-565 and 599-619 of variant 2. A [loginAccount] that has
    returned [true] has appended exactly one line, the success line with the
    token; one that has returned [false] exactly the failure line with the
    password. With no credentials [main] only prints that none were found;
    otherwise, when the loop over the accounts has returned, it has taken
    the accounts in order, one line each, paused 2000 ms after every
    account, the last included, and ended with a summary whose counts are
    the numbers of lines written to the two logs. (Whether the calls return
    is not part of the statement: here they always do, appends to the logs
    being taken to succeed.) *)
Theorem V2_batch_in_order env st credentials :
  (forall email password,
     let a := V2.loginAccount email password env st in
     (outcome a = Return true ->
      exists token, records (events a) = [V1_success_record email token]) /\
     (outcome a = Return false ->
      records (events a) = [failure_record email password])) /\
  let r := V2.main_accounts credentials env st in
  let s := logged "successful_logins.txt" (events r) in
  let f := logged "failed_logins.txt" (events r) in
  (outcome r = Return tt ->
   s + f = List.length credentials /\
   (exists results,
      List.length results = List.length credentials /\
      batch_view (events r)
      = pause_after_each (account_lines credentials results)) /\
   (credentials = [] ->
    events r = [Console "No valid credentials found in file.txt"]) /\
   (credentials <> [] ->
    exists before, console (events r) = (before ++ summary s f)%list)).
Proof.
  split.
  { intros email password a. subst a.
    destruct (V2_loginAccount_record env st email password)
      as (_ & [(Ho & token & Hsig) | (Ho & Hsig)]); rewrite Ho.
    - split; [|discriminate]. intros _. exists token.
      rewrite <- records_significant, Hsig. reflexivity.
    - split; [discriminate|]. intros _.
      rewrite <- records_significant, Hsig. reflexivity. }
  intros r s f _. subst r s f. unfold V2.main_accounts.
  destruct (List.length credentials =? 0) eqn:E.
  - apply Nat.eqb_eq, length_zero_iff_nil in E. subst credentials.
    rewrite console_log_run, events_mk.
    split; [reflexivity|].
    split; [exists []; split; reflexivity|].
    split; [reflexivity | congruence].
  - rewrite (bind_known _ _ _ _ _ _ _ (console_log_run _ env st)).
    destruct (V2_main_loop_batch env (List.length credentials) credentials 0 0 0 st)
      as (results & Hlen & Hout & Hview).
    cbn [Nat.add] in Hout. rewrite bind_run, Hout, console_tail_run.
    unfold prefixed. rewrite !events_mk.
    destruct (logged_lines credentials results Hlen) as (L1 & L2 & _ & L4).
    set (evs := events (V2.main_loop (List.length credentials) 0 credentials
                          0 0 env st)) in *.
    set (found := Console (nl ++ "Found " ++ nat_to_string (List.length credentials)
                           ++ " accounts to process")).
    assert (R : forall path s f,
              logged path ([found] ++ evs ++ map Console (summary s f))
              = logged path (pause_after_each (account_lines credentials results))).
    { intros path s f. unfold logged.
      rewrite !records_app. simpl. rewrite app_nil_r.
      rewrite <- Hview, records_batch_view. reflexivity. }
    cbn [fst snd].
    change [Console (nl ++ "Processing completed");
            Console ("Successful logins: " ++ nat_to_string (succeeded results));
            Console ("Failed logins: " ++ nat_to_string (not_succeeded results))]
      with (map Console (summary (succeeded results) (not_succeeded results))).
    rewrite !R, L1, L2.
    split; [exact L4|]. split; [|split].
    + exists results. split; [exact Hlen|].
      rewrite !batch_view_app, Hview. simpl. rewrite app_nil_r. reflexivity.
    + intros ->. discriminate.
    + intros _. exists (console ([found] ++ evs)).
      rewrite app_assoc, console_app. reflexivity.
Qed.

Lemma V2_batch_in_order_demo :
  let r := V2.main_accounts two_accounts (demo_env 1 five_points)
             (demo_state "manual" []) in
  outcome r = Return tt /\
  logged "successful_logins.txt" (events r)
  + logged "failed_logins.txt" (events r) = 2.
Proof.
  assert (Hret : outcome (V2.main_accounts two_accounts (demo_env 1 five_points)
                            (demo_state "manual" [])) = Return tt)
    by (vm_compute; reflexivity).
  split; [exact Hret|].
  exact (proj1 (proj2 (V2_batch_in_order (demo_env 1 five_points)
                         (demo_state "manual" []) two_accounts) Hret)).
Defined.

(* ================================================================== *)
(** ** Variant 3 with and without proxies *)

(** X13. Lines 676-686 inside lines 854-917: from any state whose cursor is
    within the pool, and when the agent constructors accept every entry of
    the pool, the i-th request of a login (over all its attempts and
    retries) goes through the pool entry at cursor + i, wrapping around;
    afterwards the cursor has advanced by the number of requests made and is
    within the pool again, so that [getProxyAgent] never meets an index out
    of range. With proxying off or an empty pool every request is direct
    and the cursor does not move. *)
Theorem login_requests_rotate env st email password :
  usable_pool env st ->
  let r := V3.loginAccount email password env st in
  let n := List.length (agents (events r)) in
  agents (events r) = map (nth_agent st) (seq 0 n) /\
  proxyList (final r) = proxyList st /\
  proxy_wf (final r) /\
  (proxied st = true ->
   currentProxyIndex (final r)
   = (currentProxyIndex st + n) mod List.length (proxyList st)) /\
  (proxied st = false ->
   agents (events r) = repeat None n /\
   currentProxyIndex (final r) = currentProxyIndex st).
Proof.
  intros Hwf r n. subst r n.
  pose proof (rotating_loginAccount email password env st Hwf) as Hrot.
  pose proof (rotates_wf _ _ _ Hrot (proj1 Hwf)) as Hwf'.
  destruct Hrot as (U & L & A & C).
  split; [exact A|]. split; [exact L|]. split; [exact Hwf'|]. split.
  - intros P. rewrite C, P. reflexivity.
  - intros P. rewrite C, P. split; [|reflexivity].
    rewrite A at 1. unfold nth_agent. rewrite P.
    generalize (List.length (agents (events (V3.loginAccount email password env st)))).
    intros n. generalize 0.
    induction n as [|n IH]; intros k; [reflexivity|].
    simpl. rewrite IH. reflexivity.
Qed.

Lemma login_requests_rotate_demo :
  let st := demo_state "2captcha" demo_pool in
  let r := V3.loginAccount "ann@example.org" "pa" (demo_env 1 five_points) st in
  proxies_of (agents (events r))
  = [Some "http://10.0.0.1:8080"; Some "socks5://10.0.0.2:1080";
     Some "http://10.0.0.3:8080"; Some "http://10.0.0.1:8080";
     Some "socks5://10.0.0.2:1080"; Some "http://10.0.0.3:8080";
     Some "http://10.0.0.1:8080"] /\
  currentProxyIndex (final r) = 1.
Proof.
  assert (Hpool : usable_pool (demo_env 1 five_points)
                    (demo_state "2captcha" demo_pool)).
  { split; [right; simpl; lia | intros _; repeat constructor]. }
  pose proof (login_requests_rotate (demo_env 1 five_points)
                (demo_state "2captcha" demo_pool) "ann@example.org" "pa"
                Hpool) as (A & _ & _ & C & _).
  cbv zeta in A, C. split.
  - rewrite A. vm_compute. reflexivity.
  - rewrite (C eq_refl). vm_compute. reflexivity.
Defined.

(** *** Without proxies the puzzle requests are those of variant 2 *)

Lemma for_upto_agree {A} (body1 body2 : nat -> M (option A))
    (I : State -> Prop) env :
  (forall i st, I st -> body1 i env st = body2 i env st) ->
  (forall i st, I st -> I (final (body2 i env st))) ->
  forall n i st, I st -> for_upto n i body1 env st = for_upto n i body2 env st.
Proof.
  intros Hb Hi. induction n as [|n IH]; intros i st H; [reflexivity|].
  rewrite !for_upto_step, (Hb i st H).
  destruct (outcome (body2 i env st)) as [[v|]|e|]; try reflexivity.
  f_equal. apply IH, Hi, H.
Qed.

Lemma try_catch_agree {A} (m1 m2 : M A) h env st :
  m1 env st = m2 env st -> try_catch m1 h env st = try_catch m2 h env st.
Proof. intros H. unfold try_catch. rewrite H. reflexivity. Qed.

Lemma proxied_same st st' : same_config st st' -> proxied st' = proxied st.
Proof. intros (_ & U & L & _). unfold proxied. rewrite U, L. reflexivity. Qed.

Lemma proxied_off env st :
  proxied st = false -> V3.getProxyAgent env st = (Return None, st, []).
Proof.
  intros P. apply getProxyAgent_disabled. unfold proxied in P.
  destruct (useProxies st); [right | left; reflexivity].
  simpl in P. apply negb_false_iff, Nat.eqb_eq in P.
  apply length_zero_iff_nil. exact P.
Qed.

Lemma prefixed_nil {A} (r : Result A) : prefixed [] r = r.
Proof. destruct r as [[o s] e]. reflexivity. Qed.

(** Two retry loops agree when their [try] blocks agree on every state
    without proxies. *)
Ltac loops_agree P :=
  match goal with
  | |- (map_outcome _ (outcome ?a), _, _) = (map_outcome _ (outcome ?b), _, _) =>
      let E := fresh "E" in
      assert (E : a = b); [|rewrite E; reflexivity]
  end;
  match goal with
  | |- for_upto _ _ _ ?env _ = _ =>
      apply (for_upto_agree _ _ (fun s => proxied s = false) env);
      [ intros i s Hs; apply try_catch_agree
      | intros i s Hs; rewrite <- Hs; apply proxied_same;
        match goal with
        | |- same_config s (final (?m env s)) =>
            let W := fresh "W" in
            assert (W : within every_event any_port m)
              by (unfold_helpers; footprint);
            destruct (W env s) as [(C & _) _]; exact C
        end
      | exact P ]
  end.

(** X14. With proxying off or an empty pool, [getPuzzleId] and
    [getPuzzleImage] of variant 3 are those of variant 2: the same requests,
    pauses, console lines, result and final state, whatever the service
    answers. *)
Theorem without_proxies_as_variant_2 env st appId puzzleId :
  proxied st = false ->
  V3.getPuzzleId appId env st = V2.getPuzzleId appId env st /\
  V3.getPuzzleImage puzzleId appId env st = V2.getPuzzleImage puzzleId appId env st.
Proof.
  intros P. split.
  - unfold V3.getPuzzleId, V2.getPuzzleId, for_range. rewrite !bind_ret_run.
    loops_agree P.
    unfold V3.getPuzzleId_try.
    rewrite (bind_known _ _ _ _ _ _ _ (proxied_off env s Hs)). apply prefixed_nil.
  - unfold V3.getPuzzleImage, V2.getPuzzleImage, for_range. rewrite !bind_ret_run.
    loops_agree P.
    unfold V3.getPuzzleImage_try.
    rewrite (bind_known _ _ _ _ _ _ _ (proxied_off env s Hs)). apply prefixed_nil.
Qed.

Lemma without_proxies_as_variant_2_demo :
  let st := demo_state "2captcha" [] in
  V3.getPuzzleId "67ab" flaky_env st = V2.getPuzzleId "67ab" flaky_env st /\
  V3.getPuzzleImage (JStr "p-7") "67ab" flaky_env st
  = V2.getPuzzleImage (JStr "p-7") "67ab" flaky_env st.
Proof.
  exact (without_proxies_as_variant_2 flaky_env (demo_state "2captcha" []) "67ab"
           (JStr "p-7") eq_refl).
Defined.

(* ================================================================== *)
(** ** The points query of variants 2 and 4 *)

(** The result [r] of a points query made once in state [st]. *)
Definition asked_once (env : Env) (st : State) (appId : string)
    (r : Result JSValue) : Prop :=
  let reply := net env GetPoint (calls st (PNet GetPoint)) in
  exists evs,
    r = (Return (match points_in reply with Some v => v | None => JNum 0 end),
         tick (PNet GetPoint) st, evs) /\
    fetches GetPoint evs = 1 /\ pauses AtPoints evs = [] /\
    (points_in reply = None ->
     exists e, evs = [Fetch GetPoint (points_url appId) None;
                      Console ("Error getting points: " ++ e)]) /\
    (points_in reply <> None -> evs = [Fetch GetPoint (points_url appId) None]).

Lemma V4_getUserPoints_once env st token appId :
  asked_once env st appId (V4.getUserPoints token appId env st).
Proof.
  unfold asked_once, V4.getUserPoints, points_in. run.
  destruct (net env GetPoint (calls st (PNet GetPoint))) as [msg|[o s [data|]]];
    simpl;
    [| destruct o; simpl;
       [destruct (js_get data "success") as [e|success]; simpl;
        [|destruct (js_truthy success); simpl;
          [destruct (js_get data "data") as [e|[]]; simpl|]]|]
     | destruct o; simpl];
    eexists; (split; [reflexivity|]);
    (split; [reflexivity|]); (split; [reflexivity|]);
    (split; [try discriminate; intros _; eexists; reflexivity
            | try reflexivity; intros H; contradiction H; reflexivity]).
Qed.

(** X15. Lines 476-510 and 1187-1221: [getUserPoints] of variants 2 and 4
    makes one request and never throws. It returns the sum of the point
    fields that a successful reply carries, and 0, after printing the error,
    when the request fails, the status is not a success, the body cannot be
    read or lacks its fields; there is no retry and no pause. *)
Theorem points_query_once env st token appId :
  asked_once env st appId (V2.getUserPoints token appId env st) /\
  asked_once env st appId (V4.getUserPoints token appId env st).
Proof.
  split; exact (V4_getUserPoints_once env st token appId).
Qed.

Lemma points_query_traces :
  V4.getUserPoints (JStr "tok-1") "67ab" (demo_env 0 points_down)
    (demo_state "manual" [])
  = (Return (JNum 0), tick (PNet GetPoint) (demo_state "manual" []),
     [Fetch GetPoint (points_url "67ab") None;
      Console "Error getting points: HTTP error! status: 500"]) /\
  outcome (V2.getUserPoints (JStr "tok-1") "67ab" (demo_env 0 five_points)
             (demo_state "manual" [])) = Return (JNum 5).
Proof. split; reflexivity. Qed.

(* ================================================================== *)
(** ** Which solver the answers select *)

(** The questions asked on the terminal, in order. *)
Fixpoint asks (evs : list Event) : list string :=
  match evs with
  | [] => []
  | Ask query :: r => query :: asks r
  | _ :: r => asks r
  end.

(** The solver calls of a trace, in order. *)
Fixpoint solver_calls (evs : list Event) : list Port :=
  match evs with
  | [] => []
  | Solve p :: r => p :: solver_calls r
  | _ :: r => solver_calls r
  end.

Definition captcha_prompt : string :=
  nl ++ "Please check temp_captcha.png and enter the captcha code: ".

(** X16. Lines 302-316 with lines 148-179 (variant 1): the answer [1] selects
    2captcha and the answer [2] Anti-Captcha, after asking for the API key;
    every other answer, [3] or not, selects manual input without asking for
    a key. The captcha of the first account is then solved accordingly: by
    one call of the chosen service, or, in manual mode, by no service at
    all but by a question on the terminal once the image is saved. *)
Theorem V1_solver_choice env st image :
  let choice := answers env (calls st PQuestion) in
  let r := (V1_main.main_solver ;; V1.processCaptcha image) env st in
  model (final r) =
  (if (choice =? "1")%string then "2captcha"
   else if (choice =? "2")%string then "anticaptcha" else "manual") /\
  ((choice =? "1")%string = true ->
   asks (events r) = [nl ++ "Enter your choice (1, 2, or 3): ";
                      nl ++ "Enter your 2captcha API key: "] /\
   solver_calls (events r) = [PImageCaptcha]) /\
  ((choice =? "1")%string = false -> (choice =? "2")%string = true ->
   asks (events r) = [nl ++ "Enter your choice (1, 2, or 3): ";
                      nl ++ "Enter your anticaptcha API key: "] /\
   solver_calls (events r) = [PSolveImage]) /\
  ((choice =? "1")%string = false -> (choice =? "2")%string = false ->
   solver_calls (events r) = [] /\
   asks (events r) =
   match saveImage env (calls st PSaveImage) with
   | None => [nl ++ "Enter your choice (1, 2, or 3): "; captcha_prompt]
   | Some _ => [nl ++ "Enter your choice (1, 2, or 3): "]
   end).
Proof.
  intros choice r. subst choice r.
  unfold V1_main.main_solver, V1_main.setupCaptchaSolver, V1.processCaptcha,
    V1.saveCaptchaImage, modify.
  run.
  destruct (answers env (calls st PQuestion) =? "1")%string eqn:E1; simpl.
  - destruct (imageCaptcha env (calls st PImageCaptcha)) as [e|result]; simpl;
      [|destruct (js_get result "data"); simpl];
      (split; [reflexivity|]); (split; [intros _; split; reflexivity|]);
      split; intros; discriminate.
  - destruct (answers env (calls st PQuestion) =? "2")%string eqn:E2; simpl.
    + destruct (solveImage env (calls st PSolveImage)) as [e|v]; simpl;
        (split; [reflexivity|]); (split; [intros; discriminate|]);
        (split; [intros _ _; split; reflexivity|]); intros; discriminate.
    + destruct (saveImage env (calls st PSaveImage)) as [e|]; simpl;
        (split; [reflexivity|]); (split; [intros; discriminate|]);
        (split; [intros; discriminate|]); intros _ _; split; reflexivity.
Qed.

(** *** Variant 4: who gets the status messages *)

Definition V4_solverType (choice : string) : string :=
  if (choice =? "1")%string then "2captcha"
  else if (choice =? "2")%string then "gemini"
  else if (choice =? "4")%string then "telegram"
  else "manual".

Lemma V4_main_solver_run env st :
  let choice := answers env (calls st PQuestion) in
  exists st' evs,
    V4_main.main_solver env st = (Return tt, st', evs) /\
    model st' = V4_solverType choice /\
    telegramBot st' = (telegramBot st || (choice =? "4")%string) /\
    telegramChatId st' = telegramChatId st /\
    notices evs = [] /\ records evs = [] /\
    asks evs =
    ("Enter your choice (1, 2, 3, or 4): "
     :: (if (choice =? "1")%string then ["Enter your 2captcha API key: "]
         else if (choice =? "2")%string then ["Enter your Gemini API key: "]
         else if (choice =? "4")%string then ["Enter your Telegram Bot API key: "]
         else [])).
Proof.
  intros choice. subst choice.
  unfold V4_main.main_solver, V4_main.setupCaptchaSolver, V4_solverType, modify.
  run.
  destruct (answers env (calls st PQuestion) =? "1")%string eqn:E1;
    [apply String.eqb_eq in E1; rewrite E1
    |destruct (answers env (calls st PQuestion) =? "2")%string eqn:E2;
      [apply String.eqb_eq in E2; rewrite E2
      |destruct (answers env (calls st PQuestion) =? "4")%string eqn:E4]];
    simpl; eexists _, _; (split; [reflexivity|]); repeat split;
    simpl; rewrite ?orb_false_r, ?orb_true_r; reflexivity.
Qed.

(** X17. Lines 1331-1350 with lines 1030-1063: only the answer [4] creates the
    Telegram bot. With any other solver the retry loop sends no status
    message at all, however many attempts it makes. The answer [1] selects
    2captcha, [2] Gemini, and every answer other than [1], [2] and [4]
    manual input, for which no API key is asked. *)
Theorem status_needs_telegram_solver env st fuel email password :
  telegramBot st = false ->
  let choice := answers env (calls st PQuestion) in
  let r := (V4_main.main_solver ;;
            V4.loginAccountWithRetry fuel email password) env st in
  model (final r) = V4_solverType choice /\
  telegramBot (final r) = (choice =? "4")%string /\
  ((choice =? "4")%string = false -> notices (events r) = []) /\
  ((choice =? "1")%string = false -> (choice =? "2")%string = false ->
   (choice =? "4")%string = false ->
   model (final r) = "manual" /\
   asks (events (V4_main.main_solver env st))
   = ["Enter your choice (1, 2, 3, or 4): "]).
Proof.
  intros Hbot choice r. subst choice r.
  destruct (V4_main_solver_run env st) as (st' & evs & Hrun & Hm & Hb & Hc & Hn & _ & Ha).
  cbv zeta in Hm, Hb, Ha.
  rewrite (bind_known _ _ _ _ _ _ _ Hrun), final_prefixed, events_prefixed.
  unfold V4.loginAccountWithRetry.
  destruct (V4_retry_spec email password fuel 1 env st')
    as ((M & _ & _ & B & _) & errors & ending & Hsig & H).
  rewrite M, B, Hm, Hb, Hbot. cbn [orb].
  split; [reflexivity|]. split; [reflexivity|]. split.
  - intros E4. rewrite notices_app, Hn. cbn [app].
    rewrite <- notices_significant, Hsig, notices_app.
    destruct (failed_rounds_projections st' email errors 1) as (_ & _ & ->).
    assert (O : observed st' = false).
    { unfold observed. rewrite Hb, Hbot, E4. reflexivity. }
    rewrite O. cbn [app].
    destruct H as [(_ & _ & token & points & ->) | (_ & _ & ->)]; [|reflexivity].
    rewrite !notices_app.
    destruct (notice_projections st' (V4.attempt_notice (1 + List.length errors) email))
      as (-> & _).
    destruct (notice_projections st' (V4.success_notice email points)) as (-> & _).
    rewrite O. reflexivity.
  - intros E1 E2 E4. unfold V4_solverType. rewrite E1, E2, E4.
    split; [reflexivity|].
    rewrite Hrun, events_mk, Ha, E1, E2, E4. reflexivity.
Qed.

Lemma status_needs_telegram_solver_demo :
  let env := demo_env 1 five_points in
  let r := (V4_main.main_solver ;;
            V4.loginAccountWithRetry 3 "ann@example.org" "pa") env
             (demo_state "" []) in
  outcome r = Return true /\
  model (final r) = "manual" /\
  notices (events r) = [] /\
  pauses AtLogin (events r) = [inject_Z 5000].
Proof.
  destruct (status_needs_telegram_solver (demo_env 1 five_points)
              (demo_state "" []) 3 "ann@example.org" "pa" eq_refl)
    as (Hm & _ & Hn & _).
  cbv zeta in Hm, Hn.
  split; [vm_compute; reflexivity|]. split; [rewrite Hm; reflexivity|].
  split; [apply Hn; reflexivity | vm_compute; reflexivity].
Defined.

(** *** Variant 4: the chat that the bot is bound to *)

(** The messages of the chats [chat_ids] arrive one after the other. *)
Fixpoint messages_arrive (chat_ids : list JSValue) : M unit :=
  match chat_ids with
  | [] => ret tt
  | chat_id :: rest => V4_main.on_message chat_id ;; messages_arrive rest
  end.

Lemma on_message_run chat_id env st :
  V4_main.on_message chat_id env st =
  if js_truthy (telegramChatId st) then (Return tt, st, [])
  else (Return tt, set_telegramChatId chat_id st,
        [Console ("Telegram chat ID set: " ++ js_to_string chat_id)]).
Proof.
  unfold V4_main.on_message, modify. run.
  destruct (js_truthy (telegramChatId st)); reflexivity.
Qed.

(** X18. Lines 1052-1057: the bot binds to the chat of the first message it
    receives and keeps it: once a chat id is set, no later message, from
    whatever chat, changes it or prints anything, so that all status
    messages and captcha photos of the run go to that first chat. *)
Theorem first_chat_is_kept env st first others :
  js_truthy (telegramChatId st) = false ->
  js_truthy first = true ->
  let r := messages_arrive (first :: others) env st in
  outcome r = Return tt /\
  telegramChatId (final r) = first /\
  events r = [Console ("Telegram chat ID set: " ++ js_to_string first)] /\
  telegramBot (final r) = telegramBot st /\ model (final r) = model st /\
  forall text,
    notice (final r) text
    = if telegramBot st then [TelegramMessage first text] else [].
Proof.
  intros Hunset Hfirst r. subst r. cbn [messages_arrive].
  assert (Hrest : forall s,
            js_truthy (telegramChatId s) = true ->
            messages_arrive others env s = (Return tt, s, [])).
  { induction others as [|c cs IH]; intros s Hs; [reflexivity|].
    cbn [messages_arrive].
    assert (E : V4_main.on_message c env s = (Return tt, s, [])).
    { rewrite on_message_run, Hs. reflexivity. }
    rewrite (bind_known _ _ _ _ _ _ _ E), (IH s Hs). reflexivity. }
  assert (E : V4_main.on_message first env st =
              (Return tt, set_telegramChatId first st,
               [Console ("Telegram chat ID set: " ++ js_to_string first)])).
  { rewrite on_message_run, Hunset. reflexivity. }
  rewrite (bind_known _ _ _ _ _ _ _ E), (Hrest (set_telegramChatId first st) Hfirst).
  unfold prefixed. rewrite !outcome_mk, !final_mk, !events_mk.
  repeat split.
  intros text. unfold notice, observed. simpl. rewrite Hfirst.
  destruct (telegramBot st); reflexivity.
Qed.

Lemma first_chat_is_kept_demo :
  let st := set_telegramBot true (demo_state "manual" []) in
  let r := messages_arrive [JNum 4711; JNum 99; JNum 4711; JNum 7]
             (demo_env 0 five_points) st in
  telegramChatId (final r) = JNum 4711 /\
  events r = [Console "Telegram chat ID set: 4711"] /\
  notice (final r) "hello" = [TelegramMessage (JNum 4711) "hello"].
Proof.
  destruct (first_chat_is_kept (demo_env 0 five_points)
              (set_telegramBot true (demo_state "manual" []))
              (JNum 4711) [JNum 99; JNum 4711; JNum 7] eq_refl eq_refl)
    as (_ & Hc & He & _ & _ & Hn).
  cbv zeta in Hc, He, Hn. cbv zeta. rewrite Hc, He, Hn. repeat split.
Defined.

(* ================================================================== *)
(** ** How many requests and solver calls a login can make *)

(** A way of counting events of one kind: [quiet] events count for nothing,
    every event for one at most. *)
Record Counter := {
  count : list Event -> nat;
  quiet : Event -> bool;
  count_app : forall a b, count (a ++ b)%list = count a + count b;
  count_quiet : forall e, quiet e = true -> count [e] = 0;
  count_single : forall e, count [e] <= 1
}.

Lemma count_nil (c : Counter) : count c [] = 0.
Proof.
  pose proof (count_app c [] []) as H. simpl in H. lia.
Qed.

Lemma count_all_quiet (c : Counter) evs :
  Forall (fun e => quiet c e = true) evs -> count c evs = 0.
Proof.
  induction 1 as [|e evs He _ IH]; [apply count_nil|].
  change (e :: evs) with ([e] ++ evs)%list.
  rewrite count_app, IH, (count_quiet c e He). reflexivity.
Qed.

(** Whatever the environment answers, [m] makes [n] counted events at most. *)
Definition at_most (c : Counter) {A} (n : nat) (m : M A) : Prop :=
  forall env st, count c (events (m env st)) <= n.

Lemma at_most_quiet (c : Counter) {A} n (m : M A) :
  within (quiet c) any_port m -> at_most c n m.
Proof.
  intros H env st. destruct (H env st) as [(_ & _ & _ & F) _].
  rewrite (count_all_quiet c _ F). lia.
Qed.

Lemma at_most_bind (c : Counter) {A B} a b (m : M A) (f : A -> M B) :
  at_most c a m -> (forall x, at_most c b (f x)) -> at_most c (a + b) (bind m f).
Proof.
  intros Hm Hf env st. rewrite bind_run. specialize (Hm env st).
  destruct (outcome (m env st)) as [x|e|]; rewrite ?events_mk; try lia.
  rewrite events_prefixed, count_app.
  specialize (Hf x env (final (m env st))). lia.
Qed.

Lemma at_most_try_catch (c : Counter) {A} a b (m : M A) (h : string -> M A) :
  at_most c a m -> (forall e, at_most c b (h e)) ->
  at_most c (a + b) (try_catch m h).
Proof.
  intros Hm Hh env st. rewrite try_catch_run. specialize (Hm env st).
  destruct (outcome (m env st)) as [x|e|]; try lia.
  rewrite events_prefixed, count_app.
  specialize (Hh e env (final (m env st))). lia.
Qed.

Lemma at_most_for_upto (c : Counter) {A} b (body : nat -> M (option A)) n :
  (forall i, at_most c b (body i)) ->
  forall i, at_most c (n * b) (for_upto n i body).
Proof.
  intros Hb. induction n as [|n IH]; intros i env st.
  - simpl. rewrite count_nil. lia.
  - rewrite for_upto_step. specialize (Hb i env st).
    destruct (outcome (body i env st)) as [[v|]|e|]; rewrite ?events_mk;
      try (rewrite ?app_nil_r; simpl; lia).
    rewrite events_prefixed, count_app.
    specialize (IH (S i) env (final (body i env st))). simpl. lia.
Qed.

Lemma at_most_le (c : Counter) {A} a b (m : M A) :
  a <= b -> at_most c a m -> at_most c b m.
Proof. intros Hab H env st. specialize (H env st). lia. Qed.

Lemma at_most_emit (c : Counter) e n : 1 <= n -> at_most c n (emit e).
Proof. intros Hn env st. pose proof (count_single c e). simpl. lia. Qed.

Lemma at_most_fetch (c : Counter) ep url agent n :
  1 <= n -> at_most c n (fetch ep url agent).
Proof.
  intros Hn env st. rewrite fetch_run.
  pose proof (count_single c (Fetch ep url agent)).
  destruct (net env ep (calls st (PNet ep))); rewrite events_mk; lia.
Qed.

(** The requests to the endpoint [ep], and the solver calls. *)
Definition other_than (ep : Endpoint) (e : Event) : bool :=
  match e with
  | Fetch ep' _ _ => negb (Endpoint_eqb ep' ep)
  | _ => true
  end.

Definition no_solver (e : Event) : bool :=
  match e with Solve _ => false | _ => true end.

Lemma fetches_other ep e : other_than ep e = true -> fetches ep [e] = 0.
Proof.
  destruct e; try reflexivity. simpl.
  intros H. apply negb_true_iff in H. rewrite H. reflexivity.
Qed.

Lemma fetches_single ep e : fetches ep [e] <= 1.
Proof. destruct e; simpl; try lia. destruct (Endpoint_eqb ep0 ep); simpl; lia. Qed.

Lemma solves_none e : no_solver e = true -> solves [e] = 0.
Proof. destruct e; try reflexivity. discriminate. Qed.

Lemma solves_single e : solves [e] <= 1.
Proof. destruct e; simpl; lia. Qed.

Definition requests_to (ep : Endpoint) : Counter :=
  {| count := fetches ep;
     quiet := other_than ep;
     count_app := fetches_app ep;
     count_quiet := fetches_other ep;
     count_single := fetches_single ep |}.

Definition solver_calls_made : Counter :=
  {| count := solves;
     quiet := no_solver;
     count_app := solves_app;
     count_quiet := solves_none;
     count_single := solves_single |}.

Lemma at_most_bind_l (c : Counter) {A B} n (m : M A) (f : A -> M B) :
  at_most c 0 m -> (forall x, at_most c n (f x)) -> at_most c n (bind m f).
Proof. intros Hm Hf. exact (at_most_bind c 0 n m f Hm Hf). Qed.

Lemma at_most_bind_r (c : Counter) {A B} n (m : M A) (f : A -> M B) :
  at_most c n m -> (forall x, at_most c 0 (f x)) -> at_most c n (bind m f).
Proof.
  intros Hm Hf. apply at_most_le with (a := n + 0); [lia|].
  exact (at_most_bind c n 0 m f Hm Hf).
Qed.

Lemma at_most_try_catch_r (c : Counter) {A} n (m : M A) (h : string -> M A) :
  at_most c n m -> (forall e, at_most c 0 (h e)) -> at_most c n (try_catch m h).
Proof.
  intros Hm Hh. apply at_most_le with (a := n + 0); [lia|].
  exact (at_most_try_catch c n 0 m h Hm Hh).
Qed.

Lemma generateAppId_silent (a : Event -> bool) : within a any_port generateAppId.
Proof.
  unfold generateAppId. generalize "67". generalize 22.
  induction n as [|n IH]; intros appId; simpl.
  - apply within_ret.
  - apply within_bind; [apply within_ask; reflexivity | intros r; apply IH].
Qed.

Ltac head_of t :=
  lazymatch t with
  | ?f _ => head_of f
  | _ => t
  end.

(** Follows the code, by the form of each step, to show that it makes only
    allowed events. *)
Ltac quietly :=
  lazymatch goal with
  | |- within _ _ (ret _) => apply within_ret
  | |- within _ _ (throw _) => apply within_throw
  | |- within _ _ get_state => apply within_get_state
  | |- within _ _ (lift _) => apply within_lift
  | |- within _ _ (emit _) => apply within_emit; reflexivity
  | |- within _ _ (ask _ _) => apply within_ask; reflexivity
  | |- within _ _ (bind _ _) => apply within_bind; [quietly | intros ?; quietly]
  | |- within _ _ (try_catch _ _) =>
      apply within_try_catch; [quietly | intros ?; quietly]
  | |- within _ _ (for_upto _ _ _) => apply within_for_upto; intros ?; quietly
  | |- within _ _ V3.getProxyAgent => apply within_getProxyAgent
  | |- within _ _ generateAppId => apply generateAppId_silent
  | |- within _ _ (if ?b then _ else _) => destruct b; quietly
  | |- within _ _ (match ?x with _ => _ end) => destruct x; quietly
  | |- within _ _ ?m => let h := head_of m in unfold h; quietly
  end.

(** The part of the code that makes no counted event at all. *)
Ltac free := solve [ apply at_most_quiet; quietly ].

(** Finds the one step that makes counted events; [per_round] is the bound
    of one round of a loop. *)
Ltac bound per_round :=
  lazymatch goal with
  | |- at_most _ _ (bind _ _) =>
      first [ apply at_most_bind_l; [free | intros ?; bound per_round]
            | apply at_most_bind_r; [bound per_round | intros ?; free] ]
  | |- at_most _ _ (try_catch _ _) =>
      apply at_most_try_catch_r; [bound per_round | intros ?; free]
  | |- at_most _ _ (for_upto _ _ _) =>
      first [ apply (at_most_for_upto _ 1); intros ?; bound per_round
            | apply (at_most_for_upto _ per_round); intros ?; bound per_round ]
  | |- at_most _ _ (fetch _ _ _) => first [free | apply at_most_fetch; lia]
  | |- at_most _ _ (emit _) => first [free | apply at_most_emit; lia]
  | |- at_most _ _ (if ?b then _ else _) => destruct b; bound per_round
  | |- at_most _ _ (match ?x with _ => _ end) => destruct x; bound per_round
  | |- at_most _ _ ?m =>
      first [ free | let h := head_of m in unfold h; bound per_round ]
  end.

Lemma V1_login_bounds email password :
  at_most (requests_to GetPuzzle) 3 (V1.loginAccount email password) /\
  at_most (requests_to GetPuzzleImage) 3 (V1.loginAccount email password) /\
  at_most (requests_to Login) 1 (V1.loginAccount email password) /\
  at_most (requests_to GetPoint) 1 (V1.loginAccount email password) /\
  at_most solver_calls_made 1 (V1.loginAccount email password).
Proof. repeat split; bound 1. Qed.

Lemma V2_login_bounds email password :
  at_most (requests_to GetPuzzle) 3 (V2.loginAccount email password) /\
  at_most (requests_to GetPuzzleImage) 3 (V2.loginAccount email password) /\
  at_most (requests_to Login) 1 (V2.loginAccount email password) /\
  at_most (requests_to GetPoint) 1 (V2.loginAccount email password) /\
  at_most solver_calls_made 1 (V2.loginAccount email password).
Proof. repeat split; bound 1. Qed.


Lemma V4_round_bounds email password k :
  at_most (requests_to GetPuzzle) 3 (V4.loginAccountWithRetry_round email password k) /\
  at_most (requests_to GetPuzzleImage) 3
    (V4.loginAccountWithRetry_round email password k) /\
  at_most (requests_to Login) 1 (V4.loginAccountWithRetry_round email password k) /\
  at_most (requests_to GetPoint) 1 (V4.loginAccountWithRetry_round email password k) /\
  at_most solver_calls_made 1 (V4.loginAccountWithRetry_round email password k).
Proof. repeat split; bound 1. Qed.

(** *** The points queries of an account in variant 3 *)











Lemma at_most_fetches ep n {A} (m : M A) :
  at_most (requests_to ep) n m -> forall env st, fetches ep (events (m env st)) <= n.
Proof. intros H env st. exact (H env st). Qed.

Lemma at_most_solves n {A} (m : M A) :
  at_most solver_calls_made n m -> forall env st, solves (events (m env st)) <= n.
Proof. intros H env st. exact (H env st). Qed.

(** The requests and solver calls in a trace: at most [puzzle] requests for a
    puzzle, [image] for its image, [login] submissions, [points] queries of
    the points and [solver] calls of the captcha solver. *)
Definition traffic (evs : list Event) (puzzle image login points solver : nat)
    : Prop :=
  fetches GetPuzzle evs <= puzzle /\ fetches GetPuzzleImage evs <= image /\
  fetches Login evs <= login /\ fetches GetPoint evs <= points /\
  solves evs <= solver.

(** X19. Whatever the server and the solver answer, one account costs variants
    1 and 2, and one round of variant 4, at most three puzzle requests, three
    image requests, one login submission, one points query and one call of
    the captcha solver. *)
Theorem login_traffic_bounded env st email password k :
  traffic (events (V1.loginAccount email password env st)) 3 3 1 1 1 /\
  traffic (events (V2.loginAccount email password env st)) 3 3 1 1 1 /\
  traffic (events (V4.loginAccountWithRetry_round email password k env st))
    3 3 1 1 1.
Proof.
  destruct (V1_login_bounds email password) as (A1 & A2 & A3 & A4 & A5).
  destruct (V2_login_bounds email password) as (B1 & B2 & B3 & B4 & B5).
  destruct (V4_round_bounds email password k) as (D1 & D2 & D3 & D4 & D5).
  repeat split;
    [ exact (at_most_fetches _ _ _ A1 env st) | exact (at_most_fetches _ _ _ A2 env st)
    | exact (at_most_fetches _ _ _ A3 env st) | exact (at_most_fetches _ _ _ A4 env st)
    | exact (at_most_solves _ _ A5 env st)
    | exact (at_most_fetches _ _ _ B1 env st) | exact (at_most_fetches _ _ _ B2 env st)
    | exact (at_most_fetches _ _ _ B3 env st) | exact (at_most_fetches _ _ _ B4 env st)
    | exact (at_most_solves _ _ B5 env st)
    | exact (at_most_fetches _ _ _ D1 env st) | exact (at_most_fetches _ _ _ D2 env st)
    | exact (at_most_fetches _ _ _ D3 env st) | exact (at_most_fetches _ _ _ D4 env st)
    | exact (at_most_solves _ _ D5 env st) ].
Qed.



(* ================================================================== *)
(** ** The growth of the retry pause (variant 4) *)




(** Thirty-three rejected submissions in a row: the pauses grow up to the
    thirty-second, and the thirty-third is 1 ms. *)
Lemma long_retry_trace :
  let r := V4.loginAccountWithRetry 33 "ann@example.org" "pa"
             (demo_env 33 five_points) (demo_state "2captcha" []) in
  outcome r = Diverge /\
  skipn 30 (pauses AtLogin (events r))
  = [inject_Z 958755296; inject_Z 1438132944; 1%Q].
Proof. vm_compute. repeat split. Qed.
